(** * BA-AI request router: a shallow embedding of the pipeline's pure core

    The development embeds, function by function, the parts of the router
    that its specification makes quantified statements about:

    - the file-backed memory store ([MemoryStore], from the memory module);
    - the two response caches ([ResponseCache]);
    - the arithmetic fast path ([Arith]: tokenizer, shunting yard, RPN
      evaluator);
    - ranking post-validation ([Ranking]);
    - the generation supervisor's fallback logic ([Supervisor]);
    - the local fast-path dispatch of the streaming handler ([FastPath]);
    - the tool sandbox denylists ([Sandbox]);
    - the intent classifier's scoring loop ([Intent]);
    - the response formatter ([Formatter]).

    Strings are JavaScript strings restricted to code units below 256
    (lists of [ascii]); regular expressions are interpreted by a small
    backtracking matcher ([Regex]) that follows the priority order of the
    ECMAScript matcher.  Numbers are IEEE binary64 values in the inductive
    presentation of [SpecFloat].

    Layout: Part I holds the embedding (definitions only), Part II the
    properties. *)

From Stdlib Require Import String Ascii List Bool Arith PeanoNat ZArith Lia.
From Stdlib Require Import SpecFloat.
Import ListNotations.

(* ################################################################# *)
(** * Part I: the embedding *)

(* ================================================================= *)
(** ** JavaScript strings *)

Module Js.

(** A string is the list of its code units. *)
Definition jsstring := list ascii.

Definition str (s : string) : jsstring := list_ascii_of_string s.

Definition code (c : ascii) : nat := nat_of_ascii c.

Definition between (lo hi : nat) (c : ascii) : bool :=
  (lo <=? code c) && (code c <=? hi).

(** [\d] *)
Definition isDigit (c : ascii) : bool := between 48 57 c.

Definition isLowerAZ (c : ascii) : bool := between 97 122 c.
Definition isUpperAZ (c : ascii) : bool := between 65 90 c.

(** [\w] *)
Definition isWordChar (c : ascii) : bool :=
  isDigit c || isLowerAZ c || isUpperAZ c || (code c =? 95).

(** Line terminators: LF and CR (U+2028 and U+2029 lie outside the
    modelled alphabet). *)
Definition isLineTerminator (c : ascii) : bool :=
  (code c =? 10) || (code c =? 13).

(** [\s], which is also the set [String.prototype.trim] strips: TAB, LF,
    VT, FF, CR, SPACE and NBSP. *)
Definition isSpace (c : ascii) : bool :=
  between 9 13 c || (code c =? 32) || (code c =? 160).

(** [String.prototype.toLowerCase] on Latin-1: A-Z and the accented
    capitals U+00C0..U+00DE except the multiplication sign. *)
Definition lowerChar (c : ascii) : ascii :=
  if isUpperAZ c || (between 192 222 c && negb (code c =? 215))
  then ascii_of_nat (code c + 32) else c.

Definition toLowerCase (s : jsstring) : jsstring := map lowerChar s.

Fixpoint trimStart (s : jsstring) : jsstring :=
  match s with
  | c :: s' => if isSpace c then trimStart s' else s
  | [] => []
  end.

Definition trimEnd (s : jsstring) : jsstring := rev (trimStart (rev s)).

Definition trim (s : jsstring) : jsstring := trimEnd (trimStart s).

(** [a === b] on strings. *)
Definition eqs (a b : jsstring) : bool :=
  if list_eq_dec ascii_dec a b then true else false.

Fixpoint startsWith (p s : jsstring) : bool :=
  match p, s with
  | [], _ => true
  | a :: p', b :: s' => Ascii.eqb a b && startsWith p' s'
  | _ :: _, [] => false
  end.

(** [s.includes(p)] *)
Fixpoint includes (p s : jsstring) {struct s} : bool :=
  startsWith p s ||
  match s with
  | [] => false
  | _ :: s' => includes p s'
  end.

(** [arr.includes(x)] on an array of strings. *)
Definition arrayIncludes (x : jsstring) (arr : list jsstring) : bool :=
  existsb (eqs x) arr.

(** [!s] : only the empty string is falsy. *)
Definition isEmpty (s : jsstring) : bool :=
  match s with [] => true | _ => false end.

(** [s.split("\n")] *)
Fixpoint splitOn (sep : ascii) (s : jsstring) : list jsstring :=
  match s with
  | [] => [[]]
  | c :: s' =>
      if Ascii.eqb c sep then [] :: splitOn sep s'
      else match splitOn sep s' with
           | l :: ls => (c :: l) :: ls
           | [] => [[c]]
           end
  end.

(** [arr.join(sep)] *)
Fixpoint join (sep : jsstring) (parts : list jsstring) : jsstring :=
  match parts with
  | [] => []
  | [p] => p
  | p :: rest => p ++ sep ++ join sep rest
  end.

(** [arr.slice(-n)] : the last [n] elements. *)
Definition sliceLast {A : Type} (n : nat) (l : list A) : list A :=
  skipn (length l - n) l.

(** [Array.from(new Set(arr))] : first occurrences, in order. *)
Fixpoint dedup (seen l : list jsstring) : list jsstring :=
  match l with
  | [] => []
  | x :: l' =>
      if arrayIncludes x seen then dedup seen l'
      else x :: dedup (x :: seen) l'
  end.

(** Line feed, and a text given line by line. *)
Definition LF : ascii := "010"%char.

Definition lines (ls : list string) : jsstring := join [LF] (map str ls).

(** The decimal digits of a non-negative integer, as [String(n)]
    prints them. *)
Fixpoint natDigits (fuel n : nat) (acc : jsstring) : jsstring :=
  match fuel with
  | 0 => acc
  | S f =>
      let acc' := ascii_of_nat (48 + n mod 10) :: acc in
      if n / 10 =? 0 then acc' else natDigits f (n / 10) acc'
  end.

Definition natToString (n : nat) : jsstring := natDigits (S n) n [].

End Js.

(* ================================================================= *)
(** ** Regular expressions *)

Module Regex.
Import Js.

(** The regular expressions used by the router: classes, sequencing,
    alternation, greedy and lazy repetition, capture groups and the
    assertions [^], [$] and [\b].  Flags [i] and [m] are folded into the
    classes and the assertions when a pattern is written down. *)
Inductive re : Type :=
| Eps
| Cls (p : ascii -> bool)
| Cat (a b : re)
| Alt (a b : re)
| Star (greedy : bool) (a : re)
| Grp (n : nat) (a : re)
| Bol (multiline : bool)
| Eol (multiline : bool)
| Wb.

(** A matcher state: the current index and the captures recorded so far,
    each as (group, (start, end)). *)
Record mstate : Type := MkSt { pos : nat; caps : list (nat * (nat * nat)) }.

Definition charAt (s : jsstring) (i : nat) : option ascii := nth_error s i.

Definition prevChar (s : jsstring) (i : nat) : option ascii :=
  match i with
  | 0 => None
  | S j => nth_error s j
  end.

Definition atBol (m : bool) (s : jsstring) (i : nat) : bool :=
  match prevChar s i with
  | None => true
  | Some c => m && isLineTerminator c
  end.

Definition atEol (m : bool) (s : jsstring) (i : nat) : bool :=
  match charAt s i with
  | None => true
  | Some c => m && isLineTerminator c
  end.

Definition wordAt (o : option ascii) : bool :=
  match o with
  | Some c => isWordChar c
  | None => false
  end.

Definition atWb (s : jsstring) (i : nat) : bool :=
  xorb (wordAt (prevChar s i)) (wordAt (charAt s i)).

(** The iterations of a repetition from [st0]: [body] runs the repeated
    expression once.  An iteration that consumes nothing is discarded,
    as in ECMAScript; a greedy repetition tries one more iteration
    before stopping, a lazy one stops first. *)
Fixpoint starIter (body : mstate -> list mstate) (greedy : bool)
         (fuel : nat) (st0 : mstate) {struct fuel} : list mstate :=
  match fuel with
  | 0 => [st0]
  | S f =>
      let more :=
        flat_map (fun st' =>
                    if pos st0 <? pos st' then starIter body greedy f st'
                    else [])
                 (body st0) in
      if greedy then more ++ [st0] else st0 :: more
  end.

(** [run s r st] lists the states in which [r] can finish when started
    in [st], in the order in which the backtracking matcher would try
    them; its head is the match the engine reports. *)
Fixpoint run (s : jsstring) (r : re) (st : mstate) : list mstate :=
  match r with
  | Eps => [st]
  | Cls p =>
      match charAt s (pos st) with
      | Some c => if p c then [MkSt (S (pos st)) (caps st)] else []
      | None => []
      end
  | Cat a b => flat_map (run s b) (run s a st)
  | Alt a b => run s a st ++ run s b st
  | Star g a => starIter (run s a) g (S (length s - pos st)) st
  | Grp n a =>
      map (fun st' => MkSt (pos st') ((n, (pos st, pos st')) :: caps st'))
          (run s a st)
  | Bol m => if atBol m s (pos st) then [st] else []
  | Eol m => if atEol m s (pos st) then [st] else []
  | Wb => if atWb s (pos st) then [st] else []
  end.

Definition matchAt (r : re) (s : jsstring) (i : nat) : option mstate :=
  match run s r (MkSt i []) with
  | [] => None
  | st :: _ => Some st
  end.

(** Leftmost match at an index in [i, i + fuel]. *)
Fixpoint searchFrom (r : re) (s : jsstring) (fuel i : nat)
  : option (nat * mstate) :=
  match matchAt r s i with
  | Some st => Some (i, st)
  | None =>
      match fuel with
      | 0 => None
      | S f => searchFrom r s f (S i)
      end
  end.

(** [re.exec(s)] with [lastIndex]: start and final state of the match. *)
Definition exec (r : re) (s : jsstring) (lastIndex : nat)
  : option (nat * mstate) :=
  if length s <? lastIndex then None
  else searchFrom r s (length s - lastIndex) lastIndex.

(** [re.test(s)] for a regex without the [g] flag. *)
Definition test (r : re) (s : jsstring) : bool :=
  match exec r s 0 with
  | Some _ => true
  | None => false
  end.

(** The successive matches of a [g] regex ([s.match(re)], or the
    [while ((m = re.exec(s)) !== null)] loop): after an empty match the
    search resumes one code unit further. *)
Fixpoint matchAllFrom (r : re) (s : jsstring) (fuel i : nat)
  : list (nat * mstate) :=
  match fuel with
  | 0 => []
  | S f =>
      match exec r s i with
      | None => []
      | Some (b, st) =>
          (b, st) :: matchAllFrom r s f (if pos st =? b then S b else pos st)
      end
  end.

Definition matchAll (r : re) (s : jsstring) : list (nat * mstate) :=
  matchAllFrom r s (S (length s)) 0.

(** Text of capture group [n] in a final state. *)
Definition substring (s : jsstring) (b e : nat) : jsstring :=
  firstn (e - b) (skipn b s).

Fixpoint lookupCap (n : nat) (cs : list (nat * (nat * nat)))
  : option (nat * nat) :=
  match cs with
  | [] => None
  | (k, be) :: cs' => if k =? n then Some be else lookupCap n cs'
  end.

Definition group (s : jsstring) (st : mstate) (n : nat) : jsstring :=
  match lookupCap n (caps st) with
  | Some (b, e) => substring s b e
  | None => []
  end.

(** *** Pattern combinators *)

Definition chr (c : ascii) : re := Cls (Ascii.eqb c).

(** A character under the [i] flag. *)
Definition chri (c : ascii) : re :=
  Cls (fun x => Ascii.eqb (lowerChar x) (lowerChar c)).

Fixpoint cat (rs : list re) : re :=
  match rs with
  | [] => Eps
  | [r] => r
  | r :: rs' => Cat r (cat rs')
  end.

Fixpoint alt (rs : list re) : re :=
  match rs with
  | [] => Cls (fun _ => false)
  | [r] => r
  | r :: rs' => Alt r (alt rs')
  end.

Definition lit (s : string) : re := cat (map chr (str s)).
Definition liti (s : string) : re := cat (map chri (str s)).

(** An alternation of literals, [(a|b|c)], case-sensitive or not. *)
Definition lits (ws : list string) : re := alt (map lit ws).
Definition litsi (ws : list string) : re := alt (map liti ws).

Definition star (r : re) : re := Star true r.
Definition plus (r : re) : re := Cat r (Star true r).
Definition lazyStar (r : re) : re := Star false r.
Definition lazyPlus (r : re) : re := Cat r (Star false r).
Definition opt (r : re) : re := Alt r Eps.

Definition digit : re := Cls isDigit.
Definition space : re := Cls isSpace.
Definition word : re := Cls isWordChar.

(** [.] : anything but a line terminator. *)
Definition dot : re := Cls (fun c => negb (isLineTerminator c)).

(** [[\s\S]] *)
Definition anychar : re := Cls (fun _ => true).

(** [[abc]] and [[^abc]] over explicit characters. *)
Definition oneOf (cs : string) : re :=
  Cls (fun c => existsb (Ascii.eqb c) (str cs)).
Definition noneOf (cs : string) : re :=
  Cls (fun c => negb (existsb (Ascii.eqb c) (str cs))).

End Regex.

(* ================================================================= *)
(** ** IEEE binary64 numbers *)

Module Num.

(** A JavaScript Number: binary64, with a single NaN. *)
Definition f64 : Type := spec_float.

Definition prec : Z := 53.
Definition emax : Z := 1024.

Definition fadd : f64 -> f64 -> f64 := SFadd prec emax.
Definition fsub : f64 -> f64 -> f64 := SFsub prec emax.
Definition fmul : f64 -> f64 -> f64 := SFmul prec emax.
Definition fdiv : f64 -> f64 -> f64 := SFdiv prec emax.
Definition fsqrt : f64 -> f64 := SFsqrt prec emax.

Definition NaN : f64 := S754_nan.
Definition zero : f64 := S754_zero false.

(** The Number nearest to the rational [m / d] (ties to even), for
    [m >= 0] and [d > 0]. *)
Definition ofRatio (m : Z) (d : positive) : f64 :=
  match m with
  | Z0 => zero
  | Zpos p => fdiv (S754_finite false p 0) (S754_finite false d 0)
  | Zneg _ => NaN
  end.

Definition ofNat (n : nat) : f64 := ofRatio (Z.of_nat n) 1.

Definition isNaN (x : f64) : bool :=
  match x with S754_nan => true | _ => false end.

(** [Number.isFinite] *)
Definition isFinite (x : f64) : bool :=
  match x with
  | S754_zero _ | S754_finite _ _ _ => true
  | S754_infinity _ | S754_nan => false
  end.

(** [x === 0] : both zeros. *)
Definition isZero (x : f64) : bool :=
  match x with S754_zero _ => true | _ => false end.

(** [x >= y] and [x > y] : false as soon as one side is NaN. *)
Definition fge (x y : f64) : bool := SFleb y x.
Definition fgt (x y : f64) : bool := SFltb y x.

(** Truthiness of a Number: everything but the zeros and NaN. *)
Definition truthy (x : f64) : bool := negb (isZero x || isNaN x).

End Num.

(* ================================================================= *)
(** ** The file-backed memory store *)

Module MemoryStore.
Import Js Num.
Local Open Scope string_scope.
Local Open Scope list_scope.
Local Open Scope nat_scope.

Definition MAX_ENTRIES : nat := 500.
Definition MIN_SCORE : f64 := ofNat 2.

Definition STOP_WORDS : list jsstring := map str
  ["a";"an";"and";"are";"as";"at";"be";"by";"for";"from";"has";"have";"how";
   "i";"if";"in";"is";"it";"of";"on";"or";"that";"the";"this";"to";"was";
   "we";"what";"when";"where";"who";"why";"will";"with";"you";"your"].

(** [String(text || "").toLowerCase()] *)
Definition normalize (text : jsstring) : jsstring := toLowerCase text.

Definition backslash : ascii := "\"%char.

(** The class [[^a-z0-9\\s]] of the source: the regex literal writes a
    doubled backslash, so the characters kept are a-z, 0-9, the
    backslash and (again) the letter s. *)
Definition keptByClean (c : ascii) : bool :=
  isLowerAZ c || isDigit c || Ascii.eqb c backslash || Ascii.eqb c "s"%char.

(** [.replace(/[^a-z0-9\\s]/g, " ")] *)
Definition clean (text : jsstring) : jsstring :=
  map (fun c => if keptByClean c then c else " "%char) (normalize text).

(** [.split(/\\s+/)] : the separator is a backslash followed by one or
    more letters s (greedily).  [skip] is set while the run of s that
    belongs to the current separator is being consumed. *)
Fixpoint splitBackslashS (skip : bool) (s : jsstring) : list jsstring :=
  match s with
  | [] => [[]]
  | c :: s' =>
      if skip && Ascii.eqb c "s"%char then splitBackslashS true s'
      else if Ascii.eqb c backslash &&
              match s' with
              | c' :: _ => Ascii.eqb c' "s"%char
              | [] => false
              end
      then [] :: splitBackslashS true s'
      else match splitBackslashS false s' with
           | l :: ls => (c :: l) :: ls
           | [] => [[c]]
           end
  end.

Definition tokenize (text : jsstring) : list jsstring :=
  filter (fun w => negb (isEmpty w)) (splitBackslashS false (clean text)).

Definition extractKeywords (text : jsstring) : list jsstring :=
  let words := tokenize text in
  let filtered :=
    filter (fun w => (3 <=? length w)%nat && negb (arrayIncludes w STOP_WORDS))
           words in
  firstn 40 (dedup [] filtered).

(** A stored entry.  Optional fields are [None] when absent or null;
    [keywords] is [entry.keywords || []]. *)
Record entry : Type := MkEntry {
  id : jsstring;
  prompt : jsstring;
  response : jsstring;
  keywords : list jsstring;
  embedding : option (list f64);
  userId : option jsstring;
  teamId : option jsstring;
  createdAt : jsstring;
  expiresAt : option jsstring
}.

(** Options of a query; [qembedding] is [options.embedding]. *)
Record options : Type := MkOptions {
  quserId : option jsstring;
  qteamMode : bool;
  qteamId : option jsstring;
  qembedding : option (list f64);
  qembeddingWeight : option f64
}.

Section Clock.

(** [Date.parse]: [None] stands for NaN; times are milliseconds. *)
Variable dateParse : jsstring -> option Z.

(** [isExpired(entry)] when [Date.now()] reads [now]. *)
Definition isExpired (now : Z) (e : entry) : bool :=
  match expiresAt e with
  | None => false
  | Some txt =>
      if isEmpty txt then false
      else match dateParse txt with
           | None => false
           | Some t => (t <? now)%Z
           end
  end.

(** [entries.filter(keep)] where the callback reads the clock: the
    entry at index [k] is judged at time [nowAt k]. *)
Fixpoint filterAt (nowAt : nat -> Z) (keep : Z -> entry -> bool)
         (k : nat) (entries : list entry) : list entry :=
  match entries with
  | [] => []
  | e :: rest =>
      if keep (nowAt k) e then e :: filterAt nowAt keep (S k) rest
      else filterAt nowAt keep (S k) rest
  end.

Definition pruneExpiredEntries (nowAt : nat -> Z) (entries : list entry)
  : list entry :=
  filterAt nowAt (fun now e => negb (isExpired now e)) 0 entries.

(** [cosineSimilarity(a, b)] *)
Fixpoint cosineLoop (a b : list f64) (dot normA normB : f64)
  : f64 * f64 * f64 :=
  match a, b with
  | x :: a', y :: b' =>
      cosineLoop a' b' (fadd dot (fmul x y)) (fadd normA (fmul x x))
                 (fadd normB (fmul y y))
  | _, _ => (dot, normA, normB)
  end.

Definition cosineSimilarity (a b : list f64) : f64 :=
  if negb (length a =? length b)%nat then zero
  else
    let '(dot, normA, normB) := cosineLoop a b zero zero zero in
    if isZero normA || isZero normB then zero
    else fdiv dot (fmul (fsqrt normA) (fsqrt normB)).

(** [scoreEntry(entry, queryTokens, options)] *)
Definition scoreEntry (e : entry) (queryTokens : list jsstring)
           (o : options) : f64 :=
  let keywordSet := keywords e in
  let score :=
    fold_left (fun sc token =>
                 if arrayIncludes token keywordSet then fadd sc (ofNat 1)
                 else sc)
              queryTokens zero in
  match qembedding o, embedding e with
  | Some qe, Some ee =>
      let sim := cosineSimilarity qe ee in
      let weight :=
        match qembeddingWeight o with
        | Some w => if truthy w then w else ofNat 2
        | None => ofNat 2
        end in
      fadd score (fmul sim weight)
  | _, _ => score
  end.

(** A present, non-empty string is truthy. *)
Definition truthyStr (o : option jsstring) : bool :=
  match o with
  | Some s => negb (isEmpty s)
  | None => false
  end.

Definition sameStr (a b : option jsstring) : bool :=
  match a, b with
  | Some x, Some y => eqs x y
  | _, _ => false
  end.

Definition filterEntriesForUser (entries : list entry)
           (uid : option jsstring) (teamMode : bool)
           (tid : option jsstring) : list entry :=
  if teamMode then
    if truthyStr tid then filter (fun e => sameStr (teamId e) tid) entries
    else entries
  else if negb (truthyStr uid) then entries
  else filter (fun e => sameStr (userId e) uid) entries.

(** [.sort((a, b) => b.score - a.score)] : a stable insertion sort; a
    later element passes an earlier one only when the comparator puts it
    strictly first, that is when its score is strictly larger. *)
Definition scored : Type := (entry * f64)%type.

Definition before (a b : scored) : bool :=
  match SFcompare (fsub (snd b) (snd a)) zero with
  | Some Lt => true
  | _ => false
  end.

Fixpoint insertSorted (x : scored) (l : list scored) : list scored :=
  match l with
  | [] => [x]
  | y :: l' => if before y x then y :: insertSorted x l' else x :: l
  end.

Definition sortByScore (l : list scored) : list scored :=
  fold_right insertSorted [] l.

(** [queryMemoryEntries(entries, query, limit, options)] *)
Definition queryMemoryEntries (nowAt : nat -> Z) (entries : list entry)
           (query : jsstring) (limit : nat) (o : options) : list entry :=
  let tokens := extractKeywords query in
  if (length tokens =? 0)%nat then []
  else
    let scoped :=
      filterAt nowAt (fun now e => negb (isExpired now e)) 0
               (filterEntriesForUser entries (quserId o) (qteamMode o)
                                     (qteamId o)) in
    let scoredL :=
      firstn limit
        (sortByScore
           (filter (fun it => fge (snd it) MIN_SCORE)
                   (map (fun e => (e, scoreEntry e tokens o)) scoped))) in
    map fst scoredL.

End Clock.

(** [saveMemory(entries)] : what is written to [memory.json]. *)
Definition saveMemory (entries : list entry) : list entry :=
  sliceLast MAX_ENTRIES entries.

End MemoryStore.

(* ================================================================= *)
(** ** The response caches *)

Module ResponseCache.
Import Js Num.

(** A JavaScript [Map] with string keys: bindings in insertion order. *)
Definition jsmap (V : Type) : Type := list (jsstring * V).

Section JsMap.
Context {V : Type}.

Definition mapSize (m : jsmap V) : nat := length m.

Definition mapKeys (m : jsmap V) : list jsstring := map fst m.

Definition mapHas (k : jsstring) (m : jsmap V) : bool :=
  existsb (fun kv => eqs (fst kv) k) m.

(** [m.set(k, v)] : an existing key keeps its place. *)
Fixpoint mapSet (k : jsstring) (v : V) (m : jsmap V) : jsmap V :=
  match m with
  | [] => [(k, v)]
  | (k', v') :: m' =>
      if eqs k' k then (k', v) :: m' else (k', v') :: mapSet k v m'
  end.

(** [m.delete(k)] *)
Definition mapDelete (k : jsstring) (m : jsmap V) : jsmap V :=
  filter (fun kv => negb (eqs (fst kv) k)) m.

(** [m.keys().next().value] : the oldest key, if any. *)
Definition firstKey (m : jsmap V) : option jsstring :=
  match m with
  | [] => None
  | (k, _) :: _ => Some k
  end.

(** The eviction step shared by both caches: when the bound is reached
    the first key of the iteration order is deleted. *)
Definition evictIfFull (bound : nat) (m : jsmap V) : jsmap V :=
  if bound <=? mapSize m then
    match firstKey m with
    | Some k => mapDelete k m
    | None => m
    end
  else m.

End JsMap.

(** *** The persisted cache ([setCachedResponse]) *)

Definition MAX_CACHE_SIZE : nat := 500.

Record cacheEntry : Type := MkCacheEntry {
  response : jsstring;
  timestamp : Z;
  embedding : option (list f64);
  intent : jsstring
}.

(** An item of [response_cache.json], as [scheduleSave] writes them; a
    field that is missing reads as the empty string or as 0, which the
    loader takes for absent all the same. *)
Record fileItem : Type := MkFileItem {
  itemKey : jsstring;
  itemResponse : jsstring;
  itemTimestamp : Z;
  itemEmbedding : option (list f64);
  itemIntent : jsstring
}.

(** The variables of the module: the [Map], the flag [cacheLoaded], and
    whether a call of [ensureCacheLoaded] is suspended at an [await],
    its loop over the file's items still to run. *)
Record cacheState : Type := MkState {
  cache : jsmap cacheEntry;
  cacheLoaded : bool;
  loadPending : bool
}.

Definition initialState : cacheState := MkState [] false false.

(** [ensureCacheLoaded] as far as it runs inside a caller that does not
    await it: the flag is set and the function suspends. *)
Definition ensureCacheLoaded (s : cacheState) : cacheState :=
  if cacheLoaded s then s else MkState (cache s) true true.

(** One turn of the loop of [ensureCacheLoaded]: an item with its key,
    response and timestamp is set, with no test of the size. *)
Definition loadItem (c : jsmap cacheEntry) (item : fileItem)
  : jsmap cacheEntry :=
  if isEmpty (itemKey item) || isEmpty (itemResponse item) ||
     (itemTimestamp item =? 0)%Z
  then c
  else mapSet (itemKey item)
              (MkCacheEntry (itemResponse item) (itemTimestamp item)
                            (itemEmbedding item) (itemIntent item))
              c.

(** [ensureCacheLoaded] resumed with the items read from the file (none
    when the file is missing or invalid). *)
Definition resumeLoad (items : list fileItem) (s : cacheState) : cacheState :=
  if loadPending s
  then MkState (fold_left loadItem items (cache s)) (cacheLoaded s) false
  else s.

Definition setCachedResponse (cacheKey response : jsstring)
           (optEmbedding : option (list f64)) (optIntent : jsstring)
           (now : Z) (s : cacheState) : cacheState :=
  let s1 := if negb (cacheLoaded s) then ensureCacheLoaded s else s in
  MkState (mapSet cacheKey
                  (MkCacheEntry response now optEmbedding optIntent)
                  (evictIfFull MAX_CACHE_SIZE (cache s1)))
          (cacheLoaded s1) (loadPending s1).

(** *** The in-process cache of the server ([storeInCache]) *)

Definition MAX_CACHE_ENTRIES : nat := 500.
Definition DEFAULT_CACHE_TTL_MS : Z := 120 * 1000.

Record memoEntry : Type := MkMemoEntry {
  value : jsstring;
  mtimestamp : Z;
  ttl : Z
}.

Definition storeInCache (key value : jsstring) (ttlMs : option Z)
           (now : Z) (responseCache : jsmap memoEntry) : jsmap memoEntry :=
  let ttl := match ttlMs with Some t => t | None => DEFAULT_CACHE_TTL_MS end in
  mapSet key (MkMemoEntry value now ttl)
         (evictIfFull MAX_CACHE_ENTRIES responseCache).

(** [getCachedResponse] of the server: a key that is missing or whose
    entry has outlived its time is deleted and gives null. *)
Definition lookupEntry (key : jsstring) (m : jsmap memoEntry)
  : option memoEntry :=
  match filter (fun kv => eqs (fst kv) key) m with
  | (_, entry) :: _ => Some entry
  | [] => None
  end.

Definition getCachedResponse (key : jsstring) (now : Z)
           (responseCache : jsmap memoEntry)
  : option memoEntry * jsmap memoEntry :=
  match lookupEntry key responseCache with
  | Some entry =>
      if (ttl entry <? now - mtimestamp entry)%Z
      then (None, mapDelete key responseCache)
      else (Some entry, responseCache)
  | None => (None, mapDelete key responseCache)
  end.

(** What happens to the persisted cache, in the order it happens: a
    call of [setCachedResponse], or the suspended load resuming. *)
Inductive event : Type :=
| ESet (cacheKey response : jsstring) (emb : option (list f64))
       (intent : jsstring) (now : Z)
| ELoaded (items : list fileItem).

Definition step (s : cacheState) (ev : event) : cacheState :=
  match ev with
  | ESet k r e i now => setCachedResponse k r e i now s
  | ELoaded items => resumeLoad items s
  end.

(** The calls that touch the server's in-process cache. *)
Inductive memoCall : Type :=
| WStore (key value : jsstring) (ttlMs : option Z) (now : Z)
| WGet (key : jsstring) (now : Z).

Definition applyMemoCall (c : jsmap memoEntry) (w : memoCall)
  : jsmap memoEntry :=
  match w with
  | WStore k v t now => storeInCache k v t now c
  | WGet k now => snd (getCachedResponse k now c)
  end.

End ResponseCache.

(* ================================================================= *)
(** ** The arithmetic fast path *)

Module Arith.
Import Js Num.
Local Open Scope string_scope.
Local Open Scope list_scope.
Local Open Scope nat_scope.

(** *** [Number(token)]

    The evaluator applies [Number] to the tokens its tokenizer produces:
    runs of digits and dots, and the single characters [+ - * / ( )].
    On those, [Number] reads an unsigned decimal literal (digits with an
    optional fraction, or a fraction alone) and rounds it to the nearest
    double; everything else is NaN.  The other forms [Number] accepts
    (blank strings, signs, exponents, hexadecimal, [Infinity]) cannot be
    tokens and are not modelled. *)

Fixpoint spanDigits (s : jsstring) : jsstring * jsstring :=
  match s with
  | c :: s' =>
      if isDigit c then let '(ds, rest) := spanDigits s' in (c :: ds, rest)
      else ([], s)
  | [] => ([], [])
  end.

(** Integer digits and fraction digits of a decimal literal. *)
Definition decimalParts (s : jsstring) : option (jsstring * jsstring) :=
  let '(ip, rest) := spanDigits s in
  match rest with
  | [] => if isEmpty ip then None else Some (ip, [])
  | c :: fp =>
      if Ascii.eqb c "."%char && forallb isDigit fp &&
         negb (isEmpty ip && isEmpty fp)
      then Some (ip, fp) else None
  end.

Definition digitsValue (ds : jsstring) : Z :=
  fold_left (fun acc c => acc * 10 + Z.of_nat (code c - 48))%Z ds 0%Z.

Fixpoint pow10 (k : nat) : positive :=
  match k with
  | 0 => 1%positive
  | S k' => (10 * pow10 k')%positive
  end.

Definition Number (token : jsstring) : f64 :=
  match decimalParts token with
  | Some (ip, fp) => ofRatio (digitsValue (ip ++ fp)) (pow10 (length fp))
  | None => NaN
  end.

(** *** [tokenizeExpression] *)

(** [.replace(/\s+/g, "")] *)
Definition removeSpaces (s : jsstring) : jsstring :=
  filter (fun c => negb (isSpace c)) s.

(** [/[0-9.]/.test(ch)] *)
Definition isNumChar (c : ascii) : bool := isDigit c || Ascii.eqb c "."%char.

(** ["+-*/()".includes(ch)] for a single character. *)
Definition isSymbolChar (c : ascii) : bool := includes [c] (str "+-*/()").

(** A pending number is pushed when the run of digits and dots ends. *)
Definition flush (num : jsstring) (tokens : list jsstring) : list jsstring :=
  if isEmpty num then tokens else num :: tokens.

(** The scanning loop; [num] is the number being accumulated by the
    inner [while].  [None] is the [return null] on a foreign character. *)
Fixpoint tokenizeFrom (cleaned : jsstring) (num : jsstring)
  : option (list jsstring) :=
  match cleaned with
  | [] => Some (flush num [])
  | ch :: rest =>
      if isNumChar ch then tokenizeFrom rest (num ++ [ch])
      else if isSymbolChar ch then
        option_map (fun ts => flush num ([ch] :: ts)) (tokenizeFrom rest [])
      else None
  end.

Definition tokenizeExpression (expr : jsstring) : option (list jsstring) :=
  tokenizeFrom (removeSpaces expr) [].

(** *** [toRpn] : the shunting yard *)

(** The table [prec]; a missing key reads [undefined]. *)
Definition prec (token : jsstring) : option nat :=
  if eqs token (str "+") then Some 1
  else if eqs token (str "-") then Some 1
  else if eqs token (str "*") then Some 2
  else if eqs token (str "/") then Some 2
  else None.

(** ["+-*/".includes(token)] *)
Definition isOperator (token : jsstring) : bool := includes token (str "+-*/").

(** [prec[top] >= prec[token]] : false when either side is undefined. *)
Definition precGe (top token : jsstring) : bool :=
  match prec top, prec token with
  | Some a, Some b => b <=? a
  | _, _ => false
  end.

(** The stacks are lists whose head is the top; [output] grows at its
    end. *)
Fixpoint popOperators (token : jsstring) (stack output : list jsstring)
  : list jsstring * list jsstring :=
  match stack with
  | top :: below =>
      if isOperator top && precGe top token
      then popOperators token below (output ++ [top])
      else (stack, output)
  | [] => ([], output)
  end.

Fixpoint popToParen (stack output : list jsstring)
  : list jsstring * list jsstring :=
  match stack with
  | top :: below =>
      if eqs top (str "(") then (stack, output)
      else popToParen below (output ++ [top])
  | [] => ([], output)
  end.

(** The final [while (stack.length > 0)] loop. *)
Fixpoint drain (stack output : list jsstring) : option (list jsstring) :=
  match stack with
  | [] => Some output
  | op :: below =>
      if eqs op (str "(") || eqs op (str ")") then None
      else drain below (output ++ [op])
  end.

Fixpoint toRpnLoop (tokens output stack : list jsstring)
  : option (list jsstring) :=
  match tokens with
  | [] => drain stack output
  | token :: rest =>
      if negb (isNaN (Number token)) then
        toRpnLoop rest (output ++ [token]) stack
      else if eqs token (str "(") then
        toRpnLoop rest output (token :: stack)
      else if eqs token (str ")") then
        match popToParen stack output with
        | ([], _) => None
        | (_ :: below, output') => toRpnLoop rest output' below
        end
      else if isOperator token then
        let '(stack', output') := popOperators token stack output in
        toRpnLoop rest output' (token :: stack')
      else None
  end.

Definition toRpn (tokens : list jsstring) : option (list jsstring) :=
  toRpnLoop tokens [] [].

(** *** [evalRpn] *)

(** The arithmetic of one operator token; [None] is the final
    [else return null]. *)
Definition applyOperator (token : jsstring) (a b : f64) : option f64 :=
  if eqs token (str "+") then Some (fadd a b)
  else if eqs token (str "-") then Some (fsub a b)
  else if eqs token (str "*") then Some (fmul a b)
  else if eqs token (str "/") then Some (if isZero b then NaN else fdiv a b)
  else None.

(** Popping an empty stack yields [undefined], which is not finite. *)
Fixpoint evalRpnLoop (rpn : list jsstring) (stack : list f64) : option f64 :=
  match rpn with
  | [] =>
      match stack with
      | [v] => Some v
      | _ => None
      end
  | token :: rest =>
      if negb (isNaN (Number token)) then
        evalRpnLoop rest (Number token :: stack)
      else
        match stack with
        | b :: a :: below =>
            if negb (isFinite a) || negb (isFinite b) then None
            else match applyOperator token a b with
                 | Some v => evalRpnLoop rest (v :: below)
                 | None => None
                 end
        | _ => None
        end
  end.

Definition evalRpn (rpn : list jsstring) : option f64 := evalRpnLoop rpn [].

(** *** [safeEvaluateExpression] *)

(** The class of [/^[\d\s+\-*/().]+$/]. *)
Definition isExpressionChar (c : ascii) : bool :=
  isDigit c || isSpace c || includes [c] (str "+-*/().").

Definition looksLikeExpression (raw : jsstring) : bool :=
  negb (isEmpty raw) && forallb isExpressionChar raw.

(** [if (normalized.startsWith("-")) normalized = `0${normalized}`] *)
Definition prefixZero (normalized : jsstring) : jsstring :=
  if startsWith (str "-") normalized then "0"%char :: normalized
  else normalized.

(** [.replace(/\(-/g, "(0-")] *)
Fixpoint zeroAfterParen (s : jsstring) : jsstring :=
  match s with
  | "("%char :: "-"%char :: s' =>
      "("%char :: "0"%char :: "-"%char :: zeroAfterParen s'
  | c :: s' => c :: zeroAfterParen s'
  | [] => []
  end.

Definition safeEvaluateExpression (expr : jsstring) : option f64 :=
  let raw := trim expr in
  if isEmpty raw then None
  else if negb (looksLikeExpression raw) then None
  else
    let normalized := zeroAfterParen (prefixZero (removeSpaces raw)) in
    match tokenizeExpression normalized with
    | None => None
    | Some tokens =>
        match toRpn tokens with
        | None => None
        | Some rpn =>
            match evalRpn rpn with
            | None => None
            | Some result => if isFinite result then Some result else None
            end
        end
    end.

Section Solver.

(** The string a template literal prints for a finite Number. *)
Variable numberToString : f64 -> jsstring.

Definition envelope (line : jsstring) : jsstring :=
  str "Thinking" ++ ["010"%char] ++ str "- (omitted by request)" ++
  ["010"%char; "010"%char] ++ str "Result" ++ ["010"%char] ++ str "- " ++ line.

Definition simpleArithmeticSolver (prompt : jsstring) : option jsstring :=
  let cleaned := trim prompt in
  if isEmpty cleaned then None
  else if negb (looksLikeExpression cleaned) then None
  else
    match safeEvaluateExpression cleaned with
    | None => None
    | Some result =>
        Some (envelope (removeSpaces cleaned ++ str " = " ++
                        numberToString result))
    end.

End Solver.

(** *** The expressions the evaluator is specified on

    The grammar, with its precedence levels and left-recursive shape:
<<
    expr   ::= term | - term | expr + term | expr - term
    term   ::= factor | term * factor | term / factor
    factor ::= literal | ( expr )
>>
    A minus sign is unary exactly at the head of an [expr], that is at
    the beginning of the text or right after an opening parenthesis. *)
Inductive factor : Type :=
| FNum (lit : jsstring)
| FParen (e : expr)
with term : Type :=
| TFactor (f : factor)
| TMul (t : term) (f : factor)
| TDiv (t : term) (f : factor)
with expr : Type :=
| ETerm (t : term)
| ENeg (t : term)
| EAdd (e : expr) (t : term)
| ESub (e : expr) (t : term).

(** Literals are unsigned decimal literals. *)
Definition validLiteral (lit : jsstring) : bool :=
  match decimalParts lit with Some _ => true | None => false end.

Fixpoint wfF (f : factor) : bool :=
  match f with
  | FNum lit => validLiteral lit
  | FParen e => wfE e
  end
with wfT (t : term) : bool :=
  match t with
  | TFactor f => wfF f
  | TMul t' f | TDiv t' f => wfT t' && wfF f
  end
with wfE (e : expr) : bool :=
  match e with
  | ETerm t | ENeg t => wfT t
  | EAdd e' t | ESub e' t => wfE e' && wfT t
  end.

(** The text of an expression, without blanks. *)
Fixpoint renderF (f : factor) : jsstring :=
  match f with
  | FNum lit => lit
  | FParen e => str "(" ++ renderE e ++ str ")"
  end
with renderT (t : term) : jsstring :=
  match t with
  | TFactor f => renderF f
  | TMul t' f => renderT t' ++ str "*" ++ renderF f
  | TDiv t' f => renderT t' ++ str "/" ++ renderF f
  end
with renderE (e : expr) : jsstring :=
  match e with
  | ETerm t => renderT t
  | ENeg t => str "-" ++ renderT t
  | EAdd e' t => renderE e' ++ str "+" ++ renderT t
  | ESub e' t => renderE e' ++ str "-" ++ renderT t
  end.

(** The IEEE value of an expression: every operation is the binary64
    operation on the values of its two operands, whatever they are; a
    unary minus subtracts its term from zero, as the evaluator's
    rewriting of the text does. *)
Fixpoint ieeeF (f : factor) : f64 :=
  match f with
  | FNum lit => Number lit
  | FParen e => ieeeE e
  end
with ieeeT (t : term) : f64 :=
  match t with
  | TFactor f => ieeeF f
  | TMul t' f => fmul (ieeeT t') (ieeeF f)
  | TDiv t' f => fdiv (ieeeT t') (ieeeF f)
  end
with ieeeE (e : expr) : f64 :=
  match e with
  | ETerm t => ieeeT t
  | ENeg t => fsub zero (ieeeT t)
  | EAdd e' t => fadd (ieeeE e') (ieeeT t)
  | ESub e' t => fsub (ieeeE e') (ieeeT t)
  end.

(** Every operation of the expression has two finite operands, and
    every division a divisor other than zero. *)
Fixpoint tameF (f : factor) : bool :=
  match f with
  | FNum _ => true
  | FParen e => tameE e
  end
with tameT (t : term) : bool :=
  match t with
  | TFactor f => tameF f
  | TMul t' f =>
      tameT t' && tameF f && isFinite (ieeeT t') && isFinite (ieeeF f)
  | TDiv t' f =>
      tameT t' && tameF f && isFinite (ieeeT t') && isFinite (ieeeF f) &&
      negb (isZero (ieeeF f))
  end
with tameE (e : expr) : bool :=
  match e with
  | ETerm t => tameT t
  | ENeg t => tameT t && isFinite (ieeeT t)
  | EAdd e' t | ESub e' t =>
      tameE e' && tameT t && isFinite (ieeeE e') && isFinite (ieeeT t)
  end.

(** Some division of the expression has a divisor whose IEEE value is
    zero. *)
Fixpoint dividesByZeroF (f : factor) : bool :=
  match f with
  | FNum _ => false
  | FParen e => dividesByZeroE e
  end
with dividesByZeroT (t : term) : bool :=
  match t with
  | TFactor f => dividesByZeroF f
  | TMul t' f => dividesByZeroT t' || dividesByZeroF f
  | TDiv t' f => dividesByZeroT t' || dividesByZeroF f || isZero (ieeeF f)
  end
with dividesByZeroE (e : expr) : bool :=
  match e with
  | ETerm t | ENeg t => dividesByZeroT t
  | EAdd e' t | ESub e' t => dividesByZeroE e' || dividesByZeroT t
  end.

(** The run of the postfix machine on an expression, as the proofs of
    Part II follow it: [evalRpn] gives up ([None]) at an operation whose
    operand is not finite, and pushes NaN for a zero divisor. *)
Definition machineOp (op : f64 -> f64 -> f64) (x y : option f64) : option f64 :=
  match x, y with
  | Some a, Some b =>
      if isFinite a && isFinite b then Some (op a b) else None
  | _, _ => None
  end.

Definition divide (a b : f64) : f64 := if isZero b then NaN else fdiv a b.

Fixpoint runF (f : factor) : option f64 :=
  match f with
  | FNum lit => Some (Number lit)
  | FParen e => runE e
  end
with runT (t : term) : option f64 :=
  match t with
  | TFactor f => runF f
  | TMul t' f => machineOp fmul (runT t') (runF f)
  | TDiv t' f => machineOp divide (runT t') (runF f)
  end
with runE (e : expr) : option f64 :=
  match e with
  | ETerm t => runT t
  | ENeg t => machineOp fsub (Some zero) (runT t)
  | EAdd e' t => machineOp fadd (runE e') (runT t)
  | ESub e' t => machineOp fsub (runE e') (runT t)
  end.

(** What the machine's run leaves as the answer. *)
Definition machineAnswer (e : expr) : option f64 :=
  match runE e with
  | Some v => if isFinite v then Some v else None
  | None => None
  end.

(** The normalized text, the token stream and the postfix form the
    proofs go through: the unary minus reads [0 -]. *)
Fixpoint normalF (f : factor) : jsstring :=
  match f with
  | FNum lit => lit
  | FParen e => str "(" ++ normalE e ++ str ")"
  end
with normalT (t : term) : jsstring :=
  match t with
  | TFactor f => normalF f
  | TMul t' f => normalT t' ++ str "*" ++ normalF f
  | TDiv t' f => normalT t' ++ str "/" ++ normalF f
  end
with normalE (e : expr) : jsstring :=
  match e with
  | ETerm t => normalT t
  | ENeg t => str "0-" ++ normalT t
  | EAdd e' t => normalE e' ++ str "+" ++ normalT t
  | ESub e' t => normalE e' ++ str "-" ++ normalT t
  end.

Fixpoint tokensF (f : factor) : list jsstring :=
  match f with
  | FNum lit => [lit]
  | FParen e => [str "("] ++ tokensE e ++ [str ")"]
  end
with tokensT (t : term) : list jsstring :=
  match t with
  | TFactor f => tokensF f
  | TMul t' f => tokensT t' ++ [str "*"] ++ tokensF f
  | TDiv t' f => tokensT t' ++ [str "/"] ++ tokensF f
  end
with tokensE (e : expr) : list jsstring :=
  match e with
  | ETerm t => tokensT t
  | ENeg t => [str "0"; str "-"] ++ tokensT t
  | EAdd e' t => tokensE e' ++ [str "+"] ++ tokensT t
  | ESub e' t => tokensE e' ++ [str "-"] ++ tokensT t
  end.

Fixpoint postfixF (f : factor) : list jsstring :=
  match f with
  | FNum lit => [lit]
  | FParen e => postfixE e
  end
with postfixT (t : term) : list jsstring :=
  match t with
  | TFactor f => postfixF f
  | TMul t' f => postfixT t' ++ postfixF f ++ [str "*"]
  | TDiv t' f => postfixT t' ++ postfixF f ++ [str "/"]
  end
with postfixE (e : expr) : list jsstring :=
  match e with
  | ETerm t => postfixT t
  | ENeg t => [str "0"] ++ postfixT t ++ [str "-"]
  | EAdd e' t => postfixE e' ++ postfixT t ++ [str "+"]
  | ESub e' t => postfixE e' ++ postfixT t ++ [str "-"]
  end.

End Arith.

(* ================================================================= *)
(** ** Ranking post-validation *)

Module Ranking.
Import Js Regex.
Local Open Scope string_scope.
Local Open Scope list_scope.
Local Open Scope nat_scope.

(** [/^\s*1\.\s+/m] and [/^\s*2\.\s+/m] *)
Definition reItem (n : ascii) : re :=
  cat [Bol true; star space; chr n; chr "."; plus space].

(** [/\[\d+\]/] *)
Definition reCitation : re := cat [chr "["; plus digit; chr "]"].

(** [/^\s*\d+\.\s+/gm] *)
Definition reAnyItem : re :=
  cat [Bol true; star space; plus digit; chr "."; plus space].

(** [/\btop\s*10\b/i] *)
Definition reTop10 : re := cat [Wb; liti "top"; star space; lit "10"; Wb].

(** [/\b(20\d{2})\b/] *)
Definition reYear : re :=
  cat [Wb; Grp 1 (cat [lit "20"; digit; digit]); Wb].

Definition validateRankingResponse (text : jsstring) : bool :=
  let hasList := test (reItem "1") text && test (reItem "2") text in
  let hasCitations := test reCitation text in
  hasList && hasCitations.

Definition countRankingItems (text : jsstring) : nat :=
  length (matchAll reAnyItem text).

(** [extractYear]: the four digits found; [Number] of them prints back
    as the same digits. *)
Definition extractYear (prompt : jsstring) : option jsstring :=
  match exec reYear prompt 0 with
  | Some (_, st) => Some (group prompt st 1)
  | None => None
  end.

Definition NO_SOURCES_REFUSAL : jsstring :=
  lines ["Thinking"; "- (omitted by request)"; ""; "Result";
         "- I couldn't find reliable web sources for a ranked list. Please try again or provide a source."].

Definition NO_LIST_REFUSAL : jsstring :=
  lines ["Thinking"; "- (omitted by request)"; ""; "Result";
         "- I couldn't build a reliable ranked list from the available sources."].

(** The notice that precedes a list shorter than the ten asked for. *)
Definition shortListNotice (count : nat) : jsstring :=
  lines ["Thinking"; "- (omitted by request)"; ""; "Result";
         "- I could only find reliable information for "] ++
  natToString count ++
  str " items based on the available sources." ++ [LF; LF].

Definition strictPrompt (futureNote : jsstring) (webSources : list jsstring)
           (webContext incomingPrompt : jsstring) : jsstring :=
  lines ["You must produce a numbered top-N list with citations [1], [2], etc.";
         "Use ONLY the sources provided. Do not invent sources, URLs, dates, or model names.";
         "If sources are insufficient, say so clearly."] ++ [LF] ++
  futureNote ++ [LF; LF] ++
  str "Sources:" ++ [LF] ++ join [LF] webSources ++ [LF; LF] ++
  str "Web context:" ++ [LF] ++ webContext ++ [LF; LF] ++
  str "User request:" ++ [LF] ++ incomingPrompt.

(** A blocking generate call: the model and the prompt sent. *)
Record generateCall : Type := MkCall { callModel : jsstring;
                                       callPrompt : jsstring }.

(** How the ranking block ends: with the final [responseText] and the
    generate calls it made, or with an exception, which the handler's
    [catch] sends to the client as an [error] frame in place of any
    final response. *)
Inductive outcome : Type :=
| Completes (responseText : jsstring) (calls : list generateCall)
| Throws (message : jsstring).

(** The binding of [webContext] visible where the ranking block reads
    the name.  The handler declares it once, by [let] inside the block
    of [if (autoRequested)], and that block is closed long before the
    ranking block: no binding is in scope there, and the module has no
    variable of that name either. *)
Definition webContextInScope : option jsstring := None.

(** The message of the [ReferenceError] for a name without binding. *)
Definition notDefined (name : string) : jsstring :=
  str name ++ str " is not defined".

Section Block.

(** The backend: what [callOllamaGenerate] resolves to, [None] when it
    rejects. *)
Variable callOllamaGenerate : generateCall -> option jsstring.

(** The statements of the block that follow the building of
    [strictPrompt]. *)
Definition afterStrictPrompt (request : generateCall)
           (incomingPrompt responseText : jsstring)
  : jsstring * list generateCall :=
  let '(regenerated, calls) :=
    if negb (validateRankingResponse responseText) then
      (match callOllamaGenerate request with
       | Some text => text
       | None => responseText
       end, [request])
    else (responseText, []) in
  let checked :=
    if negb (validateRankingResponse regenerated) then NO_LIST_REFUSAL
    else regenerated in
  let count := countRankingItems checked in
  let final :=
    if (0 <? count) && (count <? 10) && test reTop10 incomingPrompt
    then shortListNotice count ++ checked
    else checked in
  (final, calls).

(** The ranking block of the streaming handler.  With sources, the
    template literal of [strictPrompt] is evaluated first, whatever the
    answer at hand: reading [webContext] there throws. *)
Definition rankingBlock (isRankingIntent : bool) (webSources : list jsstring)
           (incomingPrompt modelName : jsstring)
           (isFutureRanking : bool) (responseText : jsstring) : outcome :=
  if negb isRankingIntent then Completes responseText []
  else if length webSources =? 0 then Completes NO_SOURCES_REFUSAL []
  else
    let year :=
      match extractYear incomingPrompt with
      | Some digits => digits
      | None => str "null"
      end in
    let futureNote :=
      if isFutureRanking
      then str "We cannot know exact rankings for " ++ year ++
           str " yet. Use current data and label it as current."
      else [] in
    match webContextInScope with
    | None => Throws (notDefined "webContext")
    | Some webContext =>
        let request :=
          MkCall modelName
                 (strictPrompt futureNote webSources webContext
                               incomingPrompt) in
        let '(final, calls) :=
          afterStrictPrompt request incomingPrompt responseText in
        Completes final calls
    end.

End Block.

End Ranking.

(* ================================================================= *)
(** ** The generation supervisor: fallback and retry *)

Module Supervisor.
Import Js Regex.
Local Open Scope string_scope.
Local Open Scope list_scope.
Local Open Scope nat_scope.

(** [/requires more system memory|not enough memory|out of memory/i] *)
Definition memoryErrorRegex : re :=
  litsi ["requires more system memory"; "not enough memory"; "out of memory"].

Definition reasoningIntents : list jsstring :=
  map str ["MATH_REASONING"; "PROOF_SOLVING"; "SYSTEM_DESIGN"; "MULTI_STEP";
           "FORMULA_GENERATION"].

(** *** [calculateMathComplexity] *)

(** [prompt.split(/\s+/).filter(w => w.trim()).length] : the number of
    maximal runs of non-blank characters. *)
Fixpoint countRuns (inRun : ascii -> bool) (inside : bool) (s : jsstring)
  : nat :=
  match s with
  | [] => 0
  | c :: s' =>
      if inRun c then (if inside then 0 else 1) + countRuns inRun true s'
      else countRuns inRun false s'
  end.

(** [null] for another intent, else TRIVIAL, SIMPLE or COMPLEX. *)
Definition calculateMathComplexity (prompt intent : jsstring)
  : option jsstring :=
  if negb (eqs intent (str "MATH_REASONING")) then None
  else
    let wordCount := countRuns (fun c => negb (isSpace c)) false prompt in
    let sentenceCount :=
      length (filter (fun c => existsb (Ascii.eqb c) (str ".!?")) prompt) in
    let numberCount := countRuns isDigit false prompt in
    if (wordCount <=? 10) && (sentenceCount =? 0) && (numberCount <=? 5)
    then Some (str "TRIVIAL")
    else if (wordCount <=? 35) && (sentenceCount <=? 2) && (numberCount <=? 4)
    then Some (str "SIMPLE")
    else Some (str "COMPLEX").

(** *** [fallbackModel] *)

Definition fallbackModel (incomingPrompt intent : jsstring) : jsstring :=
  if eqs intent (str "MATH_REASONING") then
    match calculateMathComplexity incomingPrompt intent with
    | Some mathComplexity =>
        if eqs mathComplexity (str "TRIVIAL") ||
           eqs mathComplexity (str "SIMPLE")
        then str "gemma:2b" else str "qwen3"
    | None => str "qwen3"
    end
  else if eqs intent (str "CODE_TASK") || eqs intent (str "CODE_REVIEW")
  then str "deepseek-coder-v2"
  else if arrayIncludes intent reasoningIntents then str "qwen3"
  else str "llama3.2".

(** *** One streamed attempt *)

(** What the backend and the client do during one attempt: the tokens
    with their arrival times, the time at which the stream would end,
    the error message if it ends in an error, and the time at which the
    client cancels, if it does.  Times are milliseconds from the start
    of the attempt. *)
Record attempt : Type := MkAttempt {
  arrivals : list (Z * jsstring);
  duration : Z;
  failure : option jsstring;
  cancelledAt : option Z
}.

Record jsError : Type := MkError { errName : jsstring; errMessage : jsstring }.

(** [attemptTimeoutMs]: the reasoning model has no deadline. *)
Definition attemptTimeoutMs (modelTimeoutMs : Z) (model : jsstring) : Z :=
  if eqs model (str "deepseek-r1") then 0%Z else modelTimeoutMs.

(** The moment the combined signal aborts, if it does: the timer (set
    only for a positive timeout) or the client, whichever is first. *)
Definition abortTime (timeout : Z) (a : attempt) : option Z :=
  let timer := if (0 <? timeout)%Z then Some timeout else None in
  match timer, cancelledAt a with
  | Some t, Some c => Some (Z.min t c)
  | Some t, None => Some t
  | None, Some c => Some c
  | None, None => None
  end.

(** [runGeneration(model)]: the tokens passed to [onToken], and the
    error thrown, if any. *)
Definition runGeneration (modelTimeoutMs : Z) (model : jsstring) (a : attempt)
  : list jsstring * option jsError :=
  let timeout := attemptTimeoutMs modelTimeoutMs model in
  match abortTime timeout a with
  | Some t =>
      if (t <? duration a)%Z then
        (map snd (filter (fun x => (fst x <=? t)%Z) (arrivals a)),
         Some (MkError (str "AbortError") (str "This operation was aborted")))
      else
        (map snd (arrivals a),
         option_map (MkError (str "Error")) (failure a))
  | None =>
      (map snd (arrivals a), option_map (MkError (str "Error")) (failure a))
  end.

(** *** The retry logic of the streaming handler *)

Inductive wsEvent : Type :=
| Token (data : jsstring)
| ModelFallback (from to reason : jsstring)
| ModelRetryStart (from to reason : jsstring)
| ModelRetryDone (model : jsstring)
| ModelRetryFailed (model reason : jsstring).

(** What the generation step leaves behind: the events sent, the models
    attempted in order, the model in [usedModel], the buffer
    [responseText], and the error that escapes, if any. *)
Record generation : Type := MkGeneration {
  events : list wsEvent;
  attempts : list jsstring;
  usedModel : jsstring;
  responseText : jsstring;
  thrown : option jsError
}.

Definition retryWith (modelTimeoutMs : Z) (modelName fallback reason : jsstring)
           (sent1 : list jsstring) (second : attempt) : generation :=
  let '(sent2, err2) := runGeneration modelTimeoutMs fallback second in
  MkGeneration
    (map Token sent1 ++
     [ModelFallback modelName fallback reason;
      ModelRetryStart modelName fallback reason] ++
     map Token sent2 ++
     match err2 with
     | None => [ModelRetryDone fallback]
     | Some _ => []
     end)
    [modelName; fallback] fallback (concat sent2) err2.

Definition generate (modelTimeoutMs : Z) (modelName fallback : jsstring)
           (first second : attempt) : generation :=
  let '(sent1, err1) := runGeneration modelTimeoutMs modelName first in
  match err1 with
  | None =>
      MkGeneration (map Token sent1) [modelName] modelName (concat sent1) None
  | Some err =>
      if eqs modelName (str "deepseek-r1") &&
         test memoryErrorRegex (errMessage err)
      then retryWith modelTimeoutMs modelName fallback
                     (str "insufficient_memory") sent1 second
      else if eqs modelName (str "deepseek-r1") &&
              eqs (errName err) (str "AbortError")
      then retryWith modelTimeoutMs modelName fallback (str "timeout")
                     sent1 second
      else if eqs (errName err) (str "AbortError")
      then MkGeneration
             (map Token sent1 ++ [ModelRetryFailed modelName (str "timeout")])
             [modelName] modelName (concat sent1) (Some err)
      else MkGeneration (map Token sent1) [modelName] modelName
                        (concat sent1) (Some err)
  end.

End Supervisor.

(* ================================================================= *)
(** ** The tool sandbox: denylists of the code runners *)

Module Sandbox.
Import Js Regex.
Local Open Scope string_scope.
Local Open Scope list_scope.
Local Open Scope nat_scope.

Definition MAX_CODE_CHARS : nat := 12 * 1000.

(** [/\bname\b/i] *)
Definition wholeWord (name : string) : re := cat [Wb; liti name; Wb].

Definition blockedJsWords : list string :=
  ["require"; "process"; "child_process"; "fs"; "net"; "http"; "https";
   "spawn"; "exec"].

Definition BLOCKED_JS_PATTERNS : list re := map wholeWord blockedJsWords.

(** [/\bimport\s+name\b/i] and [/\bfrom\s+name\b/i] *)
Definition keywordThen (keyword name : string) : re :=
  cat [Wb; liti keyword; plus space; liti name; Wb].

(** [/\bname\./i] *)
Definition memberOf (name : string) : re := cat [Wb; liti name; chr "."].

(** [/\bname\s*\(/i] *)
Definition callTo (name : string) : re :=
  cat [Wb; liti name; star space; chr "("].

Definition BLOCKED_PYTHON_PATTERNS : list re :=
  [keywordThen "import" "os"; keywordThen "import" "sys";
   keywordThen "import" "subprocess"; keywordThen "import" "socket";
   keywordThen "import" "requests";
   keywordThen "from" "os"; keywordThen "from" "sys";
   memberOf "subprocess"; memberOf "socket";
   callTo "open"; callTo "eval"; callTo "exec"].

Definition UNSAFE_PYTHON : jsstring :=
  str "Unsafe Python detected. Disable safeMode to run this code.".

Definition UNSAFE_JAVASCRIPT : jsstring :=
  str "Unsafe JavaScript detected. Disable jsSafeMode to run this code.".

(** The assertions return the message of the error they throw, [None]
    when they return normally. *)
Definition assertPythonSafe (code : jsstring) (safeMode : bool)
  : option jsstring :=
  if negb safeMode then None
  else if existsb (fun pattern => test pattern code) BLOCKED_PYTHON_PATTERNS
  then Some UNSAFE_PYTHON
  else None.

Definition assertJavaScriptSafe (code : jsstring) (safeMode : bool)
  : option jsstring :=
  if negb safeMode then None
  else if existsb (fun pattern => test pattern code) BLOCKED_JS_PATTERNS
  then Some UNSAFE_JAVASCRIPT
  else None.

(** The arguments of a runner that bear on admission; [None] is a
    property left out of the call, which takes its default. *)
Record runArgs : Type := MkArgs {
  code : jsstring;
  safeMode : option bool;
  maxChars : option nat
}.

Definition orDefault (A : Type) (d : A) (o : option A) : A :=
  match o with
  | Some v => v
  | None => d
  end.

Inductive interpreter : Type := PythonScript | NodeScript.

(** A runner either throws before anything is started, or hands the
    code and the safe-mode flag to the child interpreter. *)
Inductive outcome : Type :=
| Throws (message : jsstring)
| Spawns (child : interpreter) (payloadCode : jsstring)
         (payloadSafeMode : bool).

Definition tooLarge (language : string) (limit : nat) : jsstring :=
  str language ++ str " code too large (>" ++ natToString limit ++
  str " chars).".

Definition runPython (a : runArgs) : outcome :=
  let safe := orDefault bool true (safeMode a) in
  let limit := orDefault nat MAX_CODE_CHARS (maxChars a) in
  if isEmpty (code a) || isEmpty (trim (code a))
  then Throws (str "Missing python code.")
  else if limit <? length (code a) then Throws (tooLarge "Python" limit)
  else match assertPythonSafe (code a) safe with
       | Some message => Throws message
       | None => Spawns PythonScript (code a) safe
       end.

Definition runJavaScript (a : runArgs) : outcome :=
  let safe := orDefault bool true (safeMode a) in
  let limit := orDefault nat MAX_CODE_CHARS (maxChars a) in
  if isEmpty (code a) || isEmpty (trim (code a))
  then Throws (str "Missing JavaScript code.")
  else if limit <? length (code a) then Throws (tooLarge "JavaScript" limit)
  else match assertJavaScriptSafe (code a) safe with
       | Some message => Throws message
       | None => Spawns NodeScript (code a) safe
       end.

Definition runTypeScript (a : runArgs) : outcome :=
  let safe := orDefault bool true (safeMode a) in
  let limit := orDefault nat MAX_CODE_CHARS (maxChars a) in
  if isEmpty (code a) || isEmpty (trim (code a))
  then Throws (str "Missing TypeScript code.")
  else if limit <? length (code a) then Throws (tooLarge "TypeScript" limit)
  else match assertJavaScriptSafe (code a) safe with
       | Some message => Throws message
       | None => Spawns NodeScript (code a) safe
       end.

(** *** Notions used to state the sandbox properties *)

(** Some pattern of a denylist matches the code. *)
Definition matchesAny (patterns : list re) (text : jsstring) : bool :=
  existsb (fun pattern => test pattern text) patterns.

(** The code is missing: empty, or nothing but white space. *)
Definition blank (text : jsstring) : bool :=
  isEmpty text || isEmpty (trim text).

(** Whether a text ends, or starts, with a word character. *)
Definition endsInWord (pre : jsstring) : bool :=
  wordAt (prevChar pre (length pre)).

Definition startsInWord (post : jsstring) : bool := wordAt (charAt post 0).

End Sandbox.

(* ================================================================= *)
(** ** The intent classifier: the scoring loop *)

Module Intent.
Import Js Regex.
Local Open Scope string_scope.
Local Open Scope list_scope.
Local Open Scope nat_scope.

(** An entry of [INTENT_TYPES], as far as scoring reads it. *)
Record config : Type := MkConfig {
  patterns : list jsstring;
  advancedCheck : option (jsstring -> bool)
}.

(** The optional second argument of [classifyIntent]. *)
Record context : Type := MkContext {
  previousIntent : option jsstring;
  userPreference : option jsstring;
  excludeIntents : option (list jsstring)
}.

(** [new RegExp(escaped, 'gi')]: with its special characters escaped,
    a pattern is a literal, matched whatever the case. *)
Definition escapedRegex (pattern : jsstring) : re := cat (map chri pattern).

(** [(lower.match(regex) || []).length] *)
Definition countMatches (pattern lower : jsstring) : Z :=
  Z.of_nat (length (matchAll (escapedRegex pattern) lower)).

(** [/\d+/] *)
Definition reNumber : re := plus digit.

(** What one pattern adds to the score of [intentType]. *)
Definition patternScore (intentType prompt pattern : jsstring) : Z :=
  let lower := toLowerCase prompt in
  let matches := countMatches pattern lower in
  if eqs intentType (str "MATH_REASONING") &&
     (eqs pattern (str "how many") || eqs pattern (str "how much"))
  then
    if test reNumber prompt then Z.min 3 (matches * 2)
    else Z.min 2 matches
  else Z.min 2 matches.

Definition isIntent (o : option jsstring) (intentType : jsstring) : bool :=
  match o with
  | Some chosen => eqs chosen intentType
  | None => false
  end.

(** The body of the loop over [Object.entries(INTENT_TYPES)]: the value
    stored in [scores[intentType]]. *)
Definition scoreIntent (prompt : jsstring) (ctx : context)
           (intentType : jsstring) (cfg : config) : Z :=
  let score :=
    fold_left (fun score pattern =>
                 (score + patternScore intentType prompt pattern)%Z)
              (patterns cfg) 0%Z in
  let score :=
    match advancedCheck cfg with
    | Some check => if check prompt then (score + 5)%Z else score
    | None => score
    end in
  let score :=
    if isIntent (previousIntent ctx) intentType then (score + 1)%Z
    else score in
  let score :=
    if isIntent (userPreference ctx) intentType then (score + 2)%Z
    else score in
  let score :=
    match excludeIntents ctx with
    | Some excluded =>
        if arrayIncludes intentType excluded then (score - 5)%Z else score
    | None => score
    end in
  Z.max 0 score.

(** The [scores] object of [classifyIntent], for a prompt that passes
    the entry check (a non-empty string). *)
Definition scores (INTENT_TYPES : list (jsstring * config))
           (prompt : jsstring) (ctx : context) : list (jsstring * Z) :=
  map (fun entry => (fst entry, scoreIntent prompt ctx (fst entry) (snd entry)))
      INTENT_TYPES.

(** The patterns of the [MATH_REASONING] entry. *)
Definition MATH_REASONING_patterns : list jsstring :=
  map str
    ["calculate"; "compute"; "solve"; "equation"; "math"; "algebra";
     "geometry"; "solve for"; "how many";
     "percentage"; "ratio"; "fraction"; "decimal"; "prime"; "factor";
     "multiply"; "divide"; "add"; "subtract";
     "integral"; "derivative"; "calculus"; "function"; "graph"; "plot";
     "formula"; "theorem"; "exponential";
     "statistics"; "probability"; "mean"; "median"; "variance";
     "standard deviation"; "distribution"; "z-score"; "confidence interval";
     "trigonometry"; "sine"; "cosine"; "tangent"; "angle"; "triangle";
     "circle"; "polygon"; "area"; "perimeter";
     "matrix"; "vector"; "determinant"; "eigenvalue"; "complex number";
     "sum"; "product"; "logarithm"; "exponent";
     "+"; "-"; "x"] ++
  [[ascii_of_nat 215]; [ascii_of_nat 247]] ++
  map str
    ["/"; "="; "plus"; "minus"; "times"; "divided by"; "equals"; "squared";
     "cubed";
     "total"; "left"; "remaining"; "spent"; "bought"; "sell"; "cost";
     "price"; "amount"; "balance"; "difference";
     "how many"; "how much"; "what is"; "result"; "compute"; "calculate"].

(** *** Notions used to state the scoring properties *)

(** The one exception of the scoring loop: a "how many" or "how much"
    pattern of [MATH_REASONING], on a prompt that holds a digit. *)
Definition boosted (intentType prompt pattern : jsstring) : bool :=
  eqs intentType (str "MATH_REASONING") &&
  (eqs pattern (str "how many") || eqs pattern (str "how much")) &&
  test reNumber prompt.

(** The sum the loop over the patterns leaves in [score]. *)
Definition patternTotal (intentType prompt : jsstring)
           (pats : list jsstring) : Z :=
  fold_left (fun score pattern =>
               (score + patternScore intentType prompt pattern)%Z)
            pats 0%Z.

End Intent.

(* ================================================================= *)
(** ** The response formatter *)

Module Formatter.
Import Js Regex.
Local Open Scope string_scope.
Local Open Scope list_scope.
Local Open Scope nat_scope.

(** An item of a ranking; its rank is a Number. *)
Record rankItem : Type := MkItem {
  rank : Num.f64;
  name : jsstring;
  value : jsstring
}.

(** The object [formatResponse] returns, by its [type]. *)
Inductive formatted : Type :=
| Chart (json : jsstring) (content : jsstring)
| Table (headers : list jsstring) (rows : list (list jsstring))
        (content : jsstring)
| Ranking (items : list rankItem) (content : jsstring)
| ListOf (items : list jsstring) (content : jsstring)
| Text (content : jsstring).

Definition typeOf (r : formatted) : jsstring :=
  match r with
  | Chart _ _ => str "chart"
  | Table _ _ _ => str "table"
  | Ranking _ _ => str "ranking"
  | ListOf _ _ => str "list"
  | Text _ => str "text"
  end.

(** *** Detection *)

(** [/\|.*\|/m] *)
Definition rePipes : re := cat [chr "|"; star dot; chr "|"].

(** [/\d+\.\s+\w+.*:.*\d+/m] *)
Definition reStructured : re :=
  cat [plus digit; chr "."; plus space; plus word; star dot; chr ":";
       star dot; plus digit].

Definition hasTablePattern (text : jsstring) : bool :=
  test rePipes text || test reStructured text.

(** [/CHART_JSON\s*:/i] *)
Definition reChartMarker : re :=
  cat [liti "CHART_JSON"; star space; chr ":"].

Definition hasChartPattern (text : jsstring) : bool :=
  test reChartMarker text.

(** [/^\d+[\.\)]\s+/m] and [/^[-*]\s+/m]; the bullet sign of the
    source's class lies outside the modelled alphabet. *)
Definition reNumberedLine : re :=
  cat [Bol true; plus digit; oneOf ".)"; plus space].

Definition reBulletLine : re := cat [Bol true; oneOf "-*"; plus space].

Definition hasListPattern (text : jsstring) : bool :=
  test reNumberedLine text || test reBulletLine text.

(** [/\b[1-9][\.\)]\s+.+?((?:\n|,|\s+(?:and|or))\s*[2-9][\.\)]\s+.+?){1,}/i] *)
Definition reNumberedRanking : re :=
  cat [Wb; Cls (between 49 57); oneOf ".)"; plus space; lazyPlus dot;
       plus (Grp 1 (cat [alt [chr LF; chr ",";
                              cat [plus space; alt [liti "and"; liti "or"]]];
                         star space; Cls (between 50 57); oneOf ".)";
                         plus space; lazyPlus dot]))].

(** [/\b(rank|ranking|top|leader|first|second|third|leading|follows|rank)/i] *)
Definition reRankKeywords : re :=
  cat [Wb; Grp 1 (litsi ["rank"; "ranking"; "top"; "leader"; "first";
                         "second"; "third"; "leading"; "follows"; "rank"])].

(** [/\b(United States|Russia|...|Brazil)\b/i] *)
Definition reCountries : re :=
  cat [Wb; Grp 1 (litsi ["United States"; "Russia"; "China"; "France"; "UK";
                         "India"; "Pakistan"; "Israel"; "Germany"; "Japan";
                         "Brazil"]);
       Wb].

(** [/\b\d+\s*(warhead|nuclear|arsenal|inventory|weapon|bomb)/i] *)
Definition reArsenalNumbers : re :=
  cat [Wb; plus digit; star space;
       Grp 1 (litsi ["warhead"; "nuclear"; "arsenal"; "inventory"; "weapon";
                     "bomb"])].

Definition hasRankingPattern (text : jsstring) : bool :=
  if test reNumberedRanking text then true
  else
    let hasRankKeywords := test reRankKeywords text in
    let hasCountries := test reCountries text in
    let hasNumbers := test reArsenalNumbers text in
    hasRankKeywords && (hasCountries || hasNumbers).

(** *** Extraction *)

Definition hasPipe (line : jsstring) : bool := existsb (Ascii.eqb "|") line.

Definition nonBlank (s : jsstring) : bool := negb (isEmpty (trim s)).

(** The rows the loop of [extractAndFormatTable] pushes. *)
Fixpoint tableRows (ls : list jsstring) : list (list jsstring) :=
  match ls with
  | [] => []
  | line :: rest =>
      if hasPipe line then
        let cells :=
          filter (fun c => negb (isEmpty c)) (map trim (splitOn "|" line)) in
        if 1 <? length cells then cells :: tableRows rest
        else tableRows rest
      else tableRows rest
  end.

Definition extractAndFormatTable (text : jsstring) : formatted :=
  let ls := filter nonBlank (splitOn LF text) in
  match tableRows ls with
  | headers :: rows => Table headers rows text
  | [] => Text text
  end.

(** [/CHART_JSON\s*:\s*([\s\S]+)$/i] and [/\{[\s\S]*\}/] *)
Definition reChartBody : re :=
  cat [liti "CHART_JSON"; star space; chr ":"; star space;
       Grp 1 (plus anychar); Eol false].

Definition reBraces : re := cat [chr "{"; star anychar; chr "}"].

Section Chart.

(** [JSON.parse] on the braces found, as far as the formatter looks at
    it: whether it returns an object whose [data] is an array. *)
Variable parsesToChart : jsstring -> bool.

Definition extractAndFormatChart (text : jsstring) : formatted :=
  match exec reChartBody text 0 with
  | None => Text text
  | Some (_, st) =>
      let raw := trim (group text st 1) in
      match exec reBraces raw 0 with
      | None => Text text
      | Some (b, st') =>
          let json := substring raw b (pos st') in
          if parsesToChart json then Chart json text else Text text
      end
  end.

End Chart.

(** [line.replace(re, '')] for a regex without the [g] flag. *)
Definition removeFirst (r : re) (line : jsstring) : jsstring :=
  match exec r line 0 with
  | Some (b, st) => firstn b line ++ skipn (pos st) line
  | None => line
  end.

(** [/^[\d]+[\.\)]\s+|^[-*]\s+/] *)
Definition reListMarker : re :=
  alt [cat [Bol false; plus digit; oneOf ".)"; plus space];
       cat [Bol false; oneOf "-*"; plus space]].

Definition extractAndFormatList (text : jsstring) : formatted :=
  let ls := filter nonBlank (splitOn LF text) in
  let items :=
    filter (fun cleaned => negb (isEmpty cleaned))
           (map (fun line => trim (removeFirst reListMarker line)) ls) in
  if 0 <? length items then ListOf items text else Text text.

(** [/^(\d+)[\.\)]\s+(.+?):\s*(.+?)$/gm] *)
Definition reStrictRank : re :=
  cat [Bol true; Grp 1 (plus digit); oneOf ".)"; plus space;
       Grp 2 (lazyPlus dot); chr ":"; star space; Grp 3 (lazyPlus dot);
       Eol true].

Definition notOneOf (cs : list ascii) : re :=
  Cls (fun c => negb (existsb (Ascii.eqb c) cs)).

(** The flexible pattern, with flag [g]: group 1 is [\d+]; then [.] or
    [)] and [\s+]; group 2 is a capital followed lazily by characters
    other than colon and line feed; then either a dash between optional
    blanks or a colon and optional blanks; group 3 is one or more
    characters other than full stop and line feed, optionally followed
    by a full stop and more such characters.  The long dash of the
    source's class lies outside the modelled alphabet. *)
Definition reFlexibleRank : re :=
  cat [Grp 1 (plus digit); oneOf ".)"; plus space;
       Grp 2 (cat [Cls isUpperAZ; lazyStar (notOneOf [":"%char; LF])]);
       alt [cat [star space; chr "-"; star space]; cat [chr ":"; star space]];
       Grp 3 (cat [plus (notOneOf ["."%char; LF]);
                   opt (cat [chr "."; star (notOneOf ["."%char; LF])])])].

(** [parseInt] of a string that starts with a digit, as the callers
    below make sure: the numeral read is the run of decimal digits at
    the start, or, after [0x] or [0X], the run of hexadecimal digits
    that follows; the result is the Number nearest to its value,
    Infinity for the numerals beyond every double, and NaN when no digit
    can be read. *)
Definition isHexDigit (c : ascii) : bool :=
  isDigit c || ((97 <=? code c) && (code c <=? 102)) ||
  ((65 <=? code c) && (code c <=? 70)).

Definition hexDigit (c : ascii) : Z :=
  if isDigit c then Z.of_nat (code c - 48)
  else if 97 <=? code c then Z.of_nat (code c - 87)
  else Z.of_nat (code c - 55).

Fixpoint spanHex (s : jsstring) : jsstring :=
  match s with
  | c :: s' => if isHexDigit c then c :: spanHex s' else []
  | [] => []
  end.

Definition hexValue (hs : jsstring) : Z :=
  fold_left (fun acc c => acc * 16 + hexDigit c)%Z hs 0%Z.

Definition parseDigits (s : jsstring) : Num.f64 :=
  let ds := fst (Arith.spanDigits s) in
  if isEmpty ds then Num.NaN else Num.ofRatio (Arith.digitsValue ds) 1.

Definition parseInt (s : jsstring) : Num.f64 :=
  match s with
  | c0 :: x :: rest =>
      if Ascii.eqb c0 "0" && (Ascii.eqb x "x" || Ascii.eqb x "X") then
        let hs := spanHex rest in
        if isEmpty hs then Num.NaN else Num.ofRatio (hexValue hs) 1
      else parseDigits s
  | _ => parseDigits s
  end.

Definition itemOf (text : jsstring) (m : nat * mstate) : rankItem :=
  MkItem (parseInt (group text (snd m) 1)) (trim (group text (snd m) 2))
         (trim (group text (snd m) 3)).

(** [/^\d+/] *)
Definition reLeadingDigits : re := cat [Bol false; plus digit].

(** The "Rank | Name | Value" lines. *)
Fixpoint pipeRankings (ls : list jsstring) : list rankItem :=
  match ls with
  | [] => []
  | line :: rest =>
      if hasPipe line then
        let parts := map trim (splitOn "|" line) in
        let first := nth 0 parts [] in
        if (2 <=? length parts) && test reLeadingDigits first then
          if SFleb (parseInt first) (Num.ofNat 100) then
            MkItem (parseInt first) (nth 1 parts [])
                   (join (str " - ") (skipn 2 parts))
            :: pipeRankings rest
          else pipeRankings rest
        else pipeRankings rest
      else pipeRankings rest
  end.

Definition countryOrder : list string :=
  ["United States"; "Russia"; "China"; "France"; "United Kingdom"; "India";
   "Pakistan"; "Israel"; "Germany"; "Japan"; "Brazil"; "North Korea"].

(** [new RegExp(`${country}[^.]*?(\\d+)\\s*(warhead|nuclear|arsenal|weapon)`, 'i')] *)
Definition countPattern (country : string) : re :=
  cat [liti country; lazyStar (notOneOf ["."%char]); Grp 1 (plus digit);
       star space;
       Grp 2 (litsi ["warhead"; "nuclear"; "arsenal"; "weapon"])].

Fixpoint proseLoop (text : jsstring) (countries : list string) (next : nat)
  : list rankItem :=
  match countries with
  | [] => []
  | country :: rest =>
      if includes (str country) text then
        let found :=
          match exec (countPattern country) text 0 with
          | Some (_, st) => str "~" ++ group text st 1 ++ str " warheads"
          | None => str "Nuclear-armed state"
          end in
        MkItem (Num.ofNat next) (str country) found ::
        (if 10 <? next + 1 then [] else proseLoop text rest (next + 1))
      else proseLoop text rest next
  end.

Definition extractProseRankings (text : jsstring) : list rankItem :=
  proseLoop text countryOrder 1.

(** [rankings.sort((a, b) => a.rank - b.rank)]: a stable sort; an item
    passes the items after it only when its rank is strictly larger.
    The difference of two Numbers is negative exactly when the first
    is the smaller one, and is NaN, which [sort] reads as a tie, only
    between two infinite ranks. *)
Fixpoint insertByRank (x : rankItem) (l : list rankItem) : list rankItem :=
  match l with
  | [] => [x]
  | y :: l' =>
      if SFltb (rank y) (rank x) then y :: insertByRank x l' else x :: l
  end.

Definition sortByRank (l : list rankItem) : list rankItem :=
  fold_right insertByRank [] l.

Definition extractAndFormatRanking (text : jsstring) : formatted :=
  let strict := map (itemOf text) (matchAll reStrictRank text) in
  let rankings :=
    if negb (length strict =? 0) then strict
    else
      let flexible :=
        filter (fun item => SFleb (rank item) (Num.ofNat 20))
               (map (itemOf text) (matchAll reFlexibleRank text)) in
      if negb (length flexible =? 0) then flexible
      else
        let piped := pipeRankings (splitOn LF text) in
        if negb (length piped =? 0) then piped
        else extractProseRankings text in
  if 0 <? length rankings then Ranking (sortByRank rankings) text
  else Text text.

(** *** [formatResponse] *)

Definition isChart (r : formatted) : bool :=
  match r with
  | Chart _ _ => true
  | _ => false
  end.

Definition formatResponse (parsesToChart : jsstring -> bool)
           (text : jsstring) : formatted :=
  let chart := extractAndFormatChart parsesToChart text in
  if hasChartPattern text && isChart chart then chart
  else if hasTablePattern text then extractAndFormatTable text
  else if hasRankingPattern text then extractAndFormatRanking text
  else if hasListPattern text then extractAndFormatList text
  else Text text.

End Formatter.

(* ================================================================= *)
(** ** The response formatter: HTML output *)

Module Html.
Import Js Formatter.
Local Open Scope string_scope.
Local Open Scope list_scope.
Local Open Scope nat_scope.

(** The double quote. *)
Definition quote : ascii := ascii_of_nat 34.

(** The [map] of [escapeHtml], applied to one character: the class of
    the replaced characters holds the ampersand, the two angle
    brackets, the double and the single quote; any other character is
    left alone. *)
Definition escapeChar (c : ascii) : jsstring :=
  if Ascii.eqb c "&" then str "&amp;"
  else if Ascii.eqb c "<" then str "&lt;"
  else if Ascii.eqb c ">" then str "&gt;"
  else if Ascii.eqb c quote then str "&quot;"
  else if Ascii.eqb c "'" then str "&#039;"
  else [c].

(** [text.replace(re, m => map[m])], where [re] is that class with
    flag [g]. *)
Definition escapeHtml (text : jsstring) : jsstring := flat_map escapeChar text.

(** An opening tag with its [class] attribute. *)
Definition openTag (name cls : string) : jsstring :=
  str "<" ++ str name ++ str " class=" ++ [quote] ++ str cls ++ [quote] ++
  str ">".

(** A run of [n] spaces after a line feed: the layout of the template
    literals. *)
Definition indent (n : nat) : jsstring := LF :: repeat " "%char n.

Definition listToHTML (items : list jsstring) : jsstring :=
  openTag "ul" "formatted-list" ++
  concat (map (fun item => str "<li>" ++ escapeHtml item ++ str "</li>")
              items) ++
  str "</ul>".

Definition tableToHTML (headers : list jsstring)
           (rows : list (list jsstring)) : jsstring :=
  let headerCells :=
    concat (map (fun h => str "<th>" ++ escapeHtml h ++ str "</th>")
                headers) in
  let rowsHTML :=
    concat
      (map (fun row =>
              str "<tr>" ++
              concat (map (fun cell =>
                             str "<td>" ++ escapeHtml cell ++ str "</td>")
                          row) ++
              str "</tr>")
           rows) in
  indent 6 ++ openTag "table" "formatted-table" ++
  indent 8 ++ str "<thead>" ++
  indent 10 ++ str "<tr>" ++ headerCells ++ str "</tr>" ++
  indent 8 ++ str "</thead>" ++
  indent 8 ++ str "<tbody>" ++
  indent 10 ++ rowsHTML ++
  indent 8 ++ str "</tbody>" ++
  indent 6 ++ str "</table>" ++
  indent 4.

Section Rendering.

(** [String(n)] for the rank of an item, and the SVG renderer of
    charts, both left to the host. *)
Variable numberToString : Num.f64 -> jsstring.
Variable chartToHTML : jsstring -> jsstring.

Definition rankingToHTML (items : list rankItem) : jsstring :=
  openTag "div" "formatted-ranking" ++
  concat
    (map (fun item =>
            indent 8 ++ openTag "div" "ranking-item" ++
            indent 10 ++ openTag "span" "ranking-badge" ++
            numberToString (rank item) ++ str "</span>" ++
            indent 10 ++ openTag "span" "ranking-name" ++
            escapeHtml (name item) ++ str "</span>" ++
            indent 10 ++ openTag "span" "ranking-value" ++
            escapeHtml (value item) ++ str "</span>" ++
            indent 8 ++ str "</div>" ++
            indent 6)
         items) ++
  str "</div>".

Definition toHTML (formatted : Formatter.formatted) : jsstring :=
  match formatted with
  | Table headers rows _ => tableToHTML headers rows
  | ListOf items _ => listToHTML items
  | Ranking items _ => rankingToHTML items
  | Chart json _ => chartToHTML json
  | Text content => str "<p>" ++ escapeHtml content ++ str "</p>"
  end.

End Rendering.

(** *** Notions used to state the formatter's properties *)

(** [formatted.content] *)
Definition contentOf (r : formatted) : jsstring :=
  match r with
  | Chart _ content => content
  | Table _ _ content => content
  | Ranking _ content => content
  | ListOf _ content => content
  | Text content => content
  end.

(** The five characters [escapeHtml] replaces. *)
Definition special (c : ascii) : bool :=
  existsb (Ascii.eqb c) ["&"%char; "<"%char; ">"%char; quote; "'"%char].

(** The number of occurrences of a character. *)
Definition countChar (c : ascii) (s : jsstring) : nat :=
  length (filter (Ascii.eqb c) s).

(** The number of cells of a table. *)
Definition cellCount (rows : list (list jsstring)) : nat :=
  length (concat rows).

(** A cell as [extractAndFormatTable] keeps it: not empty, trimmed and
    without pipe. *)
Definition goodCell (cell : jsstring) : Prop :=
  cell <> [] /\ trim cell = cell /\ hasPipe cell = false.

(** The Numbers [first], [first + 1], ... *)
Definition countFrom (first n : nat) : list Num.f64 :=
  map Num.ofNat (seq first n).

(** Ranks in non-decreasing order: no item is followed by one of a
    smaller rank. *)
Fixpoint rankSorted (items : list rankItem) : Prop :=
  match items with
  | [] => True
  | x :: rest =>
      match rest with
      | [] => True
      | y :: _ => SFltb (rank y) (rank x) = false
      end /\ rankSorted rest
  end.

End Html.

(* ================================================================= *)
(** ** Looking a key up in a Map *)

Module MapLookup.
Import Js ResponseCache.

(** [m.get(k)] *)
Fixpoint mapGet (V : Type) (k : jsstring) (m : jsmap V) : option V :=
  match m with
  | [] => None
  | (k', v) :: m' => if eqs k' k then Some v else mapGet V k m'
  end.

(** No two bindings of a Map share a key. *)
Definition uniqueKeys (V : Type) (m : jsmap V) : Prop := NoDup (mapKeys m).

End MapLookup.

(* ================================================================= *)
(** ** The SQL tool: the read-only guard and its cache *)

Module Sql.
Import Js Regex ResponseCache MapLookup.
Local Open Scope string_scope.
Local Open Scope list_scope.
Local Open Scope nat_scope.

Definition SQL_CACHE_TTL_MS : Z := 5 * 60 * 1000.

Definition writeKeywords : list string :=
  ["insert"; "update"; "delete"; "drop"; "alter"; "create"; "replace";
   "truncate"; "vacuum"; "attach"; "detach"].

(** [/\b(insert|update|...|detach)\b/i] *)
Definition reWriteKeywords : re := cat [Wb; Grp 1 (litsi writeKeywords); Wb].

Definition hasWriteKeywords (query : jsstring) : bool :=
  test reWriteKeywords query.

Definition isReadOnlyQuery (query : jsstring) : bool :=
  let trimmed := trim query in
  if isEmpty trimmed then false
  else if existsb (Ascii.eqb ";") trimmed then false
  else if hasWriteKeywords trimmed then false
  else
    let lowered := toLowerCase trimmed in
    startsWith (str "select") lowered || startsWith (str "with") lowered ||
    startsWith (str "pragma") lowered || startsWith (str "explain") lowered.

Record sqlEntry : Type := MkSqlEntry { cached : jsstring; storedAt : Z }.

(** [getSqlCache(key)] when [Date.now()] reads [now]: the value
    returned ([None] for null) and the cache left behind. *)
Definition getSqlCache (key : jsstring) (now : Z) (sqlCache : jsmap sqlEntry)
  : option jsstring * jsmap sqlEntry :=
  match mapGet sqlEntry key sqlCache with
  | None => (None, sqlCache)
  | Some entry =>
      if (SQL_CACHE_TTL_MS <? now - storedAt entry)%Z
      then (None, mapDelete key sqlCache)
      else (Some (cached entry), sqlCache)
  end.

Definition setSqlCache (key value : jsstring) (now : Z)
           (sqlCache : jsmap sqlEntry) : jsmap sqlEntry :=
  mapSet key (MkSqlEntry value now) sqlCache.

(** The arguments of [runSqliteQuery] that decide what it does; [None]
    is a property left out of the call. *)
Record sqlArgs : Type := MkSqlArgs {
  query : jsstring;
  dbPath : option jsstring;
  allowWrite : option bool
}.

Inductive sqlOutcome : Type :=
| SqlThrows (message : jsstring)
| SqlReturns (output : jsstring).

(** What a call leaves behind: its outcome, the cache, and the queries
    handed to sqlite, each with its database path. *)
Record sqlRun : Type := MkSqlRun {
  outcome : sqlOutcome;
  cacheAfter : jsmap sqlEntry;
  executed : list (jsstring * jsstring)
}.

Definition READ_ONLY_ERROR : jsstring :=
  str "Write queries are disabled (read-only mode). Remove write keywords or semicolons.".

(** [if (cached) return cached]: an empty string counts as a miss. *)
Definition truthyValue (hit : option jsstring) : option jsstring :=
  match hit with
  | Some value => if isEmpty value then None else Some value
  | None => None
  end.

Section Child.

(** The sqlite child process: its trimmed standard output, or the
    message of the error it ends with. *)
Variable runPythonScript : jsstring -> jsstring -> jsstring + jsstring.

(** [runSqliteQuery]; [tGet] and [tSet] are the readings of the clock
    in [getSqlCache] and in [setSqlCache]. *)
Definition runSqliteQuery (a : sqlArgs) (tGet tSet : Z)
           (sqlCache : jsmap sqlEntry) : sqlRun :=
  let allow :=
    match allowWrite a with
    | Some b => b
    | None => false
    end in
  if isEmpty (query a) || isEmpty (trim (query a))
  then MkSqlRun (SqlThrows (str "Missing SQL query.")) sqlCache []
  else
    match dbPath a with
    | None =>
        MkSqlRun (SqlThrows (str "Missing sqlite database path.")) sqlCache []
    | Some db =>
        if isEmpty db
        then MkSqlRun (SqlThrows (str "Missing sqlite database path."))
                      sqlCache []
        else if negb allow && negb (isReadOnlyQuery (query a))
        then MkSqlRun (SqlThrows READ_ONLY_ERROR) sqlCache []
        else
          let cacheKey := db ++ str "::" ++ query a in
          let '(hit, cache1) :=
            if negb allow then getSqlCache cacheKey tGet sqlCache
            else (None, sqlCache) in
          match truthyValue hit with
          | Some value => MkSqlRun (SqlReturns value) cache1 []
          | None =>
              match runPythonScript db (query a) with
              | inr message =>
                  MkSqlRun (SqlThrows message) cache1 [(db, query a)]
              | inl stdout =>
                  let output := if isEmpty stdout then str "[]" else stdout in
                  MkSqlRun (SqlReturns output)
                           (if negb allow
                            then setSqlCache cacheKey output tSet cache1
                            else cache1)
                           [(db, query a)]
              end
          end
    end.

End Child.

End Sql.

(* ================================================================= *)
(** ** The streaming handler: from the payload to the local fast path *)

Module FastPath.
Import Js Regex ResponseCache MapLookup.
Local Open Scope string_scope.
Local Open Scope list_scope.
Local Open Scope nat_scope.

(** *** Replacing the matches of a [g] regex *)

Fixpoint replaceMatches (s : jsstring) (ms : list (nat * mstate))
         (subst : mstate -> jsstring) (from : nat) : jsstring :=
  match ms with
  | [] => skipn from s
  | (b, st) :: rest =>
      substring s from b ++ subst st ++ replaceMatches s rest subst (pos st)
  end.

(** [s.replace(re, ...)] for a regex with flag [g]; [subst] builds the
    replacement from the text and the final state of a match. *)
Definition replaceAll (r : re) (subst : jsstring -> mstate -> jsstring)
           (s : jsstring) : jsstring :=
  replaceMatches s (matchAll r s) (subst s) 0.

Definition constantly (text : string) : jsstring -> mstate -> jsstring :=
  fun _ _ => str text.

(** [\b(a|b|c)\b], with and without flag [i], and [^(a|b|c)\b]. *)
Definition wordOf (ws : list string) : re := cat [Wb; Grp 1 (lits ws); Wb].
Definition wordOfi (ws : list string) : re := cat [Wb; Grp 1 (litsi ws); Wb].
Definition startOf (ws : list string) : re :=
  cat [Bol false; Grp 1 (lits ws); Wb].

(** *** The predicates of the fast path *)

Definition trivialMessages : list string :=
  ["ok"; "okay"; "thanks"; "thank you"; "thx"; "ty"; "lol"; "nice";
   "good night"; "goodnight"].

Definition isTrivialMessage (prompt : jsstring) : bool :=
  let text := toLowerCase (trim prompt) in
  arrayIncludes text (map str trivialMessages).

Definition howAreYou : list string :=
  ["how are you"; "how's it going"; "how is it going"; "how do you do";
   "what's up"; "whats up"; "sup"; "how are u"; "how r u"].

Definition isSmallTalkPrompt (prompt : jsstring) : bool :=
  let text := trim (toLowerCase prompt) in
  if isEmpty text then false
  else if 60 <? length text then false
  else if test (wordOfi howAreYou) text then true
  else if test (wordOfi ["good morning"; "good afternoon"; "good evening"])
               text then true
  else test (startOf ["hi"; "hello"; "hey"]) text.

Definition moods : list string :=
  ["sad"; "tired"; "stressed"; "angry"; "upset"; "lonely"; "anxious";
   "worried"; "scared"].

(** [/\b(a|b)\s+(x|y)\b/] *)
Definition phraseThenMood (heads tails : list string) : re :=
  cat [Wb; Grp 1 (lits heads); plus space; Grp 2 (lits tails); Wb].

Definition reCheer : re :=
  wordOf ["cheer me up"; "motivate me"; "encourage me"; "give me hope";
          "i need motivation"].
Definition reAge : re :=
  wordOf ["how old are you"; "your age"; "what is your age"; "age are you"].
Definition reName : re :=
  wordOf ["what is your name"; "your name"; "who are you"; "what are you"].
Definition reMaker : re :=
  wordOf ["who made you"; "who created you"; "who built you"].
Definition reAffection : re :=
  wordOf ["love me"; "be my friend"; "be my girlfriend"; "be my boyfriend";
          "be my wife"; "be my husband"; "darling"; "sweetheart"].
Definition reThanks : re := startOf ["thanks"; "thank you"; "thx"; "ty"].
Definition reOk : re := startOf ["ok"; "okay"; "cool"; "nice"; "great"].
Definition reYesNo : re := startOf ["yes"; "no"; "maybe"; "sure"].

Definition isInstantConversationPrompt (prompt : jsstring) : bool :=
  let text := trim (toLowerCase prompt) in
  if isEmpty text then false
  else if 200 <? length text then false
  else if test digit text then false
  else if isSmallTalkPrompt text then true
  else if test (phraseThenMood ["i am"; "i'm"; "im"]
                               (moods ++ ["happy"; "excited"])) text then true
  else if test (phraseThenMood ["feel"; "feeling"]
                               (moods ++ ["happy"; "excited"])) text then true
  else if test reCheer text then true
  else if test (wordOf ["tell me a joke"; "joke"; "make me laugh"; "funny"])
               text then true
  else if test (wordOf ["fact"; "fun fact"; "random fact"]) text then true
  else if test reAge text then true
  else if test reName text then true
  else if test reMaker text then true
  else if test reAffection text then true
  else if test reThanks text then true
  else if test reOk text then true
  else test reYesNo text.

(** *** The instant-conversation table *)

(** Every local answer opens with the same lines. *)
Definition LOCAL_HEAD : jsstring :=
  lines ["Thinking"; "- (omitted by request)"; ""; "Result"; "- "].

Definition local (answer : string) : jsstring := LOCAL_HEAD ++ str answer.

Definition buildGreetingResponse : jsstring :=
  local "Hi! I am here and ready. Tell me what you need and I will help.".

(** [/\bwhat's up|whats up|sup\b/]: the assertions bind to the first
    and to the last alternative only. *)
Definition reWhatsUp : re :=
  alt [cat [Wb; lit "what's up"]; lit "whats up"; cat [lit "sup"; Wb]].

Definition buildSmallTalkResponse (prompt : jsstring) : jsstring :=
  let text := toLowerCase prompt in
  if test (wordOf ["how are you"; "how's it going"; "how is it going";
                   "how are u"; "how r u"]) text
  then local "I'm doing well, thanks! How can I help?"
  else if test reWhatsUp text
  then local "Not muchready to help. What do you need?"
  else if test (wordOf ["good morning"]) text
  then local "Good morning! What can I do for you?"
  else if test (wordOf ["good afternoon"]) text
  then local "Good afternoon! What can I do for you?"
  else if test (wordOf ["good evening"]) text
  then local "Good evening! What can I do for you?"
  else buildGreetingResponse.

Definition buildInstantConversationResponse (prompt : jsstring) : jsstring :=
  let text := toLowerCase prompt in
  if isSmallTalkPrompt text then buildSmallTalkResponse text
  else if test (phraseThenMood ["i am"; "i'm"; "im"] moods) text ||
          test (phraseThenMood ["feel"; "feeling"] moods) text
  then local "I'm sorry you're feeling that way. Want to talk about it?"
  else if test (phraseThenMood ["i am"; "i'm"; "im"] ["happy"; "excited"])
               text ||
          test (phraseThenMood ["feel"; "feeling"] ["happy"; "excited"]) text
  then local "That's awesome! Want to share more?"
  else if test reCheer text
  then local "You've got this. What's one small step you can take right now?"
  else if test (wordOf ["tell me a joke"; "make me laugh"; "funny"; "joke"])
               text
  then local "Why did the computer get cold? It left its Windows open."
  else if test (wordOf ["fun fact"; "random fact"; "fact"]) text
  then local "Fun fact: Honey never spoils if stored properly."
  else if test reAge text
  then local "I'm an AI, so I don't have a real age. I was created recently and keep improving."
  else if test reName text
  then local "I'm BA AI Assistant. How can I help?"
  else if test reMaker text
  then local "I was built by the BA AI Studio team."
  else if test reAffection text
  then local "I can be a friendly, supportive chat partner. How can I help?"
  else if test reThanks text
  then local "You're welcome! Anything else you want to do?"
  else if test reOk text
  then local "Got it. What do you want to do next?"
  else if test reYesNo text
  then local "Thanks for the reply. What's next?"
  else local "I'm here. How can I help you?".

(** *** The other tests of the dispatch *)

Definition vagueWords : list string :=
  ["explain"; "why"; "how"; "more detail"; "more details"; "elaborate";
   "clarify"; "expand"; "tell me more"; "more info"; "more information";
   "details please"; "explain more"; "go on"; "continue"; "and then";
   "what about that"; "what about it"; "about that"; "so what"].

Definition isVagueFollowup (prompt : jsstring) : bool :=
  let text := trim (toLowerCase prompt) in
  if isEmpty text then false
  else if (length text <=? 12) &&
          test (startOf ["why"; "how"; "explain"; "clarify"; "details";
                         "detail"; "more"; "again"; "repeat"; "continue";
                         "so"]) text
  then true
  else test (wordOfi vagueWords) text.

(** [/^[\s\d+\-*/xX().%]+$/] *)
Definition reBareArithmetic : re :=
  cat [Bol false;
       plus (Cls (fun c => isSpace c || isDigit c ||
                           existsb (Ascii.eqb c) (str "+-*/xX().%")));
       Eol false].

Definition backticks : jsstring := str "```".

Definition normalizeUserPrompt (prompt : jsstring) : jsstring :=
  let original := prompt in
  if isEmpty (trim original) then original
  else if includes backticks original then original
  else if test reBareArithmetic (trim original) then original
  else
    let replacements : list (re * (jsstring -> mstate -> jsstring)) :=
      [(cat [Wb; liti "but another"; Wb], constantly "buy another");
       (cat [Wb; liti "but"; plus space; Grp 1 (plus digit)],
        fun s st => str "buy " ++ group s st 1);
       (cat [Wb; liti "loss"; Wb], constantly "lost");
       (cat [Wb; liti "borow"; Wb], constantly "borrow");
       (cat [Wb; liti "explan"; Wb], constantly "explain");
       (alt [cat [Wb; liti "pls"; Wb]; cat [Wb; liti "plz"; Wb]],
        constantly "please");
       (cat [Wb; liti "thx"; Wb], constantly "thanks");
       (cat [Wb; liti "im"; Wb], constantly "i am");
       (cat [Wb; liti "whats"; Wb], constantly "what's");
       (cat [Wb; liti "hw"; Wb], constantly "how")] in
    let replaced :=
      fold_left (fun text rv => replaceAll (fst rv) (snd rv) text)
                replacements original in
    trim (replaceAll (cat [space; plus space]) (constantly " ") replaced).

(** [text.split(/\s+/).length] *)
Definition countTokens (text : jsstring) : nat :=
  S (length (matchAll (plus space) text)).

Definition isSimpleQaFastPath (prompt : jsstring) : bool :=
  let text := trim prompt in
  if isEmpty text then false
  else if 40 <? countTokens text then false
  else
    let lower := toLowerCase text in
    let heavyCode :=
      test (wordOfi ["function"; "bug"; "stack trace"; "html"; "css";
                     "javascript"; "python"; "sql"; "schema"; "optimize";
                     "debug"]) lower in
    let heavyMath :=
      test (wordOfi ["prove"; "integral"; "derivative"; "theorem"; "limit";
                     "riddle"; "puzzle"; "equation system"]) lower in
    let ranking :=
      test (wordOfi ["top"; "best"; "rank"; "ranking"; "leaderboard"])
           lower in
    let wantsSources :=
      test (wordOfi ["cite"; "sources"; "links"; "references"]) lower in
    let docRefs :=
      test (wordOfi ["in my doc"; "in the pdf"; "in the file"; "uploaded"])
           lower in
    negb (heavyCode || heavyMath || ranking || wantsSources || docRefs).

Definition isUncertainResponse (text : jsstring) : bool :=
  test (wordOfi ["i'm not sure"; "i am not sure"; "not sure"; "cannot";
                 "can't"; "unsure"; "i don't know"]) text.

(** *** The conversation memory *)

Record message : Type := MkMessage { role : jsstring; content : jsstring }.

(** The instance the server uses keeps the last 15 messages of a user. *)
Definition maxMemorySize : nat := 15.

Definition normalizeContent (text : jsstring) : jsstring :=
  replaceAll (cat [chr LF; plus space]) (fun _ _ => [LF])
    (replaceAll (cat [plus space; chr LF]) (fun _ _ => [LF])
       (replaceAll (plus space) (constantly " ") (trim text))).

Definition conversationOf (userId : jsstring)
           (memory : jsmap (list message)) : list message :=
  match mapGet (list message) userId memory with
  | Some conversation => conversation
  | None => []
  end.

(** [conversationMemory.addMessage]: the message is pushed and, beyond
    15, the oldest one is shifted out. *)
Definition addMessage (userId role content : jsstring)
           (memory : jsmap (list message)) : jsmap (list message) :=
  let conversation :=
    conversationOf userId memory ++ [MkMessage role (normalizeContent content)]
  in
  mapSet userId
         (if maxMemorySize <? length conversation then tl conversation
          else conversation)
         memory.

(** *** The handler *)

Record payload : Type := MkPayload {
  prompt : option jsstring;
  userId : option jsstring;
  conversationHistory : list message;
  userPrompt : option jsstring
}.

(** A blocking generate call: the model and the prompt sent. *)
Record generation : Type := MkGeneration {
  genModel : jsstring;
  genPrompt : jsstring
}.

Inductive frame : Type :=
| ErrorFrame (error : jsstring)
| TokenFrame (data : jsstring)
| DoneFrame (model : jsstring).

(** What the handler does, in order: frames sent on the socket,
    messages added to the conversation memory, a summary scheduled by
    [setTimeout], and calls of [callOllamaGenerate]. *)
Inductive effect : Type :=
| Send (f : frame)
| AddMessage (user role content : jsstring)
| ScheduleSummary (user : jsstring)
| Generate (call : generation).

(** The handler has returned, or goes on with the full pipeline, which
    lies beyond this model, on the prompt it has arrived at. *)
Inductive outcome : Type :=
| Returned
| Continues (incomingPrompt : jsstring).

(** [typeof x === "string" && x.trim() ? x.trim() : fallback] *)
Definition trimmedOr (x : option jsstring) (fallback : jsstring) : jsstring :=
  match x with
  | Some s => if isEmpty (trim s) then fallback else trim s
  | None => fallback
  end.

(** [[...history].reverse().find((msg) => msg.role === r)] *)
Definition lastWithRole (r : string) (history : list message)
  : option message :=
  find (fun msg => eqs (role msg) (str r)) (rev history).

(** [sendLocalResponse]: the user's message and the answer are stored,
    a summary is scheduled, and the answer is sent with its [done]
    frame. *)
Definition sendLocalResponse (user userPromptForMemory text model : jsstring)
  : list effect :=
  (if isEmpty userPromptForMemory then []
   else [AddMessage user (str "user") userPromptForMemory]) ++
  (if isEmpty text then []
   else [AddMessage user (str "assistant") text; ScheduleSummary user]) ++
  [Send (TokenFrame text); Send (DoneFrame model)].

Definition solverNames : list string :=
  ["simple_arithmetic"; "percent"; "unit_conversion"; "date_math";
   "simple_equation"; "basic_stats"; "list_set"; "sort_filter";
   "string_utils"; "validation"; "regex"].

Definition FOLLOWUP_HEAD : jsstring :=
  str "Explain the previous answer clearly and stay on that topic.".

Definition MINIMAL_SYSTEM : jsstring :=
  str "You are a concise assistant. Answer the user's question directly without using any tools.".

Section Handler.

(** Functions of the server that the handler calls and that are left
    as they are: the arithmetic of [trySolveSimpleMath], the eleven
    solvers that [tryLocalSolvers] goes through, each under its name
    ([None] for null), and three builders of text. *)
Variable trySolveSimpleMath : jsstring -> option Num.f64.
Variable buildLocalMathResponse : jsstring -> Num.f64 -> jsstring.
Variable extractResultSection : jsstring -> jsstring.
Variable solverFn : string -> jsstring -> option jsstring.
Variable buildThinkingResultPrompt :
  jsstring -> jsstring -> jsstring -> jsstring.

(** [tryLocalSolvers]: the first truthy answer, with the name of the
    solver that gave it. *)
Fixpoint firstAnswer (names : list string) (text : jsstring)
  : option (jsstring * jsstring) :=
  match names with
  | [] => None
  | name :: rest =>
      match solverFn name text with
      | Some answer =>
          if isEmpty answer then firstAnswer rest text
          else Some (answer, str name)
      | None => firstAnswer rest text
      end
  end.

Definition tryLocalSolvers (text : jsstring) : option (jsstring * jsstring) :=
  firstAnswer solverNames text.

(** The backend: what [callOllamaGenerate] resolves to, [None] when it
    rejects. *)
Variable callOllamaGenerate : generation -> option jsstring.

(** The rewriting of a vague follow-up: a local answer when the last
    question was arithmetic, else the prompt the handler goes on with. *)
Definition followUp (incomingPrompt : jsstring) (history : list message)
  : jsstring + jsstring :=
  if isVagueFollowup incomingPrompt && (0 <? length history) then
    let lastUserText :=
      match lastWithRole "user" history with
      | Some msg => trim (content msg)
      | None => []
      end in
    let lastAssistantText :=
      match lastWithRole "assistant" history with
      | Some msg => extractResultSection (content msg)
      | None => []
      end in
    match (if isEmpty lastUserText then None
           else trySolveSimpleMath lastUserText) with
    | Some result => inl (buildLocalMathResponse lastUserText result)
    | None =>
        let contextParts :=
          (if isEmpty lastUserText then []
           else [str "Previous question: " ++ lastUserText]) ++
          (if isEmpty lastAssistantText then []
           else [str "Previous answer: " ++ lastAssistantText]) in
        if 0 <? length contextParts
        then inr (FOLLOWUP_HEAD ++ [LF; LF] ++ incomingPrompt ++ [LF; LF] ++
                  join [LF] contextParts)
        else inr incomingPrompt
    end
  else inr incomingPrompt.

(** The prompt the dispatch tests, once the follow-up is rewritten and
    the prompt normalized, with the prompt given to the solvers. *)
Definition dispatchPrompts (p : payload) (incomingPrompt : jsstring)
  : jsstring * jsstring :=
  let basePrompt := trimmedOr (userPrompt p) incomingPrompt in
  let normalized := normalizeUserPrompt basePrompt in
  let changed := negb (eqs normalized basePrompt) in
  (if changed then normalized else incomingPrompt,
   if changed then normalized else basePrompt).

(** The fast question-and-answer path: one generate call, whose answer
    is sent unless it is empty or hedged. *)
Definition simpleQa (reply : jsstring -> jsstring -> list effect)
           (history : list message) (incomingPrompt : jsstring)
  : list effect * outcome :=
  let recentContext :=
    join [LF] (map (fun msg => role msg ++ str ": " ++ content msg)
                   (sliceLast 3 history)) in
  let simplePrompt :=
    (if isEmpty recentContext then []
     else str "Context:" ++ [LF] ++ recentContext ++ [LF; LF]) ++
    str "Question:" ++ [LF] ++ incomingPrompt in
  let call :=
    MkGeneration (str "llama3.2")
                 (buildThinkingResultPrompt simplePrompt MINIMAL_SYSTEM []) in
  match callOllamaGenerate call with
  | Some fastAnswer =>
      if negb (isEmpty fastAnswer) && negb (isUncertainResponse fastAnswer)
      then (Generate call :: reply fastAnswer (str "core-fast"), Returned)
      else ([Generate call], Continues incomingPrompt)
  | None => ([Generate call], Continues incomingPrompt)
  end.

(** The handler of a message whose JSON has been parsed, from the
    payload to the end of the fast paths; [memory] is the conversation
    memory it finds. *)
Definition handle (p : payload) (memory : jsmap (list message))
  : list effect * outcome :=
  let incoming0 := trimmedOr (prompt p) [] in
  if isEmpty incoming0
  then ([Send (ErrorFrame (str "Missing prompt."))], Returned)
  else
    let user := trimmedOr (userId p) (str "anonymous") in
    let memoryHistory := sliceLast 6 (conversationOf user memory) in
    let history :=
      if 0 <? length (conversationHistory p) then conversationHistory p
      else memoryHistory in
    let userPromptForMemory := trimmedOr (userPrompt p) incoming0 in
    let reply := sendLocalResponse user userPromptForMemory in
    match followUp incoming0 history with
    | inl responseText => (reply responseText (str "local-followup"), Returned)
    | inr incoming1 =>
        let '(incomingPrompt, solverPrompt) := dispatchPrompts p incoming1 in
        match tryLocalSolvers solverPrompt with
        | Some (answer, solver) =>
            (reply answer (str "local-" ++ solver), Returned)
        | None =>
            if isTrivialMessage incomingPrompt ||
               isInstantConversationPrompt incomingPrompt
            then (reply (buildInstantConversationResponse incomingPrompt)
                        (str "tiny-sprinter"), Returned)
            else if isSimpleQaFastPath incomingPrompt
            then simpleQa reply history incomingPrompt
            else ([], Continues incomingPrompt)
        end
    end.

(** *** The summary a stored answer schedules *)

Definition SUMMARY_EVERY_MESSAGES : nat := 8.

(** [JSON.stringify] of the messages of the context, left to the
    host. *)
Variable stringify : list message -> jsstring.

Definition summaryPrompt (messages : list message) : jsstring :=
  lines ["Summarize the conversation into JSON with fields:";
         "topic, summary, important_entities, unresolved_questions.";
         "Return ONLY JSON."; ""; "Conversation:"; ""] ++
  stringify messages.

(** [summarizeConversationIfNeeded]: the generate call it makes, if
    any; [tracker] holds the message count at the last summary. *)
Definition summarizeConversationIfNeeded (user : jsstring)
           (memory : jsmap (list message)) (tracker : jsmap nat)
  : option generation :=
  if isEmpty user then None
  else
    let totalMessages := length (conversationOf user memory) in
    if totalMessages <? SUMMARY_EVERY_MESSAGES then None
    else
      let lastCount :=
        match mapGet nat user tracker with
        | Some n => n
        | None => 0
        end in
      if totalMessages - lastCount <? SUMMARY_EVERY_MESSAGES then None
      else Some (MkGeneration (str "llama3.2")
                   (summaryPrompt
                      (sliceLast 10 (conversationOf user memory)))).

(** The memory once the effects of a handler have taken place. *)
Definition memoryAfter (trace : list effect) (memory : jsmap (list message))
  : jsmap (list message) :=
  fold_left (fun m e =>
               match e with
               | AddMessage user r c => addMessage user r c m
               | _ => m
               end)
            trace memory.

(** The generate calls of a handler: those it makes itself, and those
    of the summaries it has scheduled, run once it has returned. *)
Definition generationsOf (trace : list effect) : list generation :=
  flat_map (fun e => match e with Generate call => [call] | _ => [] end)
           trace.

Definition summariesOf (trace : list effect) (memory : jsmap (list message))
           (tracker : jsmap nat) : list generation :=
  flat_map (fun e =>
              match e with
              | ScheduleSummary user =>
                  match summarizeConversationIfNeeded
                          user (memoryAfter trace memory) tracker with
                  | Some call => [call]
                  | None => []
                  end
              | _ => []
              end)
           trace.

End Handler.

End FastPath.

(* ================================================================= *)
(** ** Notions used to state what the regular expressions accept *)

Module Spans.
Import Js Regex.
Local Open Scope list_scope.
Local Open Scope nat_scope.

(** [spans r seg]: wherever the stretch [seg] stands in a text, [r]
    started at its first character can finish right after its last
    one.  The notion suits expressions without assertion; [^], [$] and
    [\b] are dealt with where a pattern is placed in its text. *)
Definition spans (r : re) (seg : jsstring) : Prop :=
  forall (pre post : jsstring) (cs : list (nat * (nat * nat))),
  exists cs',
    In (MkSt (length pre + length seg) cs')
       (run (pre ++ seg ++ post) r (MkSt (length pre) cs)).

(** The same for an expression that ends in assertions: [r] can finish
    after [seg] in the text [pre ++ seg ++ post]. *)
Definition spansIn (r : re) (pre seg post : jsstring) : Prop :=
  forall cs : list (nat * (nat * nat)),
  exists cs',
    In (MkSt (length pre + length seg) cs')
       (run (pre ++ seg ++ post) r (MkSt (length pre) cs)).

(** A text that ends a line, or is empty: [^] with the [m] flag holds
    right after it. *)
Definition lineStart (pre : jsstring) : bool :=
  match prevChar pre (length pre) with
  | None => true
  | Some c => isLineTerminator c
  end.

End Spans.

(* ================================================================= *)
(** ** Sample data used by the examples of Part II *)

Module Samples.
Import Js Num.
Local Open Scope string_scope.
Local Open Scope list_scope.
Local Open Scope nat_scope.

(** A stand-in for [Date.parse] on the examples: a string of decimal
    digits is read as a time in milliseconds, anything else is NaN. *)
Definition stampParse (s : jsstring) : option Z :=
  if negb (isEmpty s) && forallb isDigit s
  then Some (fold_left (fun acc c => acc * 10 + Z.of_nat (code c - 48)) s 0)%Z
  else None.

Definition memo (idText : string) (kw : list string) (expires : option string)
  : MemoryStore.entry :=
  MemoryStore.MkEntry (str idText) (str "prompt") (str "response")
    (map str kw) None (Some (str "u1")) None (str "2024-01-01")
    (option_map str expires).

Definition noOptions : MemoryStore.options :=
  MemoryStore.MkOptions None false None None None.

(** [28 - 4 + 2], [-(2 + 3) * 4] and [1 / (2 - 2)] as syntax. *)
Definition lit (s : string) : Arith.term := Arith.TFactor (Arith.FNum (str s)).

Definition sample_28_4_2 : Arith.expr :=
  Arith.EAdd (Arith.ESub (Arith.ETerm (lit "28")) (lit "4")) (lit "2").

Definition sample_neg_product : Arith.expr :=
  Arith.ENeg
    (Arith.TMul
       (Arith.TFactor
          (Arith.FParen (Arith.EAdd (Arith.ETerm (lit "2")) (lit "3"))))
       (Arith.FNum (str "4"))).

Definition sample_zero_divisor : Arith.expr :=
  Arith.ETerm
    (Arith.TDiv (lit "1")
       (Arith.FParen (Arith.ESub (Arith.ETerm (lit "2")) (lit "2")))).

(** Ranking answers: a grounded list of three items, and an answer
    without list or citation. *)
Definition rankedAnswer : jsstring :=
  lines ["Thinking"; "- (omitted by request)"; ""; "Result";
         "1. GPT-4o [1]"; "2. Claude 3.5 [2]"; "3. Gemini 1.5 [1]"].

Definition vagueAnswer : jsstring := str "Several models are popular.".

Definition arenaSources : list jsstring :=
  [str "[1] Chatbot Arena - https://lmarena.ai";
   str "[2] Open LLM Leaderboard - https://huggingface.co"].

(** Attempts: one that dies of memory pressure after a first token, one
    that takes a minute, and one that answers at once. *)
Definition starvedAttempt : Supervisor.attempt :=
  Supervisor.MkAttempt [(10%Z, str "Let")] 50%Z
    (Some (str "Ollama API error (500): model requires more system memory (5.6 GiB) than is available"))
    None.

Definition slowAttempt : Supervisor.attempt :=
  Supervisor.MkAttempt [(100%Z, str "a"); (40000%Z, str "b")] 60000%Z None
                       None.

Definition quickAttempt : Supervisor.attempt :=
  Supervisor.MkAttempt [(5%Z, str "4"); (6%Z, str "2")] 20%Z None None.

(** Code for the sandbox: a script of a thousand lines that starts by
    importing [os], and a JavaScript one-liner about an offset. *)
Definition longUnsafePython : jsstring :=
  str "import os" ++ [LF] ++
  concat (repeat (str "print(os.getcwd())" ++ [LF]) 1000).

Definition offsetScript : jsstring := str "var offset = 2; offset * 21".

Definition shortUnsafePython : jsstring :=
  lines ["import os"; "print(os.getcwd())"].

Definition unsafeJavaScript : jsstring :=
  str "const fs = require('fs'); fs.readdirSync('.')".

(** Prompts for the classifier: a count asked once with a digit, once
    without, and twice with a digit. *)
Definition countWithDigit : jsstring := str "How many apples are in 3 bags?".

Definition countInWords : jsstring :=
  str "How many apples are in three bags?".

Definition countTwice : jsstring :=
  str "How many cats and how many dogs make 7 pets?".

Definition mathEntry : Intent.config :=
  Intent.MkConfig Intent.MATH_REASONING_patterns None.

Definition noContext : Intent.context := Intent.MkContext None None None.

(** Answers for the formatter: a ranking written as numbered lines
    with names and values, the same with [)] after the numbers, and a
    parser that accepts no chart. *)
Definition numberedRanking : jsstring :=
  lines ["1. USA: 5000"; "2. Russia: 4000"].

Definition parenRanking : jsstring :=
  lines ["1) USA: 5000"; "2) Russia: 4000"].

Definition noChart (json : jsstring) : bool := false.

(** A literal of 401 digits, beyond the largest double, and its
    reciprocal. *)
Definition sample_huge_literal : Js.jsstring :=
  Js.str "1" ++ repeat "0"%char 400.

Definition sample_reciprocal_of_huge : Arith.expr :=
  Arith.ETerm (Arith.TDiv (Arith.TFactor (Arith.FNum (Js.str "1")))
                          (Arith.FNum sample_huge_literal)).

(** A conversation of three exchanges kept for the user [u1], a
    payload that thanks, and a payload that asks how things are after
    a question about cats. *)
Definition chat (r c : string) : FastPath.message :=
  FastPath.MkMessage (str r) (str c).

Definition threeExchanges : ResponseCache.jsmap (list FastPath.message) :=
  [(str "u1",
    [chat "user" "hello"; chat "assistant" "Hi! How can I help?";
     chat "user" "what is a monad"; chat "assistant" "A monoid, roughly.";
     chat "user" "and a functor"; chat "assistant" "A structure-preserving map."])].

Definition thanksPayload : FastPath.payload :=
  FastPath.MkPayload (Some (str "thanks")) (Some (str "u1")) [] None.

Definition catsHistory : list FastPath.message :=
  [chat "user" "tell me about cats"; chat "assistant" "Cats are mammals."].

Definition howAreYouPayload : FastPath.payload :=
  FastPath.MkPayload (Some (str "how are you")) (Some (str "u2"))
                     catsHistory None.

(** The prompt the handler arrives at for [howAreYouPayload]. *)
Definition followUpPrompt : jsstring :=
  lines ["Explain the previous answer clearly and stay on that topic. how are you Previous question: tell me about cats";
         "Previous answer: Cats are mammals."].

Definition howAreYouAlone : FastPath.payload :=
  FastPath.MkPayload (Some (str "how are you")) (Some (str "u2")) [] None.

(** A cache filled to its bound with 500 distinct two-unit keys, oldest
    first. *)
Definition keyOf (n : nat) : jsstring :=
  [ascii_of_nat (n / 256); ascii_of_nat (n mod 256)].

Definition fullCache : ResponseCache.jsmap ResponseCache.cacheEntry :=
  map (fun n => (keyOf n,
                 ResponseCache.MkCacheEntry (str "answer") (Z.of_nat n) None
                                            (str "SIMPLE_QA")))
      (seq 0 500).

(** The file a cache at its bound was saved to: 500 items, every field
    present. *)
Definition savedItems : list ResponseCache.fileItem :=
  map (fun n => ResponseCache.MkFileItem (keyOf n) (str "answer")
                                     (1700000000000 + Z.of_nat n) None
                                     (str "SIMPLE_QA"))
      (seq 0 500).

End Samples.

(* ################################################################# *)
(** * Part II: properties *)

(* ================================================================= *)
(** ** Strings *)

Module JsFacts.
Import Js.

Lemma eqs_true (a b : jsstring) : eqs a b = true <-> a = b.
Proof.
  unfold eqs. destruct (list_eq_dec ascii_dec a b); split; congruence.
Qed.

Lemma eqs_refl (a : jsstring) : eqs a a = true.
Proof. now apply eqs_true. Qed.

Lemma eqs_false (a b : jsstring) : eqs a b = false <-> a <> b.
Proof.
  unfold eqs. destruct (list_eq_dec ascii_dec a b); split; congruence.
Qed.

(** Lower-casing never produces a backslash out of another character. *)
Lemma lowerChar_backslash (c : ascii) :
  lowerChar c = "\"%char -> c = "\"%char.
Proof.
  destruct c as [[] [] [] [] [] [] [] []]; vm_compute; congruence.
Qed.

Lemma sliceLast_length (A : Type) (n : nat) (l : list A) :
  length (sliceLast n l) <= n.
Proof. unfold sliceLast. rewrite length_skipn. lia. Qed.

Lemma sliceLast_suffix (A : Type) (n : nat) (l : list A) :
  l = firstn (length l - n) l ++ sliceLast n l.
Proof. unfold sliceLast. now rewrite firstn_skipn. Qed.

Lemma sliceLast_short (A : Type) (n : nat) (l : list A) :
  length l <= n -> sliceLast n l = l.
Proof.
  intros H. unfold sliceLast.
  replace (length l - n) with 0 by lia. reflexivity.
Qed.

Lemma In_firstn (A : Type) (n : nat) (l : list A) (x : A) :
  In x (firstn n l) -> In x l.
Proof.
  revert l. induction n as [|n IH]; intros [|y l]; simpl; try tauto.
  intros [H|H]; auto.
Qed.

(** *** Trimming *)

Lemma trimStart_suffix (s : jsstring) :
  exists p, s = p ++ trimStart s /\ forallb isSpace p = true.
Proof.
  induction s as [|c s [p [Hp Hs]]]; simpl.
  - exists []. auto.
  - destruct (isSpace c) eqn:E.
    + exists (c :: p). simpl. rewrite E, Hs. split; [now f_equal|reflexivity].
    + exists []. auto.
Qed.

(** The head of a string, when there is one, is not a blank. *)
Definition headSolid (s : jsstring) : Prop :=
  match s with
  | c :: _ => isSpace c = false
  | [] => True
  end.

Lemma trimStart_headSolid (s : jsstring) : headSolid (trimStart s).
Proof.
  induction s as [|c s IH]; simpl; [exact I|].
  destruct (isSpace c) eqn:E; [exact IH|exact E].
Qed.

Lemma trimStart_fixed (s : jsstring) : headSolid s -> trimStart s = s.
Proof. destruct s as [|c s]; simpl; [reflexivity|]. now intros ->. Qed.

Lemma In_trimStart (c : ascii) (s : jsstring) :
  In c s -> isSpace c = false -> In c (trimStart s).
Proof.
  intros Hin Hc. induction s as [|d s IH]; simpl in *; [tauto|].
  destruct Hin as [->|Hin].
  - rewrite Hc. now left.
  - destruct (isSpace d); [now apply IH|now right].
Qed.

Lemma trimStart_In (c : ascii) (s : jsstring) :
  In c (trimStart s) -> In c s.
Proof.
  destruct (trimStart_suffix s) as [p [Hp _]]. intros H.
  rewrite Hp. apply in_or_app. now right.
Qed.

Lemma In_trim (c : ascii) (s : jsstring) :
  In c s -> isSpace c = false -> In c (trim s).
Proof.
  intros Hin Hc. unfold trim, trimEnd.
  apply in_rev. rewrite rev_involutive.
  apply In_trimStart; [|exact Hc].
  apply in_rev. rewrite rev_involutive. now apply In_trimStart.
Qed.

Lemma trim_In (c : ascii) (s : jsstring) : In c (trim s) -> In c s.
Proof.
  unfold trim, trimEnd. intros H.
  apply in_rev in H. apply trimStart_In in H. apply in_rev in H.
  now apply trimStart_In.
Qed.

Lemma headSolid_rev_trimStart_rev (s : jsstring) :
  headSolid s -> headSolid (rev (trimStart (rev s))).
Proof.
  intros Hs. destruct (trimStart_suffix (rev s)) as [p [Hp _]].
  assert (Hs' : s = rev (trimStart (rev s)) ++ rev p).
  { rewrite <- rev_app_distr, <- Hp. now rewrite rev_involutive. }
  destruct (rev (trimStart (rev s))) as [|c u]; [exact I|].
  rewrite Hs' in Hs. exact Hs.
Qed.

Lemma trim_idempotent (s : jsstring) : trim (trim s) = trim s.
Proof.
  unfold trim at 1. unfold trimEnd.
  assert (H1 : headSolid (trim s)).
  { unfold trim, trimEnd. apply headSolid_rev_trimStart_rev.
    apply trimStart_headSolid. }
  rewrite (trimStart_fixed (trim s) H1).
  unfold trim at 1. unfold trimEnd. rewrite rev_involutive.
  rewrite (trimStart_fixed _ (trimStart_headSolid _)).
  reflexivity.
Qed.

End JsFacts.

(* ================================================================= *)
(** ** The memory store: keyword extraction and recall *)

Module MemoryFacts.
Import Js Num MemoryStore JsFacts.

Lemma clean_no_backslash (text : jsstring) :
  ~ In backslash text -> ~ In backslash (clean text).
Proof.
  intros Hno Hin. unfold clean, normalize, toLowerCase in Hin.
  rewrite map_map in Hin. apply in_map_iff in Hin.
  destruct Hin as [c [Hc Hin]]. apply Hno.
  destruct (keptByClean (lowerChar c)).
  - apply lowerChar_backslash in Hc. now subst.
  - discriminate Hc.
Qed.

Lemma splitBackslashS_no_backslash (s : jsstring) :
  ~ In backslash s -> splitBackslashS false s = [s].
Proof.
  induction s as [|c s IH]; intros Hno; simpl; [reflexivity|].
  assert (Hc : Ascii.eqb c backslash = false).
  { apply Ascii.eqb_neq. intros ->. apply Hno. now left. }
  rewrite Hc. simpl. rewrite IH; [reflexivity|].
  intros Hin. apply Hno. now right.
Qed.

Lemma tokenize_no_backslash (text : jsstring) :
  ~ In backslash text ->
  tokenize text = if isEmpty (clean text) then [] else [clean text].
Proof.
  intros Hno. unfold tokenize.
  rewrite splitBackslashS_no_backslash by now apply clean_no_backslash.
  simpl. now destruct (isEmpty (clean text)).
Qed.

Lemma extractKeywords_no_backslash (text : jsstring) :
  ~ In backslash text ->
  extractKeywords text = [] \/ extractKeywords text = [clean text].
Proof.
  intros Hno. unfold extractKeywords.
  rewrite (tokenize_no_backslash text Hno).
  destruct (isEmpty (clean text)); [now left|].
  cbn [filter].
  destruct ((3 <=? length (clean text)) &&
            negb (arrayIncludes (clean text) STOP_WORDS)); [right|left];
    reflexivity.
Qed.

(** Without a query embedding a single token scores 0 or 1. *)
Lemma scoreEntry_single_below_min (e : entry) (k : jsstring) (o : options) :
  qembedding o = None -> fge (scoreEntry e [k] o) MIN_SCORE = false.
Proof.
  intros Ho. unfold scoreEntry. rewrite Ho. simpl.
  destruct (arrayIncludes k (keywords e)); vm_compute; reflexivity.
Qed.

Lemma filterAt_In (nowAt : nat -> Z)
      (keep : Z -> entry -> bool) (l : list entry) (k : nat) (e : entry) :
  In e (filterAt nowAt keep k l) ->
  In e l /\ exists j, keep (nowAt j) e = true.
Proof.
  revert k. induction l as [|x l IH]; intros k; simpl; [tauto|].
  destruct (keep (nowAt k) x) eqn:Hk.
  - intros [->|Hin].
    + split; [now left|eauto].
    + destruct (IH _ Hin) as [H1 H2]. split; [now right|exact H2].
  - intros Hin. destruct (IH _ Hin) as [H1 H2]. split; [now right|exact H2].
Qed.

Lemma filterAt_keeps (nowAt : nat -> Z) (keep : Z -> entry -> bool)
      (l : list entry) (k : nat) (e : entry) :
  (forall now, keep now e = true) -> In e l ->
  In e (filterAt nowAt keep k l).
Proof.
  intros Hkeep. revert k. induction l as [|x l IH]; intros k; simpl; [tauto|].
  intros [->|Hin].
  - rewrite Hkeep. now left.
  - destruct (keep (nowAt k) x); [right|]; now apply IH.
Qed.

Lemma insertSorted_In (x y : scored) (l : list scored) :
  In x (insertSorted y l) -> x = y \/ In x l.
Proof.
  induction l as [|z l IH]; simpl.
  - intros [H|[]]; auto.
  - destruct (before z y); simpl.
    + intros [H|H]; [auto|]. destruct (IH H); auto.
    + intros [H|[H|H]]; auto.
Qed.

Lemma sortByScore_In (x : scored) (l : list scored) :
  In x (sortByScore l) -> In x l.
Proof.
  induction l as [|y l IH]; simpl; [tauto|].
  intros H. apply insertSorted_In in H. destruct H; auto.
Qed.

Section Recall.
Variable dateParse : jsstring -> option Z.

(** What a query returns was in scope and not expired when it was
    examined. *)
Lemma queryMemoryEntries_In (nowAt : nat -> Z) (entries : list entry)
      (query : jsstring) (limit : nat) (o : options) (e : entry) :
  In e (queryMemoryEntries dateParse nowAt entries query limit o) ->
  In e entries /\ exists j, isExpired dateParse (nowAt j) e = false.
Proof.
  unfold queryMemoryEntries.
  destruct (length (extractKeywords query) =? 0); [intros []|].
  intros H. apply in_map_iff in H. destruct H as [[e' sc] [He H]].
  simpl in He. subst e'.
  apply In_firstn in H. apply sortByScore_In in H.
  apply filter_In in H. destruct H as [H _].
  apply in_map_iff in H. destruct H as [e' [He H]].
  inversion He; subst e'. clear He.
  apply filterAt_In in H. destruct H as [Hin [j Hj]].
  split.
  - unfold filterEntriesForUser in Hin.
    destruct (qteamMode o); [destruct (truthyStr (qteamId o))|
                             destruct (negb (truthyStr (quserId o)))];
      try exact Hin; apply filter_In in Hin; tauto.
  - exists j. now apply negb_true_iff in Hj.
Qed.

Lemma isExpired_past (now now' t : Z) (e : entry) (txt : jsstring) :
  expiresAt e = Some txt -> txt <> [] -> dateParse txt = Some t ->
  (t < now)%Z -> (now <= now')%Z -> isExpired dateParse now' e = true.
Proof.
  intros He Hne Hp Hlt Hle. unfold isExpired. rewrite He.
  destruct txt; [congruence|]. simpl. rewrite Hp.
  apply Z.ltb_lt. lia.
Qed.

Lemma isExpired_absent (now : Z) (e : entry) :
  expiresAt e = None \/
  (exists txt, expiresAt e = Some txt /\ dateParse txt = None) ->
  isExpired dateParse now e = false.
Proof.
  unfold isExpired. intros [->|[txt [-> Hp]]]; [reflexivity|].
  rewrite Hp. now destruct (isEmpty txt).
Qed.

End Recall.

End MemoryFacts.

Module MemoryTheorems.
Import Js Num MemoryStore JsFacts MemoryFacts.
Local Open Scope string_scope.
Local Open Scope list_scope.
Local Open Scope nat_scope.

(** The separator of [tokenize] is backslash-s, so ordinary text is one
    token and only a literal backslash followed by s splits it. *)
Example tokenize_plain_text :
  tokenize (str "Hello big world") = [str "hello big world"].
Proof. reflexivity. Qed.

Example tokenize_backslash_s :
  tokenize (str "alpha\sssbeta\gamma") = [str "alpha"; str "beta\gamma"].
Proof. reflexivity. Qed.

(** C10. For a text without a backslash character [extractKeywords]
    returns at most one keyword, which is the whole cleaned text; hence
    for every list of entries and every such query, a recall without a
    query embedding returns the empty list: one keyword scores at most
    1, below [MIN_SCORE] = 2. *)
Theorem C10_single_keyword_recall_is_empty :
  forall text : jsstring,
    ~ In backslash text ->
    length (extractKeywords text) <= 1 /\
    (forall k, In k (extractKeywords text) -> k = clean text) /\
    (forall (dateParse : jsstring -> option Z) (nowAt : nat -> Z)
            (entries : list entry) (limit : nat) (o : options),
        qembedding o = None ->
        queryMemoryEntries dateParse nowAt entries text limit o = []).
Proof.
  intros text Hno.
  destruct (extractKeywords_no_backslash text Hno) as [Hk|Hk].
  - repeat split.
    + rewrite Hk. simpl. lia.
    + rewrite Hk. intros k [].
    + intros. unfold queryMemoryEntries. now rewrite Hk.
  - repeat split.
    + rewrite Hk. simpl. lia.
    + rewrite Hk. intros k [H|[]]. now symmetry.
    + intros dateParse nowAt entries limit o Ho.
      unfold queryMemoryEntries. rewrite Hk. cbn [length Nat.eqb].
      set (scoped := filterAt _ _ _ _).
      assert (Hf : filter (fun it : entry * f64 => fge (snd it) MIN_SCORE)
                     (map (fun e => (e, scoreEntry e [clean text] o)) scoped)
                   = []).
      { induction scoped as [|e l IH]; [reflexivity|]. simpl.
        now rewrite (scoreEntry_single_below_min e (clean text) o Ho). }
      rewrite Hf. simpl. now destruct limit.
Qed.

Lemma C10_witness :
  extractKeywords (str "remember the milk") = [str "remember the milk"] /\
  queryMemoryEntries Samples.stampParse (fun _ => 5000%Z)
    [Samples.memo "m1" ["remember"; "milk"] None;
     Samples.memo "m2" ["remember the milk"] None]
    (str "remember the milk") 4 Samples.noOptions = [].
Proof.
  split; [reflexivity|].
  apply (C10_single_keyword_recall_is_empty (str "remember the milk")).
  - cbv. intuition discriminate.
  - reflexivity.
Defined.

(** C7. An entry whose [expiresAt] parses to a time earlier than now is
    never returned by [queryMemoryEntries] and is absent from what
    [pruneExpiredEntries] keeps; an entry without [expiresAt], or whose
    [expiresAt] does not parse, is never expired and is kept by the
    pruning.  The clock may advance while the entries are examined. *)
Theorem C7_expired_entries_are_dropped :
  forall (dateParse : jsstring -> option Z) (nowAt : nat -> Z)
         (now : Z) (entries : list entry) (e : entry),
    (forall k, (now <= nowAt k)%Z) ->
    (forall txt t,
        expiresAt e = Some txt -> txt <> [] ->
        dateParse txt = Some t -> (t < now)%Z ->
        (forall query limit o,
            ~ In e (queryMemoryEntries dateParse nowAt entries query limit o))
        /\ ~ In e (pruneExpiredEntries dateParse nowAt entries))
    /\
    (expiresAt e = None \/
     (exists txt, expiresAt e = Some txt /\ dateParse txt = None) ->
     (forall t, isExpired dateParse t e = false) /\
     (In e entries -> In e (pruneExpiredEntries dateParse nowAt entries))).
Proof.
  intros dateParse nowAt now entries e Hclock. split.
  - intros txt t He Hne Hp Hlt.
    assert (Hexp : forall j, isExpired dateParse (nowAt j) e = true).
    { intros j. exact (isExpired_past dateParse now (nowAt j) t e txt
                         He Hne Hp Hlt (Hclock j)). }
    split.
    + intros query limit o Hin.
      apply queryMemoryEntries_In in Hin. destruct Hin as [_ [j Hj]].
      rewrite Hexp in Hj. discriminate.
    + intros Hin. apply filterAt_In in Hin. destruct Hin as [_ [j Hj]].
      rewrite Hexp in Hj. discriminate.
  - intros Habs.
    assert (Hnot : forall t, isExpired dateParse t e = false)
      by (intros t; now apply isExpired_absent).
    split; [exact Hnot|].
    intros Hin. apply filterAt_keeps; [|exact Hin].
    intros t. now rewrite Hnot.
Qed.

Lemma C7_witness :
  pruneExpiredEntries Samples.stampParse (fun k => 2000 + Z.of_nat k)%Z
    [Samples.memo "old" ["tea"] (Some "1000");
     Samples.memo "live" ["tea"] (Some "9000");
     Samples.memo "odd" ["tea"] (Some "next week");
     Samples.memo "forever" ["tea"] None]
  = [Samples.memo "live" ["tea"] (Some "9000");
     Samples.memo "odd" ["tea"] (Some "next week");
     Samples.memo "forever" ["tea"] None]
  /\ ~ In (Samples.memo "old" ["tea"] (Some "1000"))
       (pruneExpiredEntries Samples.stampParse (fun k => 2000 + Z.of_nat k)%Z
          [Samples.memo "old" ["tea"] (Some "1000");
           Samples.memo "live" ["tea"] (Some "9000")]).
Proof.
  split; [reflexivity|].
  refine (proj2 (proj1 (C7_expired_entries_are_dropped Samples.stampParse
            (fun k => 2000 + Z.of_nat k)%Z 2000%Z _ _ _) (str "1000") 1000%Z
            _ _ _ _)).
  - intros k. lia.
  - reflexivity.
  - discriminate.
  - reflexivity.
  - reflexivity.
Defined.

(** X9.  What [saveMemory] persists is the tail of its argument: its
    last 500 entries, in their order, or all of them when there are no
    more than 500. *)
Theorem saveMemory_is_bounded_tail :
  forall entries : list entry,
    length (saveMemory entries) = Nat.min 500 (length entries) /\
    (exists dropped, entries = (dropped ++ saveMemory entries)%list) /\
    (length entries <= 500 -> saveMemory entries = entries).
Proof.
  intros entries. unfold saveMemory, MAX_ENTRIES. repeat split.
  - unfold sliceLast. rewrite length_skipn. lia.
  - eexists. apply sliceLast_suffix.
  - apply sliceLast_short.
Qed.

End MemoryTheorems.

(* ================================================================= *)
(** ** The response caches: size bound and eviction order *)

Module CacheFacts.
Import Js Num ResponseCache JsFacts.

Section MapFacts.
Context {V : Type}.

Lemma mapSet_size (k : jsstring) (v : V) (m : jsmap V) :
  mapSize (mapSet k v m) <= S (mapSize m).
Proof.
  unfold mapSize. induction m as [|[k' v'] m IH]; simpl; [lia|].
  destruct (eqs k' k); simpl; lia.
Qed.

Lemma mapDelete_size (k : jsstring) (m : jsmap V) :
  mapSize (mapDelete k m) <= mapSize m.
Proof. unfold mapSize, mapDelete. apply filter_length_le. Qed.

Lemma mapHas_mapSet (k k' : jsstring) (v : V) (m : jsmap V) :
  mapHas k' (mapSet k v m) = eqs k k' || mapHas k' m.
Proof.
  unfold mapHas. induction m as [|[k0 v0] m IH]; simpl.
  - now rewrite orb_false_r.
  - destruct (eqs k0 k) eqn:E; simpl.
    + apply eqs_true in E. subst k0.
      destruct (eqs k k'); reflexivity.
    + rewrite IH. destruct (eqs k0 k'), (eqs k k'); reflexivity.
Qed.

Lemma mapHas_mapDelete (k k' : jsstring) (m : jsmap V) :
  mapHas k' (mapDelete k m) = negb (eqs k k') && mapHas k' m.
Proof.
  unfold mapHas, mapDelete. induction m as [|[k0 v0] m IH]; simpl.
  - now rewrite andb_false_r.
  - destruct (eqs k0 k) eqn:E; simpl.
    + apply eqs_true in E. subst k0. rewrite IH.
      destruct (eqs k k'); reflexivity.
    + rewrite IH. destruct (eqs k0 k') eqn:E'; simpl.
      * apply eqs_true in E'. subst k0.
        assert (eqs k k' = false) as ->; [|reflexivity].
        apply eqs_false. apply eqs_false in E. congruence.
      * reflexivity.
Qed.

(** One write never leaves the map larger than the bound, unless it
    already was. *)
Lemma write_size (bound : nat) (k : jsstring) (v : V) (m : jsmap V) :
  0 < bound ->
  mapSize (mapSet k v (evictIfFull bound m)) <= Nat.max bound (mapSize m).
Proof.
  intros Hb. unfold evictIfFull.
  destruct (bound <=? mapSize m) eqn:E.
  - apply Nat.leb_le in E. destruct m as [|[k0 v0] m'].
    + simpl in E. lia.
    + simpl firstKey. cbv iota.
      pose proof (mapSet_size k v (mapDelete k0 ((k0, v0) :: m'))) as H1.
      assert (H2 : mapSize (mapDelete k0 ((k0, v0) :: m')) <= mapSize m').
      { unfold mapDelete. simpl. rewrite eqs_refl. simpl.
        apply (mapDelete_size k0 m'). }
      unfold mapSize in *. simpl length in *. lia.
  - apply Nat.leb_gt in E.
    pose proof (mapSet_size k v m). lia.
Qed.

(** When the bound is reached the oldest binding goes, the others stay,
    and the written key is present. *)
Lemma write_evicts_oldest (bound : nat) (k k0 : jsstring) (v v0 : V)
      (rest : jsmap V) :
  bound <= mapSize ((k0, v0) :: rest) ->
  mapHas k0 (mapSet k v (evictIfFull bound ((k0, v0) :: rest))) = eqs k k0 /\
  mapHas k (mapSet k v (evictIfFull bound ((k0, v0) :: rest))) = true /\
  (forall k', k' <> k0 -> mapHas k' ((k0, v0) :: rest) = true ->
              mapHas k' (mapSet k v (evictIfFull bound ((k0, v0) :: rest)))
              = true).
Proof.
  intros Hfull. unfold evictIfFull.
  apply Nat.leb_le in Hfull. rewrite Hfull. simpl firstKey. cbv iota.
  repeat split.
  - rewrite mapHas_mapSet, mapHas_mapDelete, eqs_refl. simpl.
    apply orb_false_r.
  - rewrite mapHas_mapSet, eqs_refl. reflexivity.
  - intros k' Hne Hhas.
    rewrite mapHas_mapSet, mapHas_mapDelete, Hhas.
    assert (eqs k0 k' = false) as -> by (apply eqs_false; congruence).
    simpl. apply orb_true_r.
Qed.

End MapFacts.

Lemma setCachedResponse_size (k r : jsstring) (e : option (list f64))
      (i : jsstring) (now : Z) (s : cacheState) :
  mapSize (cache (setCachedResponse k r e i now s))
  <= Nat.max MAX_CACHE_SIZE (mapSize (cache s)).
Proof.
  unfold setCachedResponse, ensureCacheLoaded. cbn [cache].
  assert (Hsame : cache (if negb (cacheLoaded s)
                         then if cacheLoaded s then s
                              else MkState (cache s) true true
                         else s) = cache s)
    by (destruct (cacheLoaded s); reflexivity).
  rewrite Hsame. apply write_size. unfold MAX_CACHE_SIZE. lia.
Qed.

Lemma getCachedResponse_size (k : jsstring) (now : Z) (c : jsmap memoEntry) :
  mapSize (snd (getCachedResponse k now c)) <= mapSize c.
Proof.
  unfold getCachedResponse. destruct (lookupEntry k c) as [entry|].
  - destruct (_ <? _)%Z; cbn [snd]; [apply mapDelete_size|lia].
  - apply mapDelete_size.
Qed.

Lemma fold_memoCalls_bounded (c : jsmap memoEntry) (ws : list memoCall) :
  mapSize c <= MAX_CACHE_ENTRIES ->
  mapSize (fold_left applyMemoCall ws c) <= MAX_CACHE_ENTRIES.
Proof.
  revert c. induction ws as [|[k v t now|k now] ws IH]; intros c Hc; simpl;
    [exact Hc| |].
  - apply IH. unfold storeInCache.
    pose proof (write_size MAX_CACHE_ENTRIES k
                  (MkMemoEntry v now
                     match t with
                     | Some t0 => t0
                     | None => DEFAULT_CACHE_TTL_MS
                     end)
                  c) as H.
    unfold MAX_CACHE_ENTRIES in *. lia.
  - apply IH. pose proof (getCachedResponse_size k now c). lia.
Qed.

End CacheFacts.

Module CacheTheorems.
Import Js Num MemoryStore ResponseCache JsFacts CacheFacts.
Local Open Scope string_scope.
Local Open Scope list_scope.
Local Open Scope nat_scope.

(** C6.  The bound of 500 is lost by the persisted cache.  Started
    with a file of 500 saved items, the first [setCachedResponse] of a
    fresh key runs before the load it has fired; the load then sets the
    500 items next to it without any test of the size, which leaves 501
    entries; and every later write of a fresh key evicts one entry and
    adds one, so that the cache still holds 501 entries after it. *)
Theorem C6_persisted_cache_exceeds_500_after_load :
  let s1 := setCachedResponse (str "fresh") (str "text") None (str "CHAT")
                              1700000000777 initialState in
  let s2 := resumeLoad Samples.savedItems s1 in
  let s3 := setCachedResponse (str "newer") (str "text") None (str "CHAT")
                              1700000000999 s2 in
  length Samples.savedItems = 500 /\
  mapSize (cache s1) = 1 /\
  mapSize (cache s2) = 501 /\
  mapSize (cache s3) = 501 /\
  mapHas (str "fresh") (cache s3) = false /\
  mapHas (str "newer") (cache s3) = true.
Proof. vm_compute. repeat split; reflexivity. Qed.

(** X10.  What the writes do keep.  [setCachedResponse] and [storeInCache]
    never leave a cache larger than the larger of 500 and its size
    before, hence within 500 when it was; the server's in-process
    cache, which only [storeInCache] and [getCachedResponse] touch,
    holds at most 500 entries after any sequence of calls from the
    empty cache; and a write of a new key to a cache of 500 or more
    entries deletes the oldest-inserted key and no other. *)
Theorem cache_writes_keep_the_bound :
  (forall (s : cacheState) k r e i now,
      mapSize (cache (setCachedResponse k r e i now s))
      <= Nat.max 500 (mapSize (cache s)))
  /\
  (forall (c : jsmap memoEntry) k v t now,
      mapSize (storeInCache k v t now c) <= Nat.max 500 (mapSize c))
  /\
  (forall calls : list memoCall,
      mapSize (fold_left applyMemoCall calls []) <= 500)
  /\
  (forall k0 v0 (rest : jsmap cacheEntry) loaded pending k r e i now,
      500 <= mapSize ((k0, v0) :: rest) -> k <> k0 ->
      let c' := cache (setCachedResponse k r e i now
                         (MkState ((k0, v0) :: rest) loaded pending)) in
      mapHas k0 c' = false /\ mapHas k c' = true /\
      forall k', k' <> k0 -> mapHas k' ((k0, v0) :: rest) = true ->
                 mapHas k' c' = true)
  /\
  (forall k0 v0 (rest : jsmap memoEntry) k v t now,
      500 <= mapSize ((k0, v0) :: rest) -> k <> k0 ->
      let c' := storeInCache k v t now ((k0, v0) :: rest) in
      mapHas k0 c' = false /\ mapHas k c' = true /\
      forall k', k' <> k0 -> mapHas k' ((k0, v0) :: rest) = true ->
                 mapHas k' c' = true).
Proof.
  repeat apply conj.
  - intros s k r e i now. apply setCachedResponse_size.
  - intros c k v t now. unfold storeInCache.
    apply (write_size MAX_CACHE_ENTRIES). unfold MAX_CACHE_ENTRIES. lia.
  - intros calls. apply (fold_memoCalls_bounded [] calls). simpl.
    unfold MAX_CACHE_ENTRIES. lia.
  - intros k0 v0 rest loaded pending k r e i now Hfull Hne c'. subst c'.
    unfold setCachedResponse, ensureCacheLoaded. cbn [cache cacheLoaded].
    assert (Hsame : cache (if negb loaded
                           then if loaded
                                then MkState ((k0, v0) :: rest) loaded pending
                                else MkState ((k0, v0) :: rest) true true
                           else MkState ((k0, v0) :: rest) loaded pending)
                    = (k0, v0) :: rest)
      by (destruct loaded; reflexivity).
    rewrite Hsame.
    destruct (write_evicts_oldest MAX_CACHE_SIZE k k0
                (MkCacheEntry r now e i) v0 rest Hfull) as [H1 [H2 H3]].
    repeat split; [|exact H2|exact H3].
    rewrite H1. now apply eqs_false.
  - intros k0 v0 rest k v t now Hfull Hne c'. subst c'.
    unfold storeInCache.
    match goal with
    | |- mapHas k0 (mapSet k ?x _) = false /\ _ =>
        destruct (write_evicts_oldest MAX_CACHE_ENTRIES k k0 x v0 rest Hfull)
          as [H1 [H2 H3]]
    end.
    repeat split; [|exact H2|exact H3].
    rewrite H1. now apply eqs_false.
Qed.

End CacheTheorems.

(* ================================================================= *)
(** ** The arithmetic evaluator *)

Module ArithFacts.
Import Js Num Arith JsFacts.
Local Open Scope string_scope.
Local Open Scope list_scope.
Local Open Scope nat_scope.

Scheme factor_term_expr := Induction for factor Sort Prop
  with term_factor_expr := Induction for term Sort Prop
  with expr_factor_term := Induction for expr Sort Prop.
Combined Scheme syntax_ind
  from factor_term_expr, term_factor_expr, expr_factor_term.

(** *** Rounding never invents a NaN *)

Lemma shr_1_nonneg (mrs : shr_record) :
  (0 <= shr_m mrs)%Z -> (0 <= shr_m (shr_1 mrs))%Z.
Proof.
  destruct mrs as [m r s]. destruct m as [|p|p]; simpl; intros H.
  - lia.
  - destruct p; simpl; lia.
  - lia.
Qed.

Lemma iter_shr_1_nonneg (p : positive) (mrs : shr_record) :
  (0 <= shr_m mrs)%Z -> (0 <= shr_m (iter_pos shr_1 p mrs))%Z.
Proof.
  revert mrs. induction p as [p IH|p IH|]; intros mrs H; simpl.
  - apply IH, IH, shr_1_nonneg, H.
  - apply IH, IH, H.
  - apply shr_1_nonneg, H.
Qed.

Lemma shr_fexp_nonneg (m e : Z) (l : location) :
  (0 <= m)%Z -> (0 <= shr_m (fst (shr_fexp Num.prec Num.emax m e l)))%Z.
Proof.
  intros H. unfold shr_fexp, shr.
  assert (H0 : (0 <= shr_m (shr_record_of_loc m l))%Z).
  { destruct l as [|[]]; simpl; exact H. }
  destruct (fexp Num.prec Num.emax (Zdigits2 m + e) - e)%Z; simpl; try exact H0.
  now apply iter_shr_1_nonneg.
Qed.

Lemma round_nearest_even_nonneg (m : Z) (l : location) :
  (0 <= m)%Z -> (0 <= round_nearest_even m l)%Z.
Proof.
  intros H. destruct l as [|[]]; simpl; try lia.
  destruct (Z.even m); lia.
Qed.

Lemma binary_round_aux_not_nan (sx : bool) (mx ex : Z) (lx : location) :
  (0 <= mx)%Z -> isNaN (binary_round_aux Num.prec Num.emax sx mx ex lx) = false.
Proof.
  intros H. unfold binary_round_aux.
  pose proof (shr_fexp_nonneg mx ex lx H) as H1.
  destruct (shr_fexp Num.prec Num.emax mx ex lx) as [mrs' e']. simpl in H1.
  pose proof (shr_fexp_nonneg _ e' loc_Exact
                (round_nearest_even_nonneg _ (loc_of_shr_record mrs') H1))
    as H2.
  destruct (shr_fexp Num.prec Num.emax _ e' loc_Exact) as [mrs'' e'']. simpl in H2.
  destruct (shr_m mrs'') as [|m|m]; [reflexivity| |lia].
  now destruct (e'' <=? Num.emax - Num.prec)%Z.
Qed.

Lemma ofRatio_not_nan (m : Z) (d : positive) :
  (0 <= m)%Z -> isNaN (ofRatio m d) = false.
Proof.
  intros H. destruct m as [|p|p]; [reflexivity| |lia].
  unfold ofRatio, fdiv, SFdiv.
  destruct (SFdiv_core_binary Num.prec Num.emax (Z.pos p) 0 (Z.pos d) 0)
    as [[mz ez] lz] eqn:E.
  apply binary_round_aux_not_nan.
  unfold SFdiv_core_binary in E.
  set (m' := match (0 - 0 - _)%Z with Z.pos _ => _ | _ => _ end) in E.
  assert (Hm' : (0 <= m')%Z).
  { subst m'. destruct (0 - 0 - _)%Z; try lia.
    apply Z.shiftl_nonneg. lia. }
  pose proof (Z.div_eucl_eq m' (Z.pos d) ltac:(lia)) as Hq.
  pose proof (Z.mod_pos_bound m' (Z.pos d) ltac:(lia)) as Hr.
  unfold Z.modulo in Hr.
  destruct (Z.div_eucl m' (Z.pos d)) as [q r]. inversion E; subst. nia.
Qed.

Lemma digitsValue_nonneg (ds : jsstring) : (0 <= digitsValue ds)%Z.
Proof.
  unfold digitsValue.
  assert (H : forall acc, (0 <= acc)%Z ->
            (0 <= fold_left (fun a c => a * 10 + Z.of_nat (code c - 48))%Z
                            ds acc)%Z).
  { induction ds as [|c ds IH]; intros acc Hacc; simpl; [exact Hacc|].
    apply IH. lia. }
  apply H. lia.
Qed.

Lemma Number_valid (lit : jsstring) :
  validLiteral lit = true -> isNaN (Number lit) = false.
Proof.
  unfold validLiteral, Number.
  destruct (decimalParts lit) as [[ip fp]|]; [|discriminate].
  intros _. apply ofRatio_not_nan, digitsValue_nonneg.
Qed.

(** *** Characters of literals and of rendered expressions *)

Ltac ascii_cases c :=
  destruct c as [[] [] [] [] [] [] [] []]; vm_compute;
  try discriminate; intros; repeat split;
  try reflexivity; try discriminate.

Lemma spanDigits_spec (s : jsstring) :
  s = fst (spanDigits s) ++ snd (spanDigits s) /\
  forallb isDigit (fst (spanDigits s)) = true.
Proof.
  induction s as [|c s [IH1 IH2]]; simpl; [auto|].
  destruct (isDigit c) eqn:E; [|simpl; auto].
  destruct (spanDigits s) as [ds rest]. simpl in *.
  rewrite E, IH2. split; [now f_equal|reflexivity].
Qed.

Lemma isDigit_isNumChar (c : ascii) : isDigit c = true -> isNumChar c = true.
Proof. unfold isNumChar. now intros ->. Qed.

Lemma forallb_isDigit_isNumChar (s : jsstring) :
  forallb isDigit s = true -> forallb isNumChar s = true.
Proof.
  induction s as [|c s IH]; simpl; [reflexivity|].
  intros H. apply andb_true_iff in H. destruct H as [H1 H2].
  now rewrite (isDigit_isNumChar c H1), IH.
Qed.

Lemma validLiteral_chars (lit : jsstring) :
  validLiteral lit = true -> lit <> [] /\ forallb isNumChar lit = true.
Proof.
  unfold validLiteral, decimalParts.
  destruct (spanDigits_spec lit) as [Hs Hd].
  destruct (spanDigits lit) as [ip rest]. simpl in Hs, Hd.
  destruct rest as [|c fp].
  - destruct ip; simpl; [discriminate|]. intros _. subst lit.
    rewrite app_nil_r. split; [discriminate|].
    now apply forallb_isDigit_isNumChar.
  - destruct (Ascii.eqb c "." && forallb isDigit fp &&
              negb (isEmpty ip && isEmpty fp)) eqn:E; [|discriminate].
    intros _. apply andb_true_iff in E. destruct E as [E _].
    apply andb_true_iff in E. destruct E as [Ec Ef].
    apply Ascii.eqb_eq in Ec. subst c lit. split.
    + destruct ip; discriminate.
    + rewrite forallb_app. simpl.
      now rewrite (forallb_isDigit_isNumChar ip Hd),
                  (forallb_isDigit_isNumChar fp Ef).
Qed.

(** A character of an expression text: a digit, a dot or a symbol. *)
Definition plainChar (c : ascii) : bool := isNumChar c || isSymbolChar c.

Lemma isNumChar_facts (c : ascii) :
  isNumChar c = true ->
  isSpace c = false /\ isSymbolChar c = false /\ c <> "("%char /\
  c <> "-"%char.
Proof. ascii_cases c. Qed.

Lemma isSymbolChar_facts (c : ascii) :
  isSymbolChar c = true -> isSpace c = false /\ isNumChar c = false.
Proof. ascii_cases c. Qed.

Lemma plainChar_facts (c : ascii) :
  plainChar c = true -> isSpace c = false /\ isExpressionChar c = true.
Proof. ascii_cases c. Qed.

Lemma isSpace_isExpressionChar (c : ascii) :
  isSpace c = true -> isExpressionChar c = true.
Proof. ascii_cases c. Qed.

Lemma Forall_plain_literal (lit : jsstring) :
  forallb isNumChar lit = true -> Forall (fun c => plainChar c = true) lit.
Proof.
  induction lit as [|c lit IH]; simpl; [constructor|].
  intros H. apply andb_true_iff in H. destruct H as [H1 H2].
  constructor; [|now apply IH]. unfold plainChar. now rewrite H1.
Qed.

Lemma render_plain :
  (forall f, wfF f = true -> Forall (fun c => plainChar c = true) (renderF f))
  /\
  (forall t, wfT t = true -> Forall (fun c => plainChar c = true) (renderT t))
  /\
  (forall e, wfE e = true -> Forall (fun c => plainChar c = true) (renderE e)).
Proof.
  apply syntax_ind; simpl; intros;
    repeat match goal with
           | H : _ && _ = true |- _ =>
               apply andb_true_iff in H; destruct H
           end;
    repeat first [ apply Forall_nil
                 | apply Forall_cons; [reflexivity|]
                 | apply Forall_app; split
                 | solve [auto] ].
  apply Forall_plain_literal. now apply validLiteral_chars.
Qed.

(** A rendered factor or term starts with a digit, a dot or an opening
    parenthesis; it is never empty. *)
Definition headPlain (s : jsstring) : Prop :=
  match s with
  | c :: _ => isNumChar c = true \/ c = "("%char
  | [] => False
  end.

Lemma headPlain_app (a b : jsstring) : headPlain a -> headPlain (a ++ b).
Proof. destruct a; simpl; tauto. Qed.

Lemma render_head :
  (forall f, wfF f = true -> headPlain (renderF f)) /\
  (forall t, wfT t = true -> headPlain (renderT t)) /\
  (forall e : expr, True).
Proof.
  apply syntax_ind; simpl; intros; auto;
    repeat match goal with
           | H : _ && _ = true |- _ =>
               apply andb_true_iff in H; destruct H
           end;
    try (apply headPlain_app; auto).
  destruct (validLiteral_chars lit H) as [Hne Hall].
  destruct lit as [|c lit]; [congruence|]. simpl in *.
  apply andb_true_iff in Hall. tauto.
Qed.

(** *** Blanks *)

Lemma removeSpaces_trimStart (s : jsstring) :
  removeSpaces (trimStart s) = removeSpaces s.
Proof.
  induction s as [|c s IH]; simpl; [reflexivity|].
  destruct (isSpace c) eqn:E; simpl; [exact IH|].
  now rewrite E.
Qed.

Lemma removeSpaces_rev (s : jsstring) :
  removeSpaces (rev s) = rev (removeSpaces s).
Proof.
  unfold removeSpaces. induction s as [|c s IH]; simpl; [reflexivity|].
  rewrite filter_app, IH. simpl.
  destruct (negb (isSpace c)); simpl; [reflexivity|apply app_nil_r].
Qed.

Lemma removeSpaces_trim (s : jsstring) :
  removeSpaces (trim s) = removeSpaces s.
Proof.
  unfold trim, trimEnd.
  rewrite removeSpaces_rev, removeSpaces_trimStart, removeSpaces_rev,
    rev_involutive.
  apply removeSpaces_trimStart.
Qed.

Lemma removeSpaces_plain (s : jsstring) :
  Forall (fun c => isSpace c = false) s -> removeSpaces s = s.
Proof.
  induction 1 as [|c s Hc _ IH]; simpl; [reflexivity|].
  now rewrite Hc, IH.
Qed.

Lemma In_removeSpaces (c : ascii) (s : jsstring) :
  In c (removeSpaces s) <-> In c s /\ isSpace c = false.
Proof.
  unfold removeSpaces. rewrite filter_In.
  now rewrite negb_true_iff.
Qed.

(** *** Normalization of the unary minus *)

Lemma zeroAfterParen_other (c : ascii) (s : jsstring) :
  c <> "("%char -> zeroAfterParen (c :: s) = c :: zeroAfterParen s.
Proof.
  intros Hc. destruct c as [[] [] [] [] [] [] [] []];
    try reflexivity; congruence.
Qed.

Lemma zeroAfterParen_paren (s : jsstring) :
  zeroAfterParen ("("%char :: s) = "("%char :: zeroAfterParen (prefixZero s).
Proof.
  destruct s as [|c s]; [reflexivity|].
  destruct c as [[] [] [] [] [] [] [] []]; reflexivity.
Qed.

Lemma zeroAfterParen_literal (lit rest : jsstring) :
  forallb isNumChar lit = true ->
  zeroAfterParen (lit ++ rest) = lit ++ zeroAfterParen rest.
Proof.
  induction lit as [|c lit IH]; simpl app; [reflexivity|].
  intros H. simpl in H. apply andb_true_iff in H. destruct H as [Hc Hl].
  rewrite zeroAfterParen_other by (apply (isNumChar_facts c Hc)).
  now rewrite IH.
Qed.

Lemma prefixZero_headPlain (s : jsstring) : headPlain s -> prefixZero s = s.
Proof.
  destruct s as [|c s]; simpl; [tauto|]. intros [H| ->]; [|reflexivity].
  revert H. destruct c as [[] [] [] [] [] [] [] []]; intros H;
    try reflexivity; vm_compute in H; discriminate H.
Qed.

(** Unfolds the text of one syntax node and flattens the appends. *)
Ltac unfold_text :=
  cbn [renderF renderT renderE normalF normalT normalE tokensF tokensT
       tokensE postfixF postfixT postfixE app str list_ascii_of_string];
  rewrite <- ?app_assoc;
  cbn [app].

Lemma normalize_syntax :
  (forall f, wfF f = true -> forall rest,
      zeroAfterParen (renderF f ++ rest) = normalF f ++ zeroAfterParen rest)
  /\
  (forall t, wfT t = true -> forall rest,
      zeroAfterParen (renderT t ++ rest) = normalT t ++ zeroAfterParen rest)
  /\
  (forall e, wfE e = true -> forall rest,
      zeroAfterParen (prefixZero (renderE e ++ rest))
      = normalE e ++ zeroAfterParen rest).
Proof.
  apply syntax_ind; simpl wfF; simpl wfT; simpl wfE.
  - (* literal *)
    intros lit Hlit rest. unfold_text.
    apply zeroAfterParen_literal. now apply validLiteral_chars.
  - (* parenthesis *)
    intros e IH He rest. unfold_text.
    rewrite zeroAfterParen_paren, (IH He).
    now rewrite zeroAfterParen_other by discriminate.
  - intros f IH Hf rest. now apply IH.
  - intros t IHt f IHf H rest.
    apply andb_true_iff in H. destruct H as [Ht Hf].
    unfold_text.
    rewrite (IHt Ht), zeroAfterParen_other by discriminate.
    now rewrite (IHf Hf).
  - intros t IHt f IHf H rest.
    apply andb_true_iff in H. destruct H as [Ht Hf].
    unfold_text.
    rewrite (IHt Ht), zeroAfterParen_other by discriminate.
    now rewrite (IHf Hf).
  - intros t IH Ht rest. unfold_text.
    rewrite prefixZero_headPlain
      by (apply headPlain_app; now apply (proj1 (proj2 render_head))).
    now apply IH.
  - intros t IH Ht rest. unfold_text.
    change (prefixZero ("-"%char :: renderT t ++ rest))
      with ("0"%char :: "-"%char :: renderT t ++ rest).
    rewrite !zeroAfterParen_other by discriminate.
    now rewrite (IH Ht).
  - intros e IHe t IHt H rest.
    apply andb_true_iff in H. destruct H as [He Ht].
    unfold_text.
    rewrite (IHe He), zeroAfterParen_other by discriminate.
    now rewrite (IHt Ht).
  - intros e IHe t IHt H rest.
    apply andb_true_iff in H. destruct H as [He Ht].
    unfold_text.
    rewrite (IHe He), zeroAfterParen_other by discriminate.
    now rewrite (IHt Ht).
Qed.

(** *** The tokenizer *)

(** What follows a number is not a digit or a dot. *)
Definition boundary (rest : jsstring) : Prop :=
  match rest with
  | c :: _ => isNumChar c = false
  | [] => True
  end.

Definition prepend (ts : list jsstring) (x : option (list jsstring))
  : option (list jsstring) :=
  option_map (fun rest => ts ++ rest) x.

Lemma prepend_prepend (a b : list jsstring) (x : option (list jsstring)) :
  prepend a (prepend b x) = prepend (a ++ b) x.
Proof. destruct x; simpl; [|reflexivity]. now rewrite app_assoc. Qed.

Lemma tokenizeFrom_literal (lit rest num : jsstring) :
  forallb isNumChar lit = true ->
  tokenizeFrom (lit ++ rest) num = tokenizeFrom rest (num ++ lit).
Proof.
  revert num. induction lit as [|c lit IH]; intros num H; simpl.
  - now rewrite app_nil_r.
  - simpl in H. apply andb_true_iff in H. destruct H as [Hc Hl].
    rewrite Hc, (IH _ Hl), <- app_assoc. reflexivity.
Qed.

Lemma tokenizeFrom_flush (num rest : jsstring) :
  num <> [] -> boundary rest ->
  tokenizeFrom rest num = prepend [num] (tokenizeFrom rest []).
Proof.
  intros Hne Hb. destruct num as [|d num]; [congruence|].
  destruct rest as [|c rest]; simpl in *; [reflexivity|].
  rewrite Hb. destruct (isSymbolChar c); [|reflexivity].
  now destruct (tokenizeFrom rest []).
Qed.

Lemma tokenizeFrom_symbol (c : ascii) (rest : jsstring) :
  isSymbolChar c = true ->
  tokenizeFrom (c :: rest) [] = prepend [[c]] (tokenizeFrom rest []).
Proof.
  intros Hc. simpl.
  rewrite (proj2 (isSymbolChar_facts c Hc)), Hc.
  now destruct (tokenizeFrom rest []).
Qed.

Lemma tokenizeFrom_zero_minus (rest : jsstring) :
  tokenizeFrom ("0"%char :: "-"%char :: rest) []
  = prepend [str "0"; str "-"] (tokenizeFrom rest []).
Proof.
  change ("0"%char :: "-"%char :: rest) with (str "0" ++ "-"%char :: rest).
  rewrite (tokenizeFrom_literal (str "0") _ [] eq_refl). simpl app.
  rewrite tokenizeFrom_flush by (discriminate || reflexivity).
  rewrite tokenizeFrom_symbol by reflexivity.
  now rewrite prepend_prepend.
Qed.

Lemma tokenize_syntax :
  (forall f, wfF f = true -> forall rest, boundary rest ->
      tokenizeFrom (normalF f ++ rest) []
      = prepend (tokensF f) (tokenizeFrom rest []))
  /\
  (forall t, wfT t = true -> forall rest, boundary rest ->
      tokenizeFrom (normalT t ++ rest) []
      = prepend (tokensT t) (tokenizeFrom rest []))
  /\
  (forall e, wfE e = true -> forall rest, boundary rest ->
      tokenizeFrom (normalE e ++ rest) []
      = prepend (tokensE e) (tokenizeFrom rest [])).
Proof.
  apply syntax_ind; simpl wfF; simpl wfT; simpl wfE.
  - intros lit Hlit rest Hb. unfold_text.
    destruct (validLiteral_chars lit Hlit) as [Hne Hall].
    rewrite (tokenizeFrom_literal lit rest [] Hall). simpl app.
    now apply tokenizeFrom_flush.
  - intros e IH He rest Hb. unfold_text.
    rewrite tokenizeFrom_symbol by reflexivity.
    rewrite (IH He) by reflexivity.
    rewrite tokenizeFrom_symbol by reflexivity.
    rewrite !prepend_prepend. reflexivity.
  - intros f IH Hf rest Hb. now apply IH.
  - intros t IHt f IHf H rest Hb.
    apply andb_true_iff in H. destruct H as [Ht Hf]. unfold_text.
    rewrite (IHt Ht) by reflexivity.
    rewrite tokenizeFrom_symbol by reflexivity.
    rewrite (IHf Hf) by exact Hb.
    rewrite !prepend_prepend. now rewrite <- app_assoc.
  - intros t IHt f IHf H rest Hb.
    apply andb_true_iff in H. destruct H as [Ht Hf]. unfold_text.
    rewrite (IHt Ht) by reflexivity.
    rewrite tokenizeFrom_symbol by reflexivity.
    rewrite (IHf Hf) by exact Hb.
    rewrite !prepend_prepend. now rewrite <- app_assoc.
  - intros t IH Ht rest Hb. now apply IH.
  - intros t IH Ht rest Hb. unfold_text.
    rewrite tokenizeFrom_zero_minus, (IH Ht) by exact Hb.
    now rewrite prepend_prepend.
  - intros e IHe t IHt H rest Hb.
    apply andb_true_iff in H. destruct H as [He Ht]. unfold_text.
    rewrite (IHe He) by reflexivity.
    rewrite tokenizeFrom_symbol by reflexivity.
    rewrite (IHt Ht) by exact Hb.
    rewrite !prepend_prepend. now rewrite <- app_assoc.
  - intros e IHe t IHt H rest Hb.
    apply andb_true_iff in H. destruct H as [He Ht]. unfold_text.
    rewrite (IHe He) by reflexivity.
    rewrite tokenizeFrom_symbol by reflexivity.
    rewrite (IHt Ht) by exact Hb.
    rewrite !prepend_prepend. now rewrite <- app_assoc.
Qed.

(** *** The shunting yard *)

Definition addOp (o : jsstring) : Prop := o = str "+" \/ o = str "-".
Definition mulOp (o : jsstring) : Prop := o = str "*" \/ o = str "/".
Definition anyOp (o : jsstring) : Prop := addOp o \/ mulOp o.

(** The operator stack below the expression being read: empty, or
    topped by an opening parenthesis. *)
Definition baseE (stack : list jsstring) : Prop :=
  match stack with
  | [] => True
  | top :: _ => top = str "("
  end.

(** Below a term there may also be a pending additive operator. *)
Definition baseT (stack : list jsstring) : Prop :=
  match stack with
  | [] => True
  | top :: _ => top = str "(" \/ addOp top
  end.

(** At most one pending multiplicative operator. *)
Definition pendingMul (mops : list jsstring) : Prop :=
  mops = [] \/ exists m, mulOp m /\ mops = [m].

Lemma baseE_baseT (stack : list jsstring) : baseE stack -> baseT stack.
Proof. destruct stack; simpl; tauto. Qed.

Lemma pendingMul_anyOp (mops : list jsstring) :
  pendingMul mops -> Forall anyOp mops.
Proof.
  intros [->|[m [Hm ->]]]; [constructor|].
  constructor; [now right|constructor].
Qed.

Lemma toRpnLoop_number (tok : jsstring) (rest out stack : list jsstring) :
  isNaN (Number tok) = false ->
  toRpnLoop (tok :: rest) out stack = toRpnLoop rest (out ++ [tok]) stack.
Proof. intros H. cbn [toRpnLoop]. now rewrite H. Qed.

Lemma toRpnLoop_lparen (rest out stack : list jsstring) :
  toRpnLoop (str "(" :: rest) out stack
  = toRpnLoop rest out (str "(" :: stack).
Proof. reflexivity. Qed.

Lemma toRpnLoop_rparen (rest out stack : list jsstring) :
  toRpnLoop (str ")" :: rest) out stack
  = match popToParen stack out with
    | ([], _) => None
    | (_ :: below, output') => toRpnLoop rest output' below
    end.
Proof. reflexivity. Qed.

Lemma toRpnLoop_operator (o : jsstring) (rest out stack : list jsstring) :
  anyOp o ->
  toRpnLoop (o :: rest) out stack
  = toRpnLoop rest (snd (popOperators o stack out))
              (o :: fst (popOperators o stack out)).
Proof.
  intros [[->| ->]|[->| ->]]; cbn [toRpnLoop];
    match goal with
    | |- (if negb (isNaN (Number ?t)) then _ else _) = _ =>
        change (negb (isNaN (Number t))) with false; cbv iota;
        change (eqs t (str "(")) with false;
        change (eqs t (str ")")) with false;
        change (isOperator t) with true; cbv iota
    end;
    now destruct (popOperators _ stack out).
Qed.

Lemma popOperators_add (o : jsstring) (ops stack out : list jsstring) :
  addOp o -> Forall anyOp ops -> baseE stack ->
  popOperators o (ops ++ stack) out = (stack, out ++ ops).
Proof.
  intros Ho Hops Hb. revert out.
  induction Hops as [|op ops Hop _ IH]; intros out; simpl app.
  - rewrite app_nil_r. destruct stack as [|top below]; [reflexivity|].
    simpl in Hb. subst top. reflexivity.
  - cbn [popOperators].
    assert (Hpop : isOperator op && precGe op o = true).
    { destruct Ho as [->| ->], Hop as [[->| ->]|[->| ->]]; reflexivity. }
    rewrite Hpop, IH, <- app_assoc. reflexivity.
Qed.

Lemma popOperators_mul (o : jsstring) (mops stack out : list jsstring) :
  mulOp o -> pendingMul mops -> baseT stack ->
  popOperators o (mops ++ stack) out = (stack, out ++ mops).
Proof.
  intros Ho Hm Hb.
  assert (Hstop : popOperators o stack out = (stack, out)).
  { destruct stack as [|top below]; [reflexivity|]. simpl in Hb.
    destruct Ho as [->| ->], Hb as [->|[->| ->]]; reflexivity. }
  destruct Hm as [->|[m [Hm ->]]]; simpl app.
  - now rewrite app_nil_r.
  - cbn [popOperators].
    assert (Hpop : isOperator m && precGe m o = true).
    { destruct Ho as [->| ->], Hm as [->| ->]; reflexivity. }
    rewrite Hpop.
    destruct stack as [|top below]; [reflexivity|]. simpl in Hb.
    destruct Ho as [->| ->], Hb as [->|[->| ->]]; reflexivity.
Qed.

Lemma popToParen_ops (ops stack out : list jsstring) :
  Forall anyOp ops ->
  popToParen (ops ++ str "(" :: stack) out = (str "(" :: stack, out ++ ops).
Proof.
  intros Hops. revert out.
  induction Hops as [|op ops Hop _ IH]; intros out; simpl app.
  - now rewrite app_nil_r.
  - cbn [popToParen].
    assert (Hne : eqs op (str "(") = false).
    { destruct Hop as [[->| ->]|[->| ->]]; reflexivity. }
    rewrite Hne, IH, <- app_assoc. reflexivity.
Qed.

Lemma drain_ops (ops out : list jsstring) :
  Forall anyOp ops -> drain ops out = Some (out ++ ops).
Proof.
  intros Hops. revert out.
  induction Hops as [|op ops Hop _ IH]; intros out; cbn [drain].
  - now rewrite app_nil_r.
  - assert (Hne : eqs op (str "(") || eqs op (str ")") = false).
    { destruct Hop as [[->| ->]|[->| ->]]; reflexivity. }
    rewrite Hne, IH, <- app_assoc. reflexivity.
Qed.

(** Unfolds the tokens of one syntax node, keeping each token whole. *)
Ltac unfold_tokens :=
  cbn [tokensF tokensT tokensE postfixF postfixT postfixE app];
  rewrite <- ?app_assoc;
  cbn [app].

Lemma rpn_syntax :
  (forall f, wfF f = true -> forall rest out stack,
      toRpnLoop (tokensF f ++ rest) out stack
      = toRpnLoop rest (out ++ postfixF f) stack)
  /\
  (forall t, wfT t = true -> forall rest out stack, baseT stack ->
      exists mops out',
        pendingMul mops /\ out' ++ mops = out ++ postfixT t /\
        toRpnLoop (tokensT t ++ rest) out stack
        = toRpnLoop rest out' (mops ++ stack))
  /\
  (forall e, wfE e = true -> forall rest out stack, baseE stack ->
      exists ops out',
        Forall anyOp ops /\ out' ++ ops = out ++ postfixE e /\
        toRpnLoop (tokensE e ++ rest) out stack
        = toRpnLoop rest out' (ops ++ stack)).
Proof.
  apply syntax_ind; simpl wfF; simpl wfT; simpl wfE.
  - (* literal *)
    intros lit Hlit rest out stack. unfold_tokens.
    apply toRpnLoop_number. now apply Number_valid.
  - (* parenthesis *)
    intros e IH He rest out stack. unfold_tokens.
    rewrite toRpnLoop_lparen.
    destruct (IH He (str ")" :: rest) out (str "(" :: stack) eq_refl)
      as [ops [out' [Hops [Hout Hrun]]]].
    rewrite Hrun, toRpnLoop_rparen, (popToParen_ops ops stack out' Hops).
    now rewrite Hout.
  - (* a factor as a term *)
    intros f IH Hf rest out stack Hb. unfold_tokens.
    exists [], (out ++ postfixF f). repeat split.
    + now left.
    + apply app_nil_r.
    + now apply IH.
  - (* product *)
    intros t IHt f IHf H rest out stack Hb.
    apply andb_true_iff in H. destruct H as [Ht Hf]. unfold_tokens.
    destruct (IHt Ht (str "*" :: tokensF f ++ rest) out stack Hb)
      as [mops [out1 [Hm [Hout Hrun]]]].
    exists [str "*"], (out1 ++ mops ++ postfixF f). repeat split.
    + right. exists (str "*"). split; [now left|reflexivity].
    + rewrite <- !app_assoc.
      rewrite (app_assoc out1 mops), Hout, <- !app_assoc. reflexivity.
    + rewrite Hrun, (toRpnLoop_operator (str "*")) by (right; now left).
      rewrite (popOperators_mul (str "*") mops stack out1
                 (or_introl eq_refl) Hm Hb).
      cbn [fst snd]. rewrite (IHf Hf), <- app_assoc. reflexivity.
  - (* quotient *)
    intros t IHt f IHf H rest out stack Hb.
    apply andb_true_iff in H. destruct H as [Ht Hf]. unfold_tokens.
    destruct (IHt Ht (str "/" :: tokensF f ++ rest) out stack Hb)
      as [mops [out1 [Hm [Hout Hrun]]]].
    exists [str "/"], (out1 ++ mops ++ postfixF f). repeat split.
    + right. exists (str "/"). split; [now right|reflexivity].
    + rewrite <- !app_assoc.
      rewrite (app_assoc out1 mops), Hout, <- !app_assoc. reflexivity.
    + rewrite Hrun, (toRpnLoop_operator (str "/")) by (right; now right).
      rewrite (popOperators_mul (str "/") mops stack out1
                 (or_intror eq_refl) Hm Hb).
      cbn [fst snd]. rewrite (IHf Hf), <- app_assoc. reflexivity.
  - (* a term as an expression *)
    intros t IH Ht rest out stack Hb. unfold_tokens.
    destruct (IH Ht rest out stack (baseE_baseT stack Hb))
      as [mops [out' [Hm [Hout Hrun]]]].
    exists mops, out'. repeat split; auto using pendingMul_anyOp.
  - (* unary minus *)
    intros t IH Ht rest out stack Hb. unfold_tokens.
    rewrite toRpnLoop_number by reflexivity.
    rewrite (toRpnLoop_operator (str "-")) by (left; now right).
    pose proof (popOperators_add (str "-") [] stack (out ++ [str "0"])
                  (or_intror eq_refl) (Forall_nil _) Hb) as Hpop.
    cbn [app] in Hpop. rewrite Hpop.
    cbn [fst snd]. rewrite app_nil_r.
    destruct (IH Ht rest (out ++ [str "0"]) (str "-" :: stack)
                (or_intror (or_intror eq_refl)))
      as [mops [out' [Hm [Hout Hrun]]]].
    exists (mops ++ [str "-"]), out'. repeat split.
    + apply Forall_app. split; [now apply pendingMul_anyOp|].
      constructor; [left; now right|constructor].
    + rewrite app_assoc, Hout, <- !app_assoc. reflexivity.
    + rewrite Hrun, <- app_assoc. reflexivity.
  - (* sum *)
    intros e IHe t IHt H rest out stack Hb.
    apply andb_true_iff in H. destruct H as [He Ht]. unfold_tokens.
    destruct (IHe He (str "+" :: tokensT t ++ rest) out stack Hb)
      as [ops [out1 [Hops [Hout Hrun]]]].
    rewrite Hrun, (toRpnLoop_operator (str "+")) by (left; now left).
    rewrite (popOperators_add (str "+") ops stack out1
               (or_introl eq_refl) Hops Hb).
    cbn [fst snd].
    destruct (IHt Ht rest (out1 ++ ops) (str "+" :: stack)
                (or_intror (or_introl eq_refl)))
      as [mops [out2 [Hm [Hout2 Hrun2]]]].
    exists (mops ++ [str "+"]), out2. repeat split.
    + apply Forall_app. split; [now apply pendingMul_anyOp|].
      constructor; [left; now left|constructor].
    + rewrite app_assoc, Hout2, Hout, <- !app_assoc. reflexivity.
    + rewrite Hrun2, <- app_assoc. reflexivity.
  - (* difference *)
    intros e IHe t IHt H rest out stack Hb.
    apply andb_true_iff in H. destruct H as [He Ht]. unfold_tokens.
    destruct (IHe He (str "-" :: tokensT t ++ rest) out stack Hb)
      as [ops [out1 [Hops [Hout Hrun]]]].
    rewrite Hrun, (toRpnLoop_operator (str "-")) by (left; now right).
    rewrite (popOperators_add (str "-") ops stack out1
               (or_intror eq_refl) Hops Hb).
    cbn [fst snd].
    destruct (IHt Ht rest (out1 ++ ops) (str "-" :: stack)
                (or_intror (or_intror eq_refl)))
      as [mops [out2 [Hm [Hout2 Hrun2]]]].
    exists (mops ++ [str "-"]), out2. repeat split.
    + apply Forall_app. split; [now apply pendingMul_anyOp|].
      constructor; [left; now right|constructor].
    + rewrite app_assoc, Hout2, Hout, <- !app_assoc. reflexivity.
    + rewrite Hrun2, <- app_assoc. reflexivity.
Qed.

Lemma toRpn_syntax (e : expr) :
  wfE e = true -> toRpn (tokensE e) = Some (postfixE e).
Proof.
  intros He. unfold toRpn.
  destruct (proj2 (proj2 rpn_syntax) e He [] [] [] I)
    as [ops [out' [Hops [Hout Hrun]]]].
  rewrite app_nil_r in Hrun. rewrite Hrun. cbn [toRpnLoop].
  rewrite app_nil_r, (drain_ops ops out' Hops), Hout. reflexivity.
Qed.

(** *** The RPN evaluator *)

Definition continue (rest : list jsstring) (stack : list f64)
           (x : option f64) : option f64 :=
  match x with
  | Some v => evalRpnLoop rest (v :: stack)
  | None => None
  end.

Lemma evalRpnLoop_number (tok : jsstring) (rest : list jsstring)
      (stack : list f64) :
  isNaN (Number tok) = false ->
  evalRpnLoop (tok :: rest) stack = continue rest stack (Some (Number tok)).
Proof. intros H. cbn [evalRpnLoop]. now rewrite H. Qed.

Lemma evalRpnLoop_add (rest : list jsstring) (a b : f64) (stack : list f64) :
  evalRpnLoop (str "+" :: rest) (b :: a :: stack)
  = continue rest stack (machineOp fadd (Some a) (Some b)).
Proof. simpl. now destruct (isFinite a), (isFinite b). Qed.

Lemma evalRpnLoop_sub (rest : list jsstring) (a b : f64) (stack : list f64) :
  evalRpnLoop (str "-" :: rest) (b :: a :: stack)
  = continue rest stack (machineOp fsub (Some a) (Some b)).
Proof. simpl. now destruct (isFinite a), (isFinite b). Qed.

Lemma evalRpnLoop_mul (rest : list jsstring) (a b : f64) (stack : list f64) :
  evalRpnLoop (str "*" :: rest) (b :: a :: stack)
  = continue rest stack (machineOp fmul (Some a) (Some b)).
Proof. simpl. now destruct (isFinite a), (isFinite b). Qed.

Lemma evalRpnLoop_div (rest : list jsstring) (a b : f64) (stack : list f64) :
  evalRpnLoop (str "/" :: rest) (b :: a :: stack)
  = continue rest stack (machineOp divide (Some a) (Some b)).
Proof. simpl. now destruct (isFinite a), (isFinite b). Qed.

Lemma eval_syntax :
  (forall f, wfF f = true -> forall rest stack,
      evalRpnLoop (postfixF f ++ rest) stack
      = continue rest stack (runF f))
  /\
  (forall t, wfT t = true -> forall rest stack,
      evalRpnLoop (postfixT t ++ rest) stack
      = continue rest stack (runT t))
  /\
  (forall e, wfE e = true -> forall rest stack,
      evalRpnLoop (postfixE e ++ rest) stack
      = continue rest stack (runE e)).
Proof.
  apply syntax_ind; simpl wfF; simpl wfT; simpl wfE.
  - intros lit Hlit rest stack. unfold_tokens.
    apply evalRpnLoop_number. now apply Number_valid.
  - intros e IH He rest stack. now apply IH.
  - intros f IH Hf rest stack. now apply IH.
  - intros t IHt f IHf H rest stack.
    apply andb_true_iff in H. destruct H as [Ht Hf]. unfold_tokens.
    cbn [runT]. rewrite (IHt Ht).
    destruct (runT t) as [a|]; [|reflexivity]. cbn [continue].
    rewrite (IHf Hf).
    destruct (runF f) as [b|]; [|reflexivity]. cbn [continue].
    apply evalRpnLoop_mul.
  - intros t IHt f IHf H rest stack.
    apply andb_true_iff in H. destruct H as [Ht Hf]. unfold_tokens.
    cbn [runT]. rewrite (IHt Ht).
    destruct (runT t) as [a|]; [|reflexivity]. cbn [continue].
    rewrite (IHf Hf).
    destruct (runF f) as [b|]; [|reflexivity]. cbn [continue].
    apply evalRpnLoop_div.
  - intros t IH Ht rest stack. now apply IH.
  - intros t IH Ht rest stack. unfold_tokens. cbn [runE].
    rewrite evalRpnLoop_number by reflexivity. cbn [continue].
    change (Number (str "0")) with zero.
    rewrite (IH Ht).
    destruct (runT t) as [b|]; [|reflexivity]. cbn [continue].
    apply evalRpnLoop_sub.
  - intros e IHe t IHt H rest stack.
    apply andb_true_iff in H. destruct H as [He Ht]. unfold_tokens.
    cbn [runE]. rewrite (IHe He).
    destruct (runE e) as [a|]; [|reflexivity]. cbn [continue].
    rewrite (IHt Ht).
    destruct (runT t) as [b|]; [|reflexivity]. cbn [continue].
    apply evalRpnLoop_add.
  - intros e IHe t IHt H rest stack.
    apply andb_true_iff in H. destruct H as [He Ht]. unfold_tokens.
    cbn [runE]. rewrite (IHe He).
    destruct (runE e) as [a|]; [|reflexivity]. cbn [continue].
    rewrite (IHt Ht).
    destruct (runT t) as [b|]; [|reflexivity]. cbn [continue].
    apply evalRpnLoop_sub.
Qed.

Lemma evalRpn_syntax (e : expr) :
  wfE e = true -> evalRpn (postfixE e) = runE e.
Proof.
  intros He. unfold evalRpn.
  rewrite <- (app_nil_r (postfixE e)), (proj2 (proj2 eval_syntax) e He).
  now destruct (runE e).
Qed.

(** *** From the text to the answer *)

Lemma normal_plain :
  (forall f, wfF f = true -> Forall (fun c => plainChar c = true) (normalF f))
  /\
  (forall t, wfT t = true -> Forall (fun c => plainChar c = true) (normalT t))
  /\
  (forall e, wfE e = true -> Forall (fun c => plainChar c = true) (normalE e)).
Proof.
  apply syntax_ind; simpl; intros;
    repeat match goal with
           | H : _ && _ = true |- _ =>
               apply andb_true_iff in H; destruct H
           end;
    repeat first [ apply Forall_nil
                 | apply Forall_cons; [reflexivity|]
                 | apply Forall_app; split
                 | solve [auto] ].
  apply Forall_plain_literal. now apply validLiteral_chars.
Qed.

Lemma Forall_plain_solid (s : jsstring) :
  Forall (fun c => plainChar c = true) s ->
  Forall (fun c => isSpace c = false) s.
Proof.
  apply Forall_impl. intros c Hc. apply (plainChar_facts c Hc).
Qed.

Lemma renderE_nonempty (e : expr) : wfE e = true -> renderE e <> [].
Proof.
  induction e as [t|t|e IH t|e IH t]; simpl; intros H.
  - pose proof (proj1 (proj2 render_head) t H) as Hh.
    destruct (renderT t); [contradiction|discriminate].
  - discriminate.
  - apply andb_true_iff in H. destruct H as [He _].
    specialize (IH He). destruct (renderE e); [congruence|discriminate].
  - apply andb_true_iff in H. destruct H as [He _].
    specialize (IH He). destruct (renderE e); [congruence|discriminate].
Qed.

Lemma tokenizeExpression_syntax (e : expr) :
  wfE e = true -> tokenizeExpression (normalE e) = Some (tokensE e).
Proof.
  intros He. unfold tokenizeExpression.
  rewrite (removeSpaces_plain (normalE e))
    by (apply Forall_plain_solid; now apply normal_plain).
  rewrite <- (app_nil_r (normalE e)).
  rewrite (proj2 (proj2 tokenize_syntax) e He [] I).
  simpl. now rewrite app_nil_r.
Qed.

Lemma looksLikeExpression_rendered (s : jsstring) (e : expr) :
  wfE e = true -> removeSpaces s = renderE e ->
  isEmpty (trim s) = false /\ looksLikeExpression (trim s) = true.
Proof.
  intros He Hs.
  assert (Hne : isEmpty (trim s) = false).
  { destruct (trim s) eqn:E; [|reflexivity].
    pose proof (removeSpaces_trim s) as Ht. rewrite E, Hs in Ht.
    simpl in Ht. symmetry in Ht. now apply renderE_nonempty in Ht. }
  split; [exact Hne|].
  unfold looksLikeExpression. rewrite Hne. simpl.
  apply forallb_forall. intros c Hc. apply trim_In in Hc.
  destruct (isSpace c) eqn:Esp.
  - now apply isSpace_isExpressionChar.
  - assert (Hin : In c (renderE e)).
    { rewrite <- Hs. apply In_removeSpaces. now split. }
    pose proof (proj2 (proj2 render_plain) e He) as Hall.
    rewrite Forall_forall in Hall.
    apply (plainChar_facts c (Hall c Hin)).
Qed.

(** The evaluator on the text of an expression, blanks anywhere. *)
Lemma safeEvaluateExpression_rendered (s : jsstring) (e : expr) :
  wfE e = true -> removeSpaces s = renderE e ->
  safeEvaluateExpression s = machineAnswer e.
Proof.
  intros He Hs. unfold safeEvaluateExpression.
  destruct (looksLikeExpression_rendered s e He Hs) as [Hne Hlook].
  rewrite Hne, Hlook. cbn [negb].
  rewrite removeSpaces_trim, Hs.
  rewrite <- (app_nil_r (renderE e)).
  rewrite (proj2 (proj2 normalize_syntax) e He []).
  cbn [zeroAfterParen]. rewrite app_nil_r.
  rewrite (tokenizeExpression_syntax e He), (toRpn_syntax e He),
    (evalRpn_syntax e He).
  reflexivity.
Qed.

(** A foreign character anywhere makes the evaluator answer null. *)
Lemma safeEvaluateExpression_foreign (s : jsstring) (c : ascii) :
  In c s -> isExpressionChar c = false -> safeEvaluateExpression s = None.
Proof.
  intros Hin Hc. unfold safeEvaluateExpression.
  destruct (isEmpty (trim s)); [reflexivity|].
  assert (Hlook : looksLikeExpression (trim s) = false).
  { unfold looksLikeExpression. apply andb_false_iff. right.
    destruct (forallb isExpressionChar (trim s)) eqn:E; [|reflexivity].
    rewrite forallb_forall in E.
    assert (Hsp : isSpace c = false).
    { destruct (isSpace c) eqn:Esp; [|reflexivity].
      apply isSpace_isExpressionChar in Esp. congruence. }
    rewrite (E c (In_trim c s Hin Hsp)) in Hc. discriminate. }
  now rewrite Hlook.
Qed.

Lemma safeEvaluateExpression_finite (s : jsstring) (v : f64) :
  safeEvaluateExpression s = Some v -> isFinite v = true.
Proof.
  unfold safeEvaluateExpression.
  destruct (isEmpty (trim s)); [discriminate|].
  destruct (negb (looksLikeExpression (trim s))); [discriminate|].
  destruct (tokenizeExpression _) as [tokens|]; [|discriminate].
  destruct (toRpn tokens) as [rpn|]; [|discriminate].
  destruct (evalRpn rpn) as [r|]; [|discriminate].
  destruct (isFinite r) eqn:E; [|discriminate].
  intros H. inversion H. now subst.
Qed.

Lemma machineAnswer_finite (e : expr) (v : f64) :
  machineAnswer e = Some v -> isFinite v = true.
Proof.
  unfold machineAnswer. destruct (runE e) as [r|]; [|discriminate].
  destruct (isFinite r) eqn:E; [|discriminate].
  intros H. inversion H. now subst.
Qed.

(** *** The machine's run against the IEEE value *)

(** The run of an expression agrees with its IEEE value: it is that
    value when the expression is tame, and otherwise it stops or ends
    on a value that is not finite. *)
Definition agrees (tame : bool) (run : option f64) (v : f64) : Prop :=
  if tame then run = Some v
  else match run with Some r => isFinite r = false | None => True end.

Lemma agrees_binop (op : f64 -> f64 -> f64) (ta tb : bool)
      (x y : option f64) (a b : f64) :
  agrees ta x a -> agrees tb y b ->
  agrees (ta && tb && isFinite a && isFinite b) (machineOp op x y) (op a b).
Proof.
  unfold agrees. destruct ta, tb; cbn [andb]; intros Hx Hy; subst;
    cbn [machineOp].
  - destruct (isFinite a), (isFinite b); cbn [andb]; reflexivity || exact I.
  - destruct y as [r|]; [|exact I]. rewrite Hy, andb_false_r. exact I.
  - destruct x as [r|]; [|exact I]. cbn [machineOp]. rewrite Hx. exact I.
  - destruct x as [r|]; [|exact I]. destruct y as [r'|]; [|exact I].
    cbn [machineOp]. rewrite Hx. exact I.
Qed.

Lemma agrees_divide (ta tb : bool) (x y : option f64) (a b : f64) :
  agrees ta x a -> agrees tb y b ->
  agrees (ta && tb && isFinite a && isFinite b && negb (isZero b))
         (machineOp divide x y) (fdiv a b).
Proof.
  intros Hx Hy. pose proof (agrees_binop divide _ _ _ _ _ _ Hx Hy) as H.
  destruct (ta && tb && isFinite a && isFinite b) eqn:E; cbn [andb].
  - unfold agrees in H |- *. rewrite H. unfold divide.
    destruct (isZero b); cbn [negb]; reflexivity.
  - exact H.
Qed.

Lemma run_ieee :
  (forall f, agrees (tameF f) (runF f) (ieeeF f)) /\
  (forall t, agrees (tameT t) (runT t) (ieeeT t)) /\
  (forall e, agrees (tameE e) (runE e) (ieeeE e)).
Proof.
  apply syntax_ind;
    cbn [runF runT runE tameF tameT tameE ieeeF ieeeT ieeeE];
    intros; try assumption.
  - reflexivity.
  - now apply agrees_binop.
  - now apply agrees_divide.
  - assert (H0 : agrees true (Some zero) zero) by reflexivity.
    pose proof (agrees_binop fsub _ _ _ _ _ _ H0 H) as H1.
    change (isFinite zero) with true in H1. cbn [andb] in H1.
    now rewrite andb_true_r in H1.
  - now apply agrees_binop.
  - now apply agrees_binop.
Qed.

Lemma machineAnswer_ieee (e : expr) :
  machineAnswer e
  = if tameE e && isFinite (ieeeE e) then Some (ieeeE e) else None.
Proof.
  pose proof (proj2 (proj2 run_ieee) e) as H.
  unfold machineAnswer, agrees in *. destruct (tameE e); cbn [andb].
  - now rewrite H.
  - destruct (runE e) as [r|]; [|reflexivity]. now rewrite H.
Qed.

Lemma dividesByZero_untamed :
  (forall f, dividesByZeroF f = true -> tameF f = false) /\
  (forall t, dividesByZeroT t = true -> tameT t = false) /\
  (forall e, dividesByZeroE e = true -> tameE e = false).
Proof.
  apply syntax_ind;
    cbn [dividesByZeroF dividesByZeroT dividesByZeroE tameF tameT tameE];
    intros;
    repeat match goal with
           | H : _ || _ = true |- _ =>
               apply orb_true_iff in H; destruct H
           end;
    try discriminate;
    repeat match goal with
           | IH : ?P = true -> ?Q = false, H : ?P = true |- _ =>
               rewrite (IH H); clear IH
           end;
    try match goal with H : isZero _ = true |- _ => rewrite H end;
    cbn [andb negb]; rewrite ?andb_false_r; cbn [andb]; auto.
Qed.

(** *** Texts of the class that no expression has *)

(** No plus sign of the text stands right after an opening
    parenthesis, [prev] being the character before the text. *)
Fixpoint noPlusAfterParen (prev : ascii) (s : jsstring) : bool :=
  match s with
  | [] => true
  | c :: s' =>
      negb (Ascii.eqb prev "(" && Ascii.eqb c "+") && noPlusAfterParen c s'
  end.

Lemma last_cons_default (c d : ascii) (s : jsstring) :
  last (c :: s) d = last s c.
Proof.
  revert c d. induction s as [|x s IH]; intros c d; [reflexivity|].
  change (last (c :: x :: s) d) with (last (x :: s) d).
  now rewrite (IH x d), (IH x c).
Qed.

Lemma last_app_default (a b : jsstring) (d : ascii) :
  last (a ++ b) d = last b (last a d).
Proof.
  revert d. induction a as [|c a IH]; intros d; [reflexivity|].
  rewrite <- app_comm_cons, !last_cons_default. apply IH.
Qed.

Lemma noPlusAfterParen_app (prev : ascii) (a b : jsstring) :
  noPlusAfterParen prev (a ++ b)
  = noPlusAfterParen prev a && noPlusAfterParen (last a prev) b.
Proof.
  revert prev. induction a as [|c a IH]; intros prev; [reflexivity|].
  rewrite <- app_comm_cons. cbn [noPlusAfterParen].
  now rewrite IH, last_cons_default, andb_assoc.
Qed.

Lemma noPlusAfterParen_literal (prev : ascii) (lit : jsstring) :
  forallb isNumChar lit = true ->
  noPlusAfterParen prev lit = true /\
  (prev <> "("%char -> last lit prev <> "("%char).
Proof.
  revert prev. induction lit as [|c lit IH]; intros prev H; simpl in H.
  - split; [reflexivity|auto].
  - apply andb_true_iff in H. destruct H as [Hc Hl].
    destruct (IH c Hl) as [IH1 IH2].
    assert (Hp : c <> "("%char) by apply (isNumChar_facts c Hc).
    split.
    + cbn [noPlusAfterParen]. rewrite IH1, andb_true_r.
      replace (Ascii.eqb c "+") with false;
        [now rewrite andb_false_r|].
      clear -Hc. revert Hc. ascii_cases c.
    + intros _. rewrite last_cons_default. now apply IH2.
Qed.

(** The text of an expression is not empty, does not end on an opening
    parenthesis and has no plus sign right after one. *)
Definition plusFree (s : jsstring) : Prop :=
  s <> [] /\
  (forall d, last s d <> "("%char) /\
  (forall prev, noPlusAfterParen prev s = true).

Lemma plusFree_join (a b : jsstring) (c : ascii) :
  plusFree a -> plusFree b ->
  plusFree (a ++ c :: b).
Proof.
  intros (Ha & Hla & Hsa) (Hb & Hlb & Hsb). repeat split.
  - destruct a; discriminate.
  - intros d. rewrite last_app_default, last_cons_default. apply Hlb.
  - intros prev. rewrite noPlusAfterParen_app, Hsa.
    cbn [noPlusAfterParen andb]. rewrite Hsb, andb_true_r.
    destruct (Ascii.eqb_spec (last a prev) "("%char) as [E|_];
      [now apply Hla in E|reflexivity].
Qed.

Lemma render_plusFree :
  (forall f, wfF f = true -> plusFree (renderF f)) /\
  (forall t, wfT t = true -> plusFree (renderT t)) /\
  (forall e, wfE e = true -> plusFree (renderE e)).
Proof.
  apply syntax_ind; cbn [wfF wfT wfE renderF renderT renderE]; intros;
    repeat match goal with
           | H : _ && _ = true |- _ =>
               apply andb_true_iff in H; destruct H
           end;
    try (apply plusFree_join; auto; fail); auto.
  - destruct (validLiteral_chars lit H) as [Hne Hall]. repeat split.
    + exact Hne.
    + intros d. destruct lit as [|c lit]; [congruence|].
      rewrite last_cons_default. simpl in Hall.
      apply andb_true_iff in Hall. destruct Hall as [Hc Hl].
      apply (noPlusAfterParen_literal c lit Hl).
      apply (isNumChar_facts c Hc).
    + intros prev. now apply noPlusAfterParen_literal.
  - destruct (H H0) as (Hne & Hl & Hs). repeat split.
    + discriminate.
    + intros d. change (str "(" ++ renderE e ++ str ")")
        with ("("%char :: renderE e ++ [")"%char]).
      rewrite last_cons_default, last_app_default. discriminate.
    + intros prev.
      change (str "(" ++ renderE e ++ str ")")
        with ("("%char :: renderE e ++ [")"%char]).
      cbn [noPlusAfterParen]. rewrite noPlusAfterParen_app, Hs.
      cbn [noPlusAfterParen]. now rewrite !andb_false_r.
  - destruct (H H0) as (Hne & Hl & Hs). repeat split.
    + discriminate.
    + intros d. change (str "-" ++ renderT t) with ("-"%char :: renderT t).
      rewrite last_cons_default. apply Hl.
    + intros prev. change (str "-" ++ renderT t) with ("-"%char :: renderT t).
      cbn [noPlusAfterParen]. rewrite Hs. now rewrite andb_false_r.
Qed.

Section SolverFacts.
Variable numberToString : f64 -> jsstring.

(** The solver answers exactly when the evaluator does, and prints
    what the evaluator returned. *)
Lemma simpleArithmeticSolver_spec (prompt : jsstring) :
  simpleArithmeticSolver numberToString prompt
  = match safeEvaluateExpression prompt with
    | Some v =>
        Some (envelope (removeSpaces (trim prompt) ++ str " = " ++
                        numberToString v))
    | None => None
    end.
Proof.
  unfold simpleArithmeticSolver.
  assert (Hsame : safeEvaluateExpression (trim prompt)
                  = safeEvaluateExpression prompt).
  { unfold safeEvaluateExpression. now rewrite trim_idempotent. }
  rewrite Hsame. unfold safeEvaluateExpression.
  destruct (isEmpty (trim prompt)); [reflexivity|].
  destruct (negb (looksLikeExpression (trim prompt))); reflexivity.
Qed.

End SolverFacts.

End ArithFacts.

Module ArithTheorems.
Import Js Num Arith JsFacts ArithFacts.
Local Open Scope string_scope.
Local Open Scope list_scope.
Local Open Scope nat_scope.

(** C1, amended.  On the text of an expression built from decimal
    literals with [+ - * /] and parentheses, blanks anywhere,
    [safeEvaluateExpression] returns the IEEE double that the
    expression tree denotes under the
    usual precedence with left association, a minus sign at the start
    or right after an opening parenthesis subtracting its term from
    zero, provided every operation has finite operands, no divisor is
    zero and the value is finite; otherwise it returns null.  It
    returns null as soon as the text holds a character outside digits,
    dot, blanks and [+ - * / ( )]; the number it returns is always
    finite, and an expression with a zero divisor gets null.
    [simpleArithmeticSolver] answers exactly when the evaluator does,
    and prints the evaluator's number. *)
Theorem C1_arithmetic_evaluator_agrees_with_expression_tree :
  (forall (e : expr) (s : jsstring),
      wfE e = true -> removeSpaces s = renderE e ->
      safeEvaluateExpression s
      = if tameE e && isFinite (ieeeE e) then Some (ieeeE e) else None)
  /\
  (forall (s : jsstring) (c : ascii),
      In c s -> isExpressionChar c = false ->
      safeEvaluateExpression s = None)
  /\
  (forall (s : jsstring) (v : f64),
      safeEvaluateExpression s = Some v -> isFinite v = true)
  /\
  (forall (e : expr) (s : jsstring),
      wfE e = true -> removeSpaces s = renderE e ->
      dividesByZeroE e = true -> safeEvaluateExpression s = None)
  /\
  (forall (numberToString : f64 -> jsstring) (prompt : jsstring),
      simpleArithmeticSolver numberToString prompt
      = match safeEvaluateExpression prompt with
        | Some v =>
            Some (envelope (removeSpaces (trim prompt) ++ str " = " ++
                            numberToString v))
        | None => None
        end).
Proof.
  repeat apply conj.
  - intros e s He Hs.
    rewrite (safeEvaluateExpression_rendered s e He Hs).
    apply machineAnswer_ieee.
  - exact safeEvaluateExpression_foreign.
  - exact safeEvaluateExpression_finite.
  - intros e s He Hs Hz.
    rewrite (safeEvaluateExpression_rendered s e He Hs), machineAnswer_ieee.
    now rewrite (proj2 (proj2 dividesByZero_untamed) e Hz).
  - exact simpleArithmeticSolver_spec.
Qed.

Lemma C1_witness :
  safeEvaluateExpression (str "28 - 4 + 2") = Some (ofNat 26) /\
  safeEvaluateExpression (str " -(2+3) * 4") = Some (fsub zero (ofNat 20)) /\
  safeEvaluateExpression (str "1/(2-2)") = None /\
  safeEvaluateExpression (str "2 + two") = None.
Proof.
  repeat apply conj.
  - rewrite (proj1 C1_arithmetic_evaluator_agrees_with_expression_tree
               Samples.sample_28_4_2 (str "28 - 4 + 2") eq_refl eq_refl).
    vm_compute. reflexivity.
  - rewrite (proj1 C1_arithmetic_evaluator_agrees_with_expression_tree
               Samples.sample_neg_product (str " -(2+3) * 4") eq_refl eq_refl).
    vm_compute. reflexivity.
  - apply (proj1 (proj2 (proj2 (proj2
             C1_arithmetic_evaluator_agrees_with_expression_tree)))
             Samples.sample_zero_divisor (str "1/(2-2)") eq_refl eq_refl).
    vm_compute. reflexivity.
  - apply (proj1 (proj2 C1_arithmetic_evaluator_agrees_with_expression_tree)
             (str "2 + two") "t"%char).
    + simpl. tauto.
    + reflexivity.
Defined.

(** C1 as stated fails twice.  The text [3(+4)] is made of
    characters of the class and is the text of no expression, yet the
    evaluator returns 7 for it and the solver prints that answer.  And
    the reciprocal of a literal too large for a double has the IEEE
    value 0, which is finite, yet the evaluator returns null. *)
Lemma C1_counterexample :
  (forallb isExpressionChar (str "3(+4)") = true /\
   (forall e : expr, wfE e = true -> renderE e <> str "3(+4)") /\
   safeEvaluateExpression (str "3(+4)") = Some (ofNat 7) /\
   (forall numberToString : f64 -> jsstring,
       simpleArithmeticSolver numberToString (str "3(+4)")
       = Some (envelope (str "3(+4) = " ++ numberToString (ofNat 7)))))
  /\
  (wfE Samples.sample_reciprocal_of_huge = true /\
   ieeeE Samples.sample_reciprocal_of_huge = zero /\
   safeEvaluateExpression (renderE Samples.sample_reciprocal_of_huge)
   = None).
Proof.
  assert (Hseven : safeEvaluateExpression (str "3(+4)") = Some (ofNat 7))
    by (vm_compute; reflexivity).
  split; [repeat apply conj|repeat apply conj].
  - reflexivity.
  - intros e He Hr.
    pose proof (proj2 (proj2 (proj2 (proj2 render_plusFree) e He))
                  "x"%char) as Hscan.
    rewrite Hr in Hscan. vm_compute in Hscan. discriminate.
  - exact Hseven.
  - intros numberToString.
    rewrite simpleArithmeticSolver_spec, Hseven. reflexivity.
  - vm_compute. reflexivity.
  - vm_compute. reflexivity.
  - vm_compute. reflexivity.
Qed.

(** The value is the correctly rounded one: 0.1 + 0.2 is the double
    0.30000000000000004, one unit in the last place above 0.3. *)
Example tenth_plus_fifth :
  safeEvaluateExpression (str "0.1+0.2")
  = Some (S754_finite false 5404319552844596 (-54)) /\
  safeEvaluateExpression (str "0.3")
  = Some (S754_finite false 5404319552844595 (-54)).
Proof. vm_compute. split; reflexivity. Qed.

(** A minus sign elsewhere is not read as unary. *)
Example minus_after_operator :
  safeEvaluateExpression (str "2*-3") = None.
Proof. vm_compute. reflexivity. Qed.

End ArithTheorems.

(* ================================================================= *)
(** ** The matcher: searching, and texts that gain a prefix *)

Module RegexFacts.
Import Js Regex.
Local Open Scope list_scope.
Local Open Scope nat_scope.

Lemma flat_map_map_l (A B C : Type) (f : B -> list C) (g : A -> B)
      (l : list A) :
  flat_map f (map g l) = flat_map (fun x => f (g x)) l.
Proof.
  induction l as [|x l IH]; simpl; [reflexivity|]. now rewrite IH.
Qed.

Lemma map_flat_map (A B C : Type) (f : A -> list B) (g : B -> C)
      (l : list A) :
  map g (flat_map f l) = flat_map (fun x => map g (f x)) l.
Proof.
  induction l as [|x l IH]; simpl; [reflexivity|].
  now rewrite map_app, IH.
Qed.

Lemma flat_map_pointwise (A B : Type) (f g : A -> list B) (l : list A) :
  (forall x, f x = g x) -> flat_map f l = flat_map g l.
Proof.
  intros H. induction l as [|x l IH]; simpl; [reflexivity|].
  now rewrite H, IH.
Qed.

Lemma flat_map_nonempty (A B : Type) (f : A -> list B) (l : list A) :
  flat_map f l <> [] <-> exists x, In x l /\ f x <> [].
Proof.
  induction l as [|x l IH]; simpl.
  - split; [congruence|]. intros [x [[] _]].
  - split.
    + intros H. destruct (f x) eqn:E.
      * simpl in H. apply IH in H. destruct H as [y [Hy Hf]].
        exists y. split; [now right|exact Hf].
      * exists x. split; [now left|]. rewrite E. discriminate.
    + intros [y [[->|Hy] Hf]].
      * destruct (f y); [congruence|discriminate].
      * assert (flat_map f l <> []) by (apply IH; eauto).
        destruct (f x); simpl; [assumption|discriminate].
Qed.

(** A repetition may always stop where it started. *)
Lemma starIter_self (body : mstate -> list mstate) (g : bool) (fuel : nat)
      (st0 : mstate) :
  In st0 (starIter body g fuel st0).
Proof.
  destruct fuel; simpl; [now left|].
  destruct g; [apply in_or_app; right|]; now left.
Qed.

(** *** Searching *)

Lemma matchAt_none (r : re) (s : jsstring) (i : nat) :
  matchAt r s i = None <-> run s r (MkSt i []) = [].
Proof.
  unfold matchAt. destruct (run s r (MkSt i [])); split; congruence.
Qed.

Lemma searchFrom_found (r : re) (s : jsstring) (fuel i j : nat) :
  i <= j <= i + fuel -> matchAt r s j <> None ->
  searchFrom r s fuel i <> None.
Proof.
  revert i. induction fuel as [|f IH]; intros i Hj Hm; simpl.
  - assert (j = i) by lia. subst j.
    destruct (matchAt r s i); congruence.
  - destruct (matchAt r s i) eqn:E; [discriminate|].
    apply IH; [|exact Hm].
    assert (j <> i) by (intros ->; congruence). lia.
Qed.

Lemma searchFrom_sound (r : re) (s : jsstring) (fuel i : nat) :
  searchFrom r s fuel i <> None ->
  exists j, i <= j <= i + fuel /\ matchAt r s j <> None.
Proof.
  revert i. induction fuel as [|f IH]; intros i; simpl.
  - destruct (matchAt r s i) eqn:E; [|congruence].
    intros _. exists i. split; [lia|congruence].
  - destruct (matchAt r s i) eqn:E.
    + intros _. exists i. split; [lia|congruence].
    + intros H. destruct (IH _ H) as [j [Hj Hm]].
      exists j. split; [lia|exact Hm].
Qed.

Lemma test_true_iff (r : re) (s : jsstring) :
  test r s = true <->
  exists j, j <= length s /\ run s r (MkSt j []) <> [].
Proof.
  unfold test, exec. simpl (length s <? 0). cbv iota.
  rewrite Nat.sub_0_r. split.
  - intros H.
    destruct (searchFrom r s (length s) 0) eqn:E; [|discriminate].
    destruct (searchFrom_sound r s (length s) 0) as [j [Hj Hm]];
      [congruence|].
    exists j. split; [lia|]. intros Hr. apply Hm. now apply matchAt_none.
  - intros [j [Hj Hr]].
    assert (Hs : searchFrom r s (length s) 0 <> None).
    { apply (searchFrom_found r s (length s) 0 j); [lia|].
      intros Hm. apply Hr. now apply matchAt_none. }
    destruct (searchFrom r s (length s) 0); [reflexivity|now elim Hs].
Qed.

Lemma matchAll_nonempty (r : re) (s : jsstring) :
  test r s = true -> 0 < length (matchAll r s).
Proof.
  unfold test, matchAll. cbn [matchAllFrom].
  destruct (exec r s 0) as [[b st]|]; [|discriminate].
  intros _. simpl. lia.
Qed.

Lemma matchAll_empty (r : re) (s : jsstring) :
  test r s = false -> matchAll r s = [].
Proof.
  unfold test, matchAll. cbn [matchAllFrom].
  now destruct (exec r s 0) as [[b st]|].
Qed.

(** *** A text that gains a prefix ending a line *)

Definition shiftCap (k : nat) (c : nat * (nat * nat)) : nat * (nat * nat) :=
  (fst c, (k + fst (snd c), k + snd (snd c))).

Definition shiftSt (k : nat) (st : mstate) : mstate :=
  MkSt (k + pos st) (map (shiftCap k) (caps st)).

(** No [^] without the [m] flag. *)
Fixpoint multilineOnly (r : re) : bool :=
  match r with
  | Bol m => m
  | Cat a b | Alt a b => multilineOnly a && multilineOnly b
  | Star _ a | Grp _ a => multilineOnly a
  | Eps | Cls _ | Eol _ | Wb => true
  end.

Definition endsLine (p : jsstring) : Prop :=
  exists q c, p = q ++ [c] /\ isLineTerminator c = true.

Lemma charAt_prefix (p s : jsstring) (i : nat) :
  charAt (p ++ s) (length p + i) = charAt s i.
Proof.
  unfold charAt. rewrite nth_error_app2 by lia.
  f_equal. lia.
Qed.

Lemma prevChar_prefix (p s : jsstring) (i : nat) :
  endsLine p ->
  prevChar (p ++ s) (length p + i) = prevChar s i \/
  (i = 0 /\ prevChar s 0 = None /\
   exists c, prevChar (p ++ s) (length p + 0) = Some c /\
             isLineTerminator c = true).
Proof.
  intros [q [c [-> Hc]]]. rewrite length_app. simpl length.
  replace (length q + 1 + i) with (S (length q + i)) by lia.
  destruct i as [|j].
  - right. repeat split. exists c. split; [|exact Hc].
    replace (length q + 1 + 0) with (S (length q + 0)) by lia.
    simpl. rewrite <- app_assoc. rewrite nth_error_app2 by lia.
    replace (length q + 0 - length q) with 0 by lia. reflexivity.
  - left. simpl. rewrite <- app_assoc. rewrite nth_error_app2 by lia.
    replace (length q + S j - length q) with (S j) by lia. reflexivity.
Qed.

Lemma lineTerminator_not_word (c : ascii) :
  isLineTerminator c = true -> isWordChar c = false.
Proof.
  destruct c as [[] [] [] [] [] [] [] []]; vm_compute; congruence.
Qed.

Lemma atBol_prefix (p s : jsstring) (i : nat) :
  endsLine p -> atBol true (p ++ s) (length p + i) = atBol true s i.
Proof.
  intros Hp. unfold atBol.
  destruct (prevChar_prefix p s i Hp) as [->|[-> [Hs [c [Hc Hlt]]]]];
    [reflexivity|].
  rewrite Hc, Hs, Hlt. reflexivity.
Qed.

Lemma atWb_prefix (p s : jsstring) (i : nat) :
  endsLine p -> atWb (p ++ s) (length p + i) = atWb s i.
Proof.
  intros Hp. unfold atWb. rewrite charAt_prefix.
  destruct (prevChar_prefix p s i Hp) as [->|[-> [Hs [c [Hc Hlt]]]]];
    [reflexivity|].
  rewrite Hc, Hs. simpl. now rewrite (lineTerminator_not_word c Hlt).
Qed.

Lemma atEol_prefix (m : bool) (p s : jsstring) (i : nat) :
  atEol m (p ++ s) (length p + i) = atEol m s i.
Proof. unfold atEol. now rewrite charAt_prefix. Qed.

Lemma starIter_shift (k : nat) (body body' : mstate -> list mstate)
      (g : bool) (fuel : nat) (st0 : mstate) :
  (forall st, body' (shiftSt k st) = map (shiftSt k) (body st)) ->
  starIter body' g fuel (shiftSt k st0)
  = map (shiftSt k) (starIter body g fuel st0).
Proof.
  intros Hbody. revert st0.
  induction fuel as [|f IH]; intros st0; [reflexivity|].
  cbn [starIter]. rewrite Hbody, flat_map_map_l.
  assert (Hmore :
    flat_map (fun x => if pos (shiftSt k st0) <? pos (shiftSt k x)
                       then starIter body' g f (shiftSt k x) else [])
             (body st0)
    = map (shiftSt k)
          (flat_map (fun st' => if pos st0 <? pos st'
                                then starIter body g f st' else [])
                    (body st0))).
  { rewrite map_flat_map. apply flat_map_pointwise. intros x.
    simpl pos.
    replace (k + pos st0 <? k + pos x) with (pos st0 <? pos x).
    - destruct (pos st0 <? pos x); [apply IH|reflexivity].
    - destruct (pos st0 <? pos x) eqn:E; symmetry.
      + apply Nat.ltb_lt in E. apply Nat.ltb_lt. lia.
      + apply Nat.ltb_ge in E. apply Nat.ltb_ge. lia. }
  rewrite Hmore. destruct g; simpl; [now rewrite map_app|reflexivity].
Qed.

(** Matching [p ++ s] at an index of [s] is matching [s], shifted. *)
Lemma run_prefix (p s : jsstring) (r : re) :
  endsLine p -> multilineOnly r = true ->
  forall st,
    run (p ++ s) r (shiftSt (length p) st)
    = map (shiftSt (length p)) (run s r st).
Proof.
  intros Hp. induction r as [|c|a IHa b IHb|a IHa b IHb|g a IHa|n a IHa|m|m|];
    intros Hr st; cbn [run]; simpl pos.
  - reflexivity.
  - rewrite charAt_prefix. destruct (charAt s (pos st)) as [x|]; [|reflexivity].
    destruct (c x); [|reflexivity]. simpl. unfold shiftSt. simpl.
    repeat f_equal. lia.
  - simpl in Hr. apply andb_true_iff in Hr. destruct Hr as [Ha Hb].
    rewrite (IHa Ha), flat_map_map_l, map_flat_map.
    apply flat_map_pointwise. intros x. now apply IHb.
  - simpl in Hr. apply andb_true_iff in Hr. destruct Hr as [Ha Hb].
    now rewrite (IHa Ha), (IHb Hb), map_app.
  - simpl in Hr.
    replace (length (p ++ s) - (length p + pos st)) with (length s - pos st)
      by (rewrite length_app; lia).
    apply starIter_shift. now apply IHa.
  - simpl in Hr. rewrite (IHa Hr), !map_map. reflexivity.
  - simpl in Hr. subst m. rewrite (atBol_prefix p s (pos st) Hp).
    now destruct (atBol true s (pos st)).
  - rewrite atEol_prefix. now destruct (atEol m s (pos st)).
  - rewrite (atWb_prefix p s (pos st) Hp). now destruct (atWb s (pos st)).
Qed.

Lemma test_prefix (p s : jsstring) (r : re) :
  endsLine p -> multilineOnly r = true ->
  test r s = true -> test r (p ++ s) = true.
Proof.
  intros Hp Hr H. apply test_true_iff in H. destruct H as [j [Hj Hrun]].
  apply test_true_iff. exists (length p + j). split.
  - rewrite length_app. lia.
  - change (MkSt (length p + j) []) with (shiftSt (length p) (MkSt j [])).
    rewrite (run_prefix p s r Hp Hr).
    destruct (run s r (MkSt j [])); [congruence|discriminate].
Qed.

(** *** Literals *)

Lemma charAt_middle (pre post : jsstring) (c : ascii) :
  charAt (pre ++ c :: post) (length pre) = Some c.
Proof.
  unfold charAt. rewrite nth_error_app2 by lia.
  now rewrite Nat.sub_diag.
Qed.

(** A literal under the [i] flag matches a stretch of the text that
    spells it up to case, and matches it in one way only. *)
Lemma run_liti (name w pre post : jsstring) (cs : list (nat * (nat * nat))) :
  name <> [] -> toLowerCase w = toLowerCase name ->
  run (pre ++ w ++ post) (cat (map chri name)) (MkSt (length pre) cs)
  = [MkSt (length pre + length name) cs].
Proof.
  revert w pre. induction name as [|c name IH]; intros w pre Hne Hw;
    [now elim Hne|].
  destruct w as [|c' w]; [discriminate|].
  injection Hw as Hc Hrest.
  assert (Hhead : run (pre ++ (c' :: w) ++ post) (chri c)
                      (MkSt (length pre) cs)
                  = [MkSt (S (length pre)) cs]).
  { cbn [run chri pos caps app]. rewrite charAt_middle.
    rewrite Hc, Ascii.eqb_refl. reflexivity. }
  destruct name as [|c2 name].
  - cbn [map cat]. rewrite Hhead. cbn [length]. f_equal. f_equal. lia.
  - change (cat (map chri (c :: c2 :: name)))
      with (Cat (chri c) (cat (map chri (c2 :: name)))).
    cbn [run]. rewrite Hhead. cbn [flat_map]. rewrite app_nil_r.
    pose proof (IH w (pre ++ [c']) ltac:(discriminate) Hrest) as Hstep.
    rewrite length_app in Hstep. cbn [length] in Hstep.
    replace (length pre + 1) with (S (length pre)) in Hstep by lia.
    rewrite <- app_assoc in Hstep. cbn [app] in Hstep.
    cbn [app]. rewrite Hstep. f_equal. f_equal. cbn [length]. lia.
Qed.

End RegexFacts.

(* ================================================================= *)
(** ** Ranking post-validation *)

Module RankingFacts.
Import Js Regex Ranking RegexFacts.
Local Open Scope string_scope.
Local Open Scope list_scope.
Local Open Scope nat_scope.

Lemma endsLine_blank_line (a b c : jsstring) :
  endsLine (a ++ b ++ c ++ [LF; LF]).
Proof.
  exists (a ++ b ++ c ++ [LF]), LF. split; [|reflexivity].
  now rewrite <- !app_assoc.
Qed.

Lemma shortListNotice_endsLine (count : nat) :
  endsLine (shortListNotice count).
Proof. apply endsLine_blank_line. Qed.

(** The notice in front of a valid list leaves it valid. *)
Lemma validateRankingResponse_prefix (p body : jsstring) :
  endsLine p -> validateRankingResponse body = true ->
  validateRankingResponse (p ++ body) = true.
Proof.
  unfold validateRankingResponse. intros Hp H.
  apply andb_true_iff in H. destruct H as [H Hc].
  apply andb_true_iff in H. destruct H as [H1 H2].
  rewrite (test_prefix p body (reItem "1") Hp eq_refl H1),
    (test_prefix p body (reItem "2") Hp eq_refl H2),
    (test_prefix p body reCitation Hp eq_refl Hc).
  reflexivity.
Qed.

(** A single digit is a run of digits. *)
Lemma chr_in_plus_digit (s : jsstring) (c : ascii) (st st' : mstate) :
  isDigit c = true ->
  In st' (run s (chr c) st) -> In st' (run s (plus digit) st).
Proof.
  intros Hc. unfold chr, plus, digit.
  change (run s (Cat (Cls isDigit) (Star true (Cls isDigit))) st)
    with (flat_map (run s (Star true (Cls isDigit))) (run s (Cls isDigit) st)).
  cbn [run]. destruct (charAt s (pos st)) as [x|]; [|intros []].
  destruct (Ascii.eqb c x) eqn:E; [|intros []].
  apply Ascii.eqb_eq in E. subst x. rewrite Hc.
  intros [<-|[]]. cbn [flat_map]. rewrite app_nil_r.
  apply starIter_self.
Qed.

(** A line numbered 1 is a numbered line. *)
Lemma reItem_reAnyItem (s : jsstring) :
  test (reItem "1") s = true -> test reAnyItem s = true.
Proof.
  intros H. apply test_true_iff in H. destruct H as [j [Hj Hrun]].
  apply test_true_iff. exists j. split; [exact Hj|].
  revert Hrun. unfold reItem, reAnyItem. cbn [cat].
  set (tail := Cat (chr ".") (plus space)).
  change (run s (Cat (Bol true) (Cat (star space) (Cat (chr "1") tail)))
              (MkSt j []))
    with (flat_map (fun st1 =>
            flat_map (fun st2 => flat_map (run s tail) (run s (chr "1") st2))
                     (run s (star space) st1))
            (run s (Bol true) (MkSt j []))).
  change (run s (Cat (Bol true) (Cat (star space) (Cat (plus digit) tail)))
              (MkSt j []))
    with (flat_map (fun st1 =>
            flat_map (fun st2 =>
                        flat_map (run s tail) (run s (plus digit) st2))
                     (run s (star space) st1))
            (run s (Bol true) (MkSt j []))).
  intros Hrun.
  apply flat_map_nonempty in Hrun. destruct Hrun as [st1 [Hin1 Hrun]].
  apply flat_map_nonempty. exists st1. split; [exact Hin1|].
  apply flat_map_nonempty in Hrun. destruct Hrun as [st2 [Hin2 Hrun]].
  apply flat_map_nonempty. exists st2. split; [exact Hin2|].
  apply flat_map_nonempty in Hrun. destruct Hrun as [st3 [Hin3 Hrun]].
  apply flat_map_nonempty. exists st3. split; [|exact Hrun].
  now apply (chr_in_plus_digit s "1").
Qed.

Lemma validateRankingResponse_counts (body : jsstring) :
  validateRankingResponse body = true -> 0 < countRankingItems body.
Proof.
  unfold validateRankingResponse, countRankingItems. intros H.
  apply andb_true_iff in H. destruct H as [H _].
  apply andb_true_iff in H. destruct H as [H1 _].
  apply matchAll_nonempty. now apply reItem_reAnyItem.
Qed.

Lemma NO_LIST_REFUSAL_plain :
  validateRankingResponse NO_LIST_REFUSAL = false /\
  countRankingItems NO_LIST_REFUSAL = 0.
Proof. vm_compute. split; reflexivity. Qed.

End RankingFacts.

Module RankingTheorems.
Import Js Regex Ranking RegexFacts RankingFacts.
Local Open Scope string_scope.
Local Open Scope list_scope.
Local Open Scope nat_scope.

(** The statements after [strictPrompt], had they been reached: at
    most one regeneration is run, none when the answer at hand passes
    [validateRankingResponse]; what comes out is the refusal "couldn't
    build a reliable ranked list", or a text that passes the validation,
    preceded by the "only N items" notice exactly when it has fewer
    than 10 numbered lines and the prompt contains "top 10". *)
Lemma afterStrictPrompt_grounded_or_refused
      (callOllamaGenerate : generateCall -> option jsstring)
      (request : generateCall) (incomingPrompt responseText : jsstring) :
  let out := afterStrictPrompt callOllamaGenerate request incomingPrompt
                               responseText in
  length (snd out) <= 1 /\
  (validateRankingResponse responseText = true -> snd out = []) /\
  ((validateRankingResponse responseText = false /\
    match callOllamaGenerate request with
    | Some text => validateRankingResponse text = false
    | None => True
    end /\
    fst out = NO_LIST_REFUSAL) \/
   exists body,
     validateRankingResponse body = true /\
     validateRankingResponse (fst out) = true /\
     (body = responseText \/
      snd out = [request] /\ callOllamaGenerate request = Some body) /\
     fst out =
       if (countRankingItems body <? 10) && test reTop10 incomingPrompt
       then shortListNotice (countRankingItems body) ++ body
       else body).
Proof.
  intros out. subst out. unfold afterStrictPrompt.
  assert (Hfinal : forall body,
             validateRankingResponse body = true ->
             let final :=
               if (0 <? countRankingItems body) &&
                  (countRankingItems body <? 10) &&
                  test reTop10 incomingPrompt
               then shortListNotice (countRankingItems body) ++ body
               else body in
             validateRankingResponse final = true /\
             final =
               if (countRankingItems body <? 10) &&
                  test reTop10 incomingPrompt
               then shortListNotice (countRankingItems body) ++ body
               else body).
  { intros body Hbody final. subst final.
    pose proof (validateRankingResponse_counts body Hbody) as Hpos.
    apply Nat.ltb_lt in Hpos. rewrite Hpos. cbn [andb].
    destruct ((countRankingItems body <? 10) && test reTop10 incomingPrompt).
    - split; [|reflexivity].
      apply validateRankingResponse_prefix; [|exact Hbody].
      apply shortListNotice_endsLine.
    - now split. }
  assert (Hrefuse :
            (if (0 <? countRankingItems NO_LIST_REFUSAL) &&
                (countRankingItems NO_LIST_REFUSAL <? 10) &&
                test reTop10 incomingPrompt
             then shortListNotice (countRankingItems NO_LIST_REFUSAL) ++
                  NO_LIST_REFUSAL
             else NO_LIST_REFUSAL) = NO_LIST_REFUSAL).
  { rewrite (proj2 NO_LIST_REFUSAL_plain). reflexivity. }
  destruct (validateRankingResponse responseText) eqn:Hv; cbn [negb].
  - (* the answer at hand passes *)
    rewrite Hv. cbn [negb fst snd length].
    destruct (Hfinal responseText Hv) as [H1 H2].
    repeat split; [lia|].
    right. exists responseText. repeat split; auto.
  - (* one regeneration *)
    destruct (callOllamaGenerate request) as [text|] eqn:Hcall.
    + destruct (validateRankingResponse text) eqn:Hv2;
        cbn [negb fst snd length].
      * destruct (Hfinal text Hv2) as [H1 H2].
        repeat split; [lia|discriminate|].
        right. exists text. repeat split; auto.
      * rewrite Hrefuse. repeat split; [lia|discriminate|].
        left. repeat split.
    + rewrite Hv. cbn [negb fst snd length]. rewrite Hrefuse.
      repeat split; [lia|discriminate|]. left. repeat split.
Qed.

(** C2.  For a request classified as a ranking query the block ends as
    follows.  Without web sources the final response is the stock
    refusal and no generate call is made.  With web sources the block
    never delivers a response: building [strictPrompt] reads
    [webContext], which has no binding there, so a [ReferenceError]
    with the message "webContext is not defined" is thrown before the
    answer is validated and before any regeneration, whatever the
    answer, the prompt and the backend. *)
Theorem C2_ranking_block_throws_when_sources_are_present :
  forall (callOllamaGenerate : generateCall -> option jsstring)
         (webSources : list jsstring) (incomingPrompt modelName : jsstring)
         (isFutureRanking : bool) (responseText : jsstring),
    (webSources = [] ->
     rankingBlock callOllamaGenerate true webSources incomingPrompt
                  modelName isFutureRanking responseText
     = Completes NO_SOURCES_REFUSAL [])
    /\
    (webSources <> [] ->
     rankingBlock callOllamaGenerate true webSources incomingPrompt
                  modelName isFutureRanking responseText
     = Throws (str "webContext is not defined")).
Proof.
  intros call webSources incomingPrompt modelName isFuture responseText.
  split.
  - intros ->. reflexivity.
  - intros Hne. destruct webSources as [|src more]; [congruence|].
    reflexivity.
Qed.

(** An answer that already holds a cited list of three items, with the
    sources at hand: the block throws all the same. *)
Lemma C2_witness :
  validateRankingResponse Samples.rankedAnswer = true /\
  rankingBlock (fun _ => Some Samples.rankedAnswer) true
    Samples.arenaSources (str "top 10 LLMs") (str "llama3.2") false
    Samples.rankedAnswer
  = Throws (str "webContext is not defined").
Proof.
  split; [vm_compute; reflexivity|].
  refine (proj2 (C2_ranking_block_throws_when_sources_are_present
                   (fun _ => Some Samples.rankedAnswer)
                   Samples.arenaSources (str "top 10 LLMs") (str "llama3.2")
                   false Samples.rankedAnswer) _).
  discriminate.
Defined.

End RankingTheorems.

(* ================================================================= *)
(** ** The generation supervisor *)

Module SupervisorTheorems.
Import Js Regex Supervisor JsFacts.
Local Open Scope string_scope.
Local Open Scope list_scope.
Local Open Scope nat_scope.

(** The fallback is never the reasoning model itself. *)
Lemma fallbackModel_range (incomingPrompt intent : jsstring) :
  In (fallbackModel incomingPrompt intent)
     (map str ["gemma:2b"; "qwen3"; "deepseek-coder-v2"; "llama3.2"]).
Proof.
  unfold fallbackModel.
  destruct (eqs intent (str "MATH_REASONING")).
  - destruct (calculateMathComplexity incomingPrompt intent) as [c|];
      [destruct (eqs c (str "TRIVIAL") || eqs c (str "SIMPLE"))|];
      simpl; tauto.
  - destruct (eqs intent (str "CODE_TASK") || eqs intent (str "CODE_REVIEW"));
      [simpl; tauto|].
    destruct (arrayIncludes intent reasoningIntents); simpl; tauto.
Qed.

(** Without a client cancel, an attempt on the reasoning model runs to
    its natural end whatever the configured timeout. *)
Lemma runGeneration_reasoning_no_deadline (modelTimeoutMs : Z) (a : attempt) :
  cancelledAt a = None ->
  runGeneration modelTimeoutMs (str "deepseek-r1") a
  = (map snd (arrivals a), option_map (MkError (str "Error")) (failure a)).
Proof.
  intros Hc. unfold runGeneration, abortTime.
  change (attemptTimeoutMs modelTimeoutMs (str "deepseek-r1")) with 0%Z.
  now rewrite Hc.
Qed.

(** With a positive timeout, an attempt on another model that would
    last longer is aborted at the deadline. *)
Lemma runGeneration_deadline (modelTimeoutMs : Z) (model : jsstring)
      (a : attempt) :
  model <> str "deepseek-r1" -> cancelledAt a = None ->
  (0 < modelTimeoutMs)%Z -> (modelTimeoutMs < duration a)%Z ->
  runGeneration modelTimeoutMs model a
  = (map snd (filter (fun x => (fst x <=? modelTimeoutMs)%Z) (arrivals a)),
     Some (MkError (str "AbortError") (str "This operation was aborted"))).
Proof.
  intros Hm Hc Hpos Hlong. unfold runGeneration, abortTime, attemptTimeoutMs.
  apply eqs_false in Hm. rewrite Hm, Hc.
  apply Z.ltb_lt in Hpos. rewrite Hpos.
  apply Z.ltb_lt in Hlong. now rewrite Hlong.
Qed.

(** C3 as stated fails: a memory-pressure error, or an elapsed
    deadline, on a model other than the reasoning model is not retried;
    only the first attempt is run. *)
Lemma C3_counterexample :
  test memoryErrorRegex
       (str "Ollama API error (500): model requires more system memory (5.6 GiB) than is available")
  = true
  /\ attempts (generate 30000 (str "llama3.2")
                 (fallbackModel (str "write a poem") (str "CREATIVE"))
                 Samples.starvedAttempt Samples.quickAttempt)
     = [str "llama3.2"]
  /\ events (generate 30000 (str "llama3.2")
               (fallbackModel (str "write a poem") (str "CREATIVE"))
               Samples.starvedAttempt Samples.quickAttempt)
     = [Token (str "Let")]
  /\ attempts (generate 30000 (str "mistral-small")
                 (fallbackModel (str "latest news") (str "WORLD_KNOWLEDGE"))
                 Samples.slowAttempt Samples.quickAttempt)
     = [str "mistral-small"]
  /\ events (generate 30000 (str "mistral-small")
               (fallbackModel (str "latest news") (str "WORLD_KNOWLEDGE"))
               Samples.slowAttempt Samples.quickAttempt)
     = [Token (str "a");
        ModelRetryFailed (str "mistral-small") (str "timeout")].
Proof. vm_compute. repeat split; reflexivity. Qed.

(** C3, amended.  The retry belongs to the reasoning model
    [deepseek-r1] alone.  When its attempt fails with an error matching
    the memory-pressure sentinel, exactly one retry is run, with the
    fallback model, which is a function of the prompt and the intent
    (through the complexity, for MATH_REASONING); [model_fallback] and
    [model_retry_start] are sent, the token buffer restarts from empty,
    [model_retry_done] follows a successful retry, and a failure of the
    retry escapes without a further attempt.  On any other model a
    failure is final after one attempt, an elapsed deadline being
    reported by [model_retry_failed]; the reasoning model itself has no
    deadline. *)
Theorem C3_retry_only_from_reasoning_model :
  forall (modelTimeoutMs : Z) (incomingPrompt intent : jsstring)
         (first second : attempt),
    let fallback := fallbackModel incomingPrompt intent in
    (forall msg,
        cancelledAt first = None -> failure first = Some msg ->
        test memoryErrorRegex msg = true ->
        let g := generate modelTimeoutMs (str "deepseek-r1") fallback
                          first second in
        let retry := runGeneration modelTimeoutMs fallback second in
        attempts g = [str "deepseek-r1"; fallback] /\
        usedModel g = fallback /\
        events g =
          map Token (map snd (arrivals first)) ++
          [ModelFallback (str "deepseek-r1") fallback
                         (str "insufficient_memory");
           ModelRetryStart (str "deepseek-r1") fallback
                           (str "insufficient_memory")] ++
          map Token (fst retry) ++
          match snd retry with
          | None => [ModelRetryDone fallback]
          | Some _ => []
          end /\
        responseText g = concat (fst retry) /\
        thrown g = snd retry)
    /\
    (forall modelName,
        modelName <> str "deepseek-r1" ->
        let g := generate modelTimeoutMs modelName fallback first second in
        let run := runGeneration modelTimeoutMs modelName first in
        attempts g = [modelName] /\ usedModel g = modelName /\
        thrown g = snd run /\ responseText g = concat (fst run) /\
        (cancelledAt first = None -> (0 < modelTimeoutMs)%Z ->
         (modelTimeoutMs < duration first)%Z ->
         events g = map Token (fst run) ++
                    [ModelRetryFailed modelName (str "timeout")] /\
         thrown g <> None))
    /\
    (cancelledAt first = None ->
     runGeneration modelTimeoutMs (str "deepseek-r1") first
     = (map snd (arrivals first),
        option_map (MkError (str "Error")) (failure first))).
Proof.
  intros modelTimeoutMs incomingPrompt intent first second fallback.
  repeat apply conj.
  - intros msg Hc Hf Hmem g retry. subst g retry. unfold generate.
    rewrite (runGeneration_reasoning_no_deadline _ first Hc), Hf.
    cbn [option_map errMessage]. rewrite Hmem.
    change (eqs (str "deepseek-r1") (str "deepseek-r1")) with true.
    cbn [andb]. unfold retryWith.
    destruct (runGeneration modelTimeoutMs fallback second) as [sent2 err2].
    cbn [attempts usedModel events responseText thrown fst snd].
    repeat split.
  - intros modelName Hm g run. subst g run. unfold generate.
    assert (Hdead : cancelledAt first = None -> (0 < modelTimeoutMs)%Z ->
                    (modelTimeoutMs < duration first)%Z ->
                    snd (runGeneration modelTimeoutMs modelName first)
                    = Some (MkError (str "AbortError")
                                    (str "This operation was aborted"))).
    { intros Hc Hpos Hlong.
      now rewrite (runGeneration_deadline _ _ first Hm Hc Hpos Hlong). }
    apply eqs_false in Hm.
    destruct (runGeneration modelTimeoutMs modelName first) as [sent1 err1].
    cbn [fst snd] in *.
    destruct err1 as [err|].
    + rewrite Hm. cbn [andb].
      destruct (eqs (errName err) (str "AbortError")) eqn:Hab;
        cbn [attempts usedModel events responseText thrown].
      * split; [reflexivity|]. split; [reflexivity|].
        split; [reflexivity|]. split; [reflexivity|].
        intros _ _ _. split; [reflexivity|discriminate].
      * split; [reflexivity|]. split; [reflexivity|].
        split; [reflexivity|]. split; [reflexivity|].
        intros Hc Hpos Hlong. specialize (Hdead Hc Hpos Hlong).
        inversion Hdead; subst. discriminate Hab.
    + cbn [attempts usedModel events responseText thrown].
      split; [reflexivity|]. split; [reflexivity|].
      split; [reflexivity|]. split; [reflexivity|].
      intros Hc Hpos Hlong. specialize (Hdead Hc Hpos Hlong).
      discriminate Hdead.
  - apply runGeneration_reasoning_no_deadline.
Qed.

Lemma C3_witness :
  events (generate 30000 (str "deepseek-r1")
            (fallbackModel (str "prove that 2 is prime") (str "PROOF_SOLVING"))
            Samples.starvedAttempt Samples.quickAttempt)
  = [Token (str "Let");
     ModelFallback (str "deepseek-r1") (str "qwen3")
                   (str "insufficient_memory");
     ModelRetryStart (str "deepseek-r1") (str "qwen3")
                     (str "insufficient_memory");
     Token (str "4"); Token (str "2");
     ModelRetryDone (str "qwen3")]
  /\ responseText (generate 30000 (str "deepseek-r1")
                     (fallbackModel (str "prove that 2 is prime")
                                    (str "PROOF_SOLVING"))
                     Samples.starvedAttempt Samples.quickAttempt)
     = str "42".
Proof.
  pose proof (proj1 (C3_retry_only_from_reasoning_model 30000
                       (str "prove that 2 is prime") (str "PROOF_SOLVING")
                       Samples.starvedAttempt Samples.quickAttempt)
                _ eq_refl eq_refl eq_refl) as H.
  cbv zeta in H. destruct H as [_ [_ [He [Hr _]]]].
  split.
  - rewrite He. vm_compute. reflexivity.
  - rewrite Hr. vm_compute. reflexivity.
Defined.

End SupervisorTheorems.

(* ================================================================= *)
(** ** The tool sandbox *)

Module SandboxFacts.
Import Js Regex Sandbox RegexFacts.
Local Open Scope string_scope.
Local Open Scope list_scope.
Local Open Scope nat_scope.

Lemma isWordChar_lowerChar (c : ascii) :
  isWordChar (lowerChar c) = isWordChar c.
Proof. destruct c as [[] [] [] [] [] [] [] []]; reflexivity. Qed.

Lemma prevChar_end (pre post : jsstring) :
  wordAt (prevChar (pre ++ post) (length pre)) = endsInWord pre.
Proof.
  unfold endsInWord. destruct pre as [|c pre] using rev_ind; [reflexivity|].
  rewrite length_app. cbn [length].
  replace (length pre + 1) with (S (length pre)) by lia.
  cbn [prevChar]. rewrite <- app_assoc.
  rewrite (nth_error_app2 pre ([c] ++ post)) by lia.
  rewrite (nth_error_app2 pre [c]) by lia.
  now rewrite Nat.sub_diag.
Qed.

Lemma endsInWord_same_letters (w name : jsstring) :
  toLowerCase w = toLowerCase name -> endsInWord w = endsInWord name.
Proof.
  unfold endsInWord. intros H.
  assert (Hlen : length w = length name).
  { apply (f_equal (@length ascii)) in H.
    unfold toLowerCase in H. now rewrite !length_map in H. }
  rewrite Hlen. destruct (length name) as [|n]; [reflexivity|].
  cbn [prevChar].
  assert (Hn : nth_error (toLowerCase w) n = nth_error (toLowerCase name) n)
    by now rewrite H.
  unfold toLowerCase in Hn. rewrite !nth_error_map in Hn.
  destruct (nth_error w n) as [a|], (nth_error name n) as [b|];
    try discriminate; [|reflexivity].
  injection Hn as Hab. cbn [wordAt].
  now rewrite <- (isWordChar_lowerChar a), Hab, isWordChar_lowerChar.
Qed.

Lemma startsInWord_same_letters (w name : jsstring) :
  toLowerCase w = toLowerCase name -> startsInWord w = startsInWord name.
Proof.
  unfold startsInWord. destruct w as [|a w], name as [|b name];
    try discriminate; [reflexivity|].
  intros H. injection H as Hab _. cbn [charAt nth_error wordAt].
  now rewrite <- (isWordChar_lowerChar a), Hab, isWordChar_lowerChar.
Qed.

(** [/\bname\b/i] finds every whole-word occurrence of [name], in any
    mix of cases. *)
Lemma wholeWord_occurrence (name : string) (pre w post : jsstring) :
  startsInWord (str name) = true -> endsInWord (str name) = true ->
  toLowerCase w = toLowerCase (str name) ->
  endsInWord pre = false -> startsInWord post = false ->
  test (wholeWord name) (pre ++ w ++ post) = true.
Proof.
  intros Hfirst Hlast Hw Hpre Hpost.
  assert (Hne : str name <> []).
  { intros E. rewrite E in Hfirst. discriminate. }
  assert (Hlen : length w = length (str name)).
  { apply (f_equal (@length ascii)) in Hw.
    unfold toLowerCase in Hw. now rewrite !length_map in Hw. }
  apply test_true_iff. exists (length pre). split.
  { rewrite length_app. lia. }
  unfold wholeWord, liti.
  change (cat [Wb; cat (map chri (str name)); Wb])
    with (Cat Wb (Cat (cat (map chri (str name))) Wb)).
  cbn [run pos].
  assert (Hb1 : atWb (pre ++ w ++ post) (length pre) = true).
  { unfold atWb. rewrite prevChar_end, Hpre.
    replace (length pre) with (length pre + 0) at 1 by lia.
    rewrite charAt_prefix.
    destruct w as [|a w]; [destruct (str name); [now elim Hne|discriminate]|].
    pose proof (startsInWord_same_letters (a :: w) (str name) Hw) as Hs.
    rewrite Hfirst in Hs. exact Hs. }
  rewrite Hb1. cbn [flat_map]. rewrite app_nil_r.
  rewrite (run_liti (str name) w pre post [] Hne Hw).
  cbn [flat_map pos]. rewrite app_nil_r.
  assert (Hb2 : atWb (pre ++ w ++ post) (length pre + length (str name))
                = true).
  { unfold atWb. rewrite <- Hlen, <- length_app, app_assoc.
    rewrite prevChar_end.
    replace (length (pre ++ w)) with (length (pre ++ w) + 0) by lia.
    rewrite charAt_prefix.
    assert (He : endsInWord (pre ++ w) = endsInWord w).
    { destruct w as [|a w] using rev_ind.
      - destruct (str name); [now elim Hne|discriminate].
      - unfold endsInWord. rewrite !length_app. cbn [length].
        replace (length pre + (length w + 1))
          with (S (length pre + length w)) by lia.
        replace (length w + 1) with (S (length w)) by lia.
        cbn [prevChar]. rewrite app_assoc.
        rewrite nth_error_app2 by (rewrite length_app; lia).
        rewrite nth_error_app2 by lia.
        rewrite length_app.
        now replace (length pre + length w - (length pre + length w))
          with (length w - length w) by lia. }
    rewrite He, (endsInWord_same_letters w (str name) Hw), Hlast.
    fold (startsInWord post). now rewrite Hpost. }
  rewrite Hb2. discriminate.
Qed.

Lemma blockedJsWords_wordy (name : string) :
  In name blockedJsWords ->
  startsInWord (str name) = true /\ endsInWord (str name) = true.
Proof.
  intros H. repeat (destruct H as [<-|H]; [split; reflexivity|]).
  destruct H.
Qed.

Lemma matchesAny_In (patterns : list re) (pattern : re) (text : jsstring) :
  In pattern patterns -> test pattern text = true ->
  matchesAny patterns text = true.
Proof.
  intros Hin Ht. apply existsb_exists. exists pattern. now split.
Qed.

End SandboxFacts.

Module SandboxTheorems.
Import Js Regex Sandbox RegexFacts SandboxFacts.
Local Open Scope string_scope.
Local Open Scope list_scope.
Local Open Scope nat_scope.

(** The admission steps of the three runners, one after the other. *)
Lemma runPython_steps (a : runArgs) :
  runPython a =
  if blank (code a) then Throws (str "Missing python code.")
  else if orDefault nat MAX_CODE_CHARS (maxChars a) <? length (code a)
  then Throws (tooLarge "Python" (orDefault nat MAX_CODE_CHARS (maxChars a)))
  else if orDefault bool true (safeMode a) &&
          matchesAny BLOCKED_PYTHON_PATTERNS (code a)
  then Throws UNSAFE_PYTHON
  else Spawns PythonScript (code a) (orDefault bool true (safeMode a)).
Proof.
  unfold runPython, assertPythonSafe, blank, matchesAny.
  destruct (isEmpty (code a) || isEmpty (trim (code a))); [reflexivity|].
  destruct (_ <? _); [reflexivity|].
  destruct (orDefault bool true (safeMode a)); [|reflexivity].
  cbn [negb andb]. now destruct (existsb _ _).
Qed.

Lemma runJavaScript_steps (a : runArgs) :
  runJavaScript a =
  if blank (code a) then Throws (str "Missing JavaScript code.")
  else if orDefault nat MAX_CODE_CHARS (maxChars a) <? length (code a)
  then Throws (tooLarge "JavaScript"
                        (orDefault nat MAX_CODE_CHARS (maxChars a)))
  else if orDefault bool true (safeMode a) &&
          matchesAny BLOCKED_JS_PATTERNS (code a)
  then Throws UNSAFE_JAVASCRIPT
  else Spawns NodeScript (code a) (orDefault bool true (safeMode a)).
Proof.
  unfold runJavaScript, assertJavaScriptSafe, blank, matchesAny.
  destruct (isEmpty (code a) || isEmpty (trim (code a))); [reflexivity|].
  destruct (_ <? _); [reflexivity|].
  destruct (orDefault bool true (safeMode a)); [|reflexivity].
  cbn [negb andb]. now destruct (existsb _ _).
Qed.

Lemma runTypeScript_steps (a : runArgs) :
  runTypeScript a =
  if blank (code a) then Throws (str "Missing TypeScript code.")
  else if orDefault nat MAX_CODE_CHARS (maxChars a) <? length (code a)
  then Throws (tooLarge "TypeScript"
                        (orDefault nat MAX_CODE_CHARS (maxChars a)))
  else if orDefault bool true (safeMode a) &&
          matchesAny BLOCKED_JS_PATTERNS (code a)
  then Throws UNSAFE_JAVASCRIPT
  else Spawns NodeScript (code a) (orDefault bool true (safeMode a)).
Proof.
  unfold runTypeScript, assertJavaScriptSafe, blank, matchesAny.
  destruct (isEmpty (code a) || isEmpty (trim (code a))); [reflexivity|].
  destruct (_ <? _); [reflexivity|].
  destruct (orDefault bool true (safeMode a)); [|reflexivity].
  cbn [negb andb]. now destruct (existsb _ _).
Qed.

Lemma unsafe_is_no_size_error (language : string) (limit : nat) :
  In language ["Python"; "JavaScript"; "TypeScript"] ->
  tooLarge language limit <> UNSAFE_PYTHON /\
  tooLarge language limit <> UNSAFE_JAVASCRIPT.
Proof.
  intros H.
  repeat (destruct H as [<-|H]; [split; intros E; discriminate E|]).
  destruct H.
Qed.




End SandboxTheorems.

(* ================================================================= *)
(** ** The intent classifier *)

Module IntentFacts.
Import Js Regex Intent RegexFacts.
Local Open Scope string_scope.
Local Open Scope list_scope.
Local Open Scope Z_scope.

Lemma countMatches_nonneg (pattern lower : jsstring) :
  0 <= countMatches pattern lower.
Proof. unfold countMatches. lia. Qed.

(** The two branches of the loop body. *)
Lemma patternScore_boosted (intentType prompt pattern : jsstring) :
  boosted intentType prompt pattern = true ->
  patternScore intentType prompt pattern
  = Z.min 3 (countMatches pattern (toLowerCase prompt) * 2).
Proof.
  unfold boosted, patternScore. intros H.
  apply andb_true_iff in H. destruct H as [H ->]. now rewrite H.
Qed.

Lemma patternScore_plain (intentType prompt pattern : jsstring) :
  boosted intentType prompt pattern = false ->
  patternScore intentType prompt pattern
  = Z.min 2 (countMatches pattern (toLowerCase prompt)).
Proof.
  unfold boosted, patternScore. intros H.
  destruct (eqs intentType (str "MATH_REASONING") &&
            (eqs pattern (str "how many") || eqs pattern (str "how much")));
    [|reflexivity].
  cbn [andb] in H. now rewrite H.
Qed.

Lemma patternScore_range (intentType prompt pattern : jsstring) :
  0 <= patternScore intentType prompt pattern
       <= (if boosted intentType prompt pattern then 3 else 2).
Proof.
  pose proof (countMatches_nonneg pattern (toLowerCase prompt)) as Hm.
  destruct (boosted intentType prompt pattern) eqn:E.
  - rewrite (patternScore_boosted _ _ _ E). lia.
  - rewrite (patternScore_plain _ _ _ E). lia.
Qed.

(** Another intent never sees the exception. *)
Lemma boosted_only_math (intentType prompt pattern : jsstring) :
  intentType <> str "MATH_REASONING" ->
  boosted intentType prompt pattern = false.
Proof.
  intros H. unfold boosted, eqs.
  destruct (list_eq_dec ascii_dec intentType (str "MATH_REASONING"));
    [contradiction|reflexivity].
Qed.

Lemma fold_left_shift (f : jsstring -> Z) (l : list jsstring) (a : Z) :
  fold_left (fun score pattern => score + f pattern) l a
  = a + fold_left (fun score pattern => score + f pattern) l 0.
Proof.
  revert a. induction l as [|x l IH]; intros a; cbn [fold_left]; [lia|].
  rewrite (IH (a + f x)), (IH (0 + f x)). lia.
Qed.

Lemma patternTotal_cons (intentType prompt pattern : jsstring)
      (pats : list jsstring) :
  patternTotal intentType prompt (pattern :: pats)
  = patternScore intentType prompt pattern
    + patternTotal intentType prompt pats.
Proof.
  unfold patternTotal. cbn [fold_left].
  rewrite (fold_left_shift (patternScore intentType prompt)). lia.
Qed.

Lemma patternTotal_range (intentType prompt : jsstring)
      (pats : list jsstring) :
  0 <= patternTotal intentType prompt pats
    <= 2 * Z.of_nat (length pats)
       + Z.of_nat (length (filter (boosted intentType prompt) pats)).
Proof.
  induction pats as [|pattern pats IH]; [cbn; lia|].
  rewrite patternTotal_cons. cbn [filter length].
  pose proof (patternScore_range intentType prompt pattern) as Hp.
  destruct (boosted intentType prompt pattern); cbn [length]; lia.
Qed.

(** [scoreIntent] is the clamped sum of the pattern total and of the
    four adjustments. *)
Lemma scoreIntent_sum (prompt : jsstring) (ctx : context)
      (intentType : jsstring) (cfg : config) :
  scoreIntent prompt ctx intentType cfg
  = Z.max 0
      (patternTotal intentType prompt (patterns cfg)
       + (match advancedCheck cfg with
          | Some check => if check prompt then 5 else 0
          | None => 0
          end)
       + (if isIntent (previousIntent ctx) intentType then 1 else 0)
       + (if isIntent (userPreference ctx) intentType then 2 else 0)
       - (match excludeIntents ctx with
          | Some excluded =>
              if arrayIncludes intentType excluded then 5 else 0
          | None => 0
          end)).
Proof.
  unfold scoreIntent, patternTotal. f_equal.
  destruct (advancedCheck cfg) as [check|]; [destruct (check prompt)|];
    destruct (isIntent (previousIntent ctx) intentType);
    destruct (isIntent (userPreference ctx) intentType);
    (destruct (excludeIntents ctx) as [excluded|];
     [destruct (arrayIncludes intentType excluded)|]); lia.
Qed.

(** The count is positive as soon as the pattern occurs, in any mix of
    cases. *)
Lemma countMatches_occurrence (pattern pre w post : jsstring) :
  pattern <> [] -> toLowerCase w = toLowerCase pattern ->
  1 <= countMatches pattern (pre ++ w ++ post).
Proof.
  intros Hne Hw. unfold countMatches.
  assert (Ht : test (escapedRegex pattern) (pre ++ w ++ post) = true).
  { apply test_true_iff. exists (length pre). split.
    - rewrite length_app. lia.
    - unfold escapedRegex. rewrite (run_liti pattern w pre post [] Hne Hw).
      discriminate. }
  pose proof (matchAll_nonempty _ _ Ht). lia.
Qed.

End IntentFacts.

Module IntentTheorems.
Import Js Regex Intent RegexFacts IntentFacts.
Local Open Scope string_scope.
Local Open Scope list_scope.
Local Open Scope Z_scope.

(** C8 as stated fails on the size of the boost.  "How many" occurs
    once in a prompt with a digit: the pattern adds 2 to
    [MATH_REASONING], against 1 for the same prompt with the number in
    words and 1 for any other intent, so the digit is worth one point,
    not two.  With two occurrences the pattern adds 3, against 2. *)
Lemma C8_counterexample :
  (test reNumber Samples.countWithDigit = true /\
   patternScore (str "MATH_REASONING") Samples.countWithDigit
                (str "how many") = 2 /\
   patternScore (str "MATH_REASONING") Samples.countInWords
                (str "how many") = 1 /\
   patternScore (str "LEARNING") Samples.countWithDigit (str "how many") = 1)
  /\
  (test reNumber Samples.countTwice = true /\
   patternScore (str "MATH_REASONING") Samples.countTwice (str "how many") = 3
   /\
   patternScore (str "LEARNING") Samples.countTwice (str "how many") = 2).
Proof. vm_compute. repeat split; reflexivity. Qed.

(** C8, amended.  A pattern adds [min(2, matches)] to the score of an
    intent, hence at most 2, where [matches] counts its occurrences in
    the lower-cased prompt.  The exception: for [MATH_REASONING], on a
    prompt that holds a digit, "how many" and "how much" add
    [min(3, 2 * matches)], which is one more than the plain amount as
    soon as the pattern occurs (2 for one occurrence, 3 for more).  A
    score is the sum of these amounts and of the four adjustments (+5,
    +1, +2, -5), clamped at 0: it is never negative, and never above
    twice the number of patterns, plus the number of boosted patterns,
    plus 8. *)
Theorem C8_pattern_score_is_capped_and_score_clamped :
  forall (INTENT_TYPES : list (jsstring * config)) (ctx : context)
         (intentType prompt pattern : jsstring) (cfg : config),
    let matches := countMatches pattern (toLowerCase prompt) in
    (boosted intentType prompt pattern = false ->
     patternScore intentType prompt pattern = Z.min 2 matches /\
     0 <= patternScore intentType prompt pattern <= 2)
    /\
    (boosted intentType prompt pattern = true ->
     patternScore intentType prompt pattern = Z.min 3 (matches * 2) /\
     patternScore intentType prompt pattern
     = Z.min 2 matches + (if 0 <? matches then 1 else 0) /\
     0 <= patternScore intentType prompt pattern <= 3)
    /\
    (boosted intentType prompt pattern = true ->
     intentType = str "MATH_REASONING" /\
     (pattern = str "how many" \/ pattern = str "how much") /\
     test reNumber prompt = true)
    /\
    0 <= scoreIntent prompt ctx intentType cfg
      <= 2 * Z.of_nat (length (patterns cfg))
         + Z.of_nat (length (filter (boosted intentType prompt)
                                    (patterns cfg)))
         + 8
    /\
    Forall (fun entry => 0 <= snd entry) (scores INTENT_TYPES prompt ctx).
Proof.
  intros table ctx intentType prompt pattern cfg matches.
  pose proof (countMatches_nonneg pattern (toLowerCase prompt)) as Hm.
  fold matches in Hm.
  split; [|split; [|split; [|split]]].
  - intros E. rewrite (patternScore_plain _ _ _ E). fold matches. lia.
  - intros E. rewrite (patternScore_boosted _ _ _ E). fold matches.
    split; [reflexivity|].
    destruct (Z.ltb_spec 0 matches); lia.
  - unfold boosted. intros E.
    apply andb_true_iff in E. destruct E as [E Hd].
    apply andb_true_iff in E. destruct E as [Hi Hp].
    apply orb_true_iff in Hp.
    split; [now apply JsFacts.eqs_true|].
    split; [|exact Hd].
    destruct Hp as [Hp|Hp]; [left|right]; now apply JsFacts.eqs_true.
  - rewrite scoreIntent_sum.
    pose proof (patternTotal_range intentType prompt (patterns cfg)) as Ht.
    destruct (advancedCheck cfg) as [check|]; [destruct (check prompt)|];
      destruct (isIntent (previousIntent ctx) intentType);
      destruct (isIntent (userPreference ctx) intentType);
      (destruct (excludeIntents ctx) as [excluded|];
       [destruct (arrayIncludes intentType excluded)|]); lia.
  - unfold scores. apply Forall_forall. intros entry Hin.
    apply in_map_iff in Hin. destruct Hin as [e [<- _]]. cbn [snd].
    unfold scoreIntent. apply Z.le_max_l.
Qed.

(** C8 on the [MATH_REASONING] entry: "how many" is listed twice, so on
    a prompt that asks it once with a digit the two entries add 2 each
    and "what is" nothing; the score of the entry is 4, and an
    exclusion brings it to 0, not below. *)
Lemma C8_witness :
  patternScore (str "MATH_REASONING") Samples.countWithDigit (str "how many")
  = 2
  /\ scoreIntent Samples.countWithDigit Samples.noContext
                 (str "MATH_REASONING") Samples.mathEntry = 4
  /\ 0 <= scoreIntent Samples.countWithDigit
            (MkContext None None (Some [str "MATH_REASONING"]))
            (str "MATH_REASONING") Samples.mathEntry.
Proof.
  destruct (C8_pattern_score_is_capped_and_score_clamped
              [] (MkContext None None (Some [str "MATH_REASONING"]))
              (str "MATH_REASONING") Samples.countWithDigit (str "how many")
              Samples.mathEntry)
    as [_ [Hboost [_ [Hscore _]]]].
  split; [|split].
  - destruct Hboost as [-> _]; vm_compute; reflexivity.
  - vm_compute. reflexivity.
  - exact (proj1 Hscore).
Defined.

End IntentTheorems.

(* ================================================================= *)
(** ** The response formatter *)

Module FormatterFacts.
Import Js Regex Formatter RegexFacts.
Local Open Scope string_scope.
Local Open Scope list_scope.
Local Open Scope nat_scope.

(** The lines of a text without pipe hold no pipe. *)
Lemma splitOn_no_pipe (text : jsstring) :
  hasPipe text = false ->
  Forall (fun line => hasPipe line = false) (splitOn LF text).
Proof.
  induction text as [|c text IH]; intros H.
  - repeat constructor.
  - cbn [hasPipe existsb] in H. apply orb_false_iff in H.
    destruct H as [Hc Ht]. specialize (IH Ht). cbn [splitOn].
    destruct (Ascii.eqb c LF).
    + constructor; [reflexivity|exact IH].
    + destruct (splitOn LF text) as [|l ls].
      * constructor; [|constructor]. cbn [hasPipe existsb]. now rewrite Hc.
      * inversion IH as [|? ? Hl Hls]; subst.
        constructor; [|exact Hls].
        cbn [hasPipe existsb]. rewrite Hc. exact Hl.
Qed.

Lemma Forall_filter (A : Type) (P : A -> Prop) (f : A -> bool) (l : list A) :
  Forall P l -> Forall P (filter f l).
Proof.
  induction 1 as [|x l Hx Hl IH]; cbn [filter]; [constructor|].
  destruct (f x); [constructor|]; assumption.
Qed.

Lemma tableRows_no_pipe (ls : list jsstring) :
  Forall (fun line => hasPipe line = false) ls -> tableRows ls = [].
Proof.
  induction 1 as [|line ls Hl Hls IH]; cbn [tableRows]; [reflexivity|].
  now rewrite Hl.
Qed.

(** Without a pipe [extractAndFormatTable] has nothing to extract. *)
Lemma extractAndFormatTable_no_pipe (text : jsstring) :
  hasPipe text = false -> extractAndFormatTable text = Text text.
Proof.
  intros H. unfold extractAndFormatTable.
  rewrite tableRows_no_pipe; [reflexivity|].
  apply Forall_filter. now apply splitOn_no_pipe.
Qed.

(** The order of the detectors. *)
Lemma formatResponse_order (parsesToChart : jsstring -> bool)
      (text : jsstring) :
  hasChartPattern text && isChart (extractAndFormatChart parsesToChart text)
  = false ->
  formatResponse parsesToChart text =
  if hasTablePattern text then extractAndFormatTable text
  else if hasRankingPattern text then extractAndFormatRanking text
  else if hasListPattern text then extractAndFormatList text
  else Text text.
Proof. intros H. unfold formatResponse. now rewrite H. Qed.

End FormatterFacts.

Module FormatterTheorems.
Import Js Regex Formatter RegexFacts FormatterFacts.
Local Open Scope string_scope.
Local Open Scope list_scope.
Local Open Scope nat_scope.

(** C9, where the code parts from it.  The table detector also fires
    on a line "number, full stop, word, colon, digits", and the table
    extractor reads pipe rows only: a text without chart marker and
    without pipe that holds such a line comes back as plain text, and
    the ranking detector is never asked. *)
Theorem C9_numbered_values_without_pipe_come_back_as_text :
  forall (parsesToChart : jsstring -> bool) (text : jsstring),
    hasChartPattern text = false ->
    test reStructured text = true ->
    hasPipe text = false ->
    formatResponse parsesToChart text = Text text.
Proof.
  intros parses text Hchart Hstruct Hpipe.
  rewrite formatResponse_order by now rewrite Hchart.
  unfold hasTablePattern. rewrite Hstruct, orb_true_r.
  now apply extractAndFormatTable_no_pipe.
Qed.

(** C9 on the two-line ranking "1. USA: 5000 / 2. Russia: 4000": the
    result has type text, although the text has the ranking shape and
    the ranking extractor, had it been asked, reads both lines. *)
Lemma C9_witness :
  formatResponse Samples.noChart Samples.numberedRanking
  = Text Samples.numberedRanking
  /\ hasRankingPattern Samples.numberedRanking = true
  /\ extractAndFormatRanking Samples.numberedRanking
     = Ranking [MkItem (Num.ofNat 1) (str "USA") (str "5000");
                MkItem (Num.ofNat 2) (str "Russia") (str "4000")]
               Samples.numberedRanking.
Proof.
  split; [|split].
  - apply C9_numbered_values_without_pipe_come_back_as_text;
      vm_compute; reflexivity.
  - vm_compute. reflexivity.
  - vm_compute. reflexivity.
Defined.

(** The same ranking numbered "1)" and "2)" escapes the table detector
    and is formatted as a ranking. *)
Example paren_ranking_is_ranking :
  formatResponse Samples.noChart Samples.parenRanking
  = Ranking [MkItem (Num.ofNat 1) (str "USA") (str "5000");
             MkItem (Num.ofNat 2) (str "Russia") (str "4000")]
            Samples.parenRanking.
Proof. vm_compute. reflexivity. Qed.

End FormatterTheorems.

(* ================================================================= *)
(** ** The memory store: keywords and recall *)

Module RecallFacts.
Import Js Num MemoryStore JsFacts MemoryFacts.
Local Open Scope string_scope.
Local Open Scope list_scope.
Local Open Scope nat_scope.

Lemma arrayIncludes_In (x : jsstring) (arr : list jsstring) :
  arrayIncludes x arr = true <-> In x arr.
Proof.
  unfold arrayIncludes. rewrite existsb_exists. split.
  - intros [y [Hy He]]. apply eqs_true in He. now subst.
  - intros H. exists x. split; [exact H|apply eqs_refl].
Qed.

(** [Array.from(new Set(l))] keeps one copy of each element of [l]. *)
Lemma dedup_In (seen l : list jsstring) (y : jsstring) :
  In y (dedup seen l) <-> In y l /\ ~ In y seen.
Proof.
  revert seen. induction l as [|x l IH]; intros seen; cbn [dedup].
  - simpl. tauto.
  - destruct (arrayIncludes x seen) eqn:E.
    + apply arrayIncludes_In in E. rewrite IH. simpl. split.
      * intros [H1 H2]. split; [now right|exact H2].
      * intros [[->|H1] H2]; [contradiction|now split].
    + assert (Hx : ~ In x seen).
      { intros H. apply arrayIncludes_In in H. congruence. }
      simpl. rewrite IH. simpl. split.
      * intros [->|[H1 H2]]; [now split; [left|]|].
        split; [now right|]. intros H. apply H2. now right.
      * intros [[->|H1] H2]; [now left|].
        destruct (list_eq_dec ascii_dec x y) as [->|Hne]; [now left|].
        right. split; [exact H1|]. intros [H|H]; [contradiction|].
        contradiction.
Qed.

Lemma dedup_NoDup (seen l : list jsstring) : NoDup (dedup seen l).
Proof.
  revert seen. induction l as [|x l IH]; intros seen; cbn [dedup].
  - constructor.
  - destruct (arrayIncludes x seen); [apply IH|].
    constructor; [|apply IH].
    intros H. apply dedup_In in H. destruct H as [_ H]. apply H. now left.
Qed.

Lemma NoDup_firstn (A : Type) (n : nat) (l : list A) :
  NoDup l -> NoDup (firstn n l).
Proof.
  revert l. induction n as [|n IH]; intros [|x l] H; cbn [firstn];
    try constructor.
  - inversion H as [|? ? Hx Hl]; subst. intros Hin. apply Hx.
    now apply In_firstn in Hin.
  - inversion H; subst. now apply IH.
Qed.

(** Every character of a piece comes from the text that was split. *)
Lemma splitBackslashS_chars (s : jsstring) (skip : bool) (piece : jsstring)
      (c : ascii) :
  In piece (splitBackslashS skip s) -> In c piece -> In c s.
Proof.
  revert skip piece. induction s as [|x s IH]; intros skip piece; cbn [splitBackslashS].
  - intros [<-|[]] [].
  - destruct (skip && Ascii.eqb x "s") eqn:E1.
    { intros Hp Hc. right. exact (IH true piece Hp Hc). }
    destruct (Ascii.eqb x backslash &&
              match s with c' :: _ => Ascii.eqb c' "s" | [] => false end).
    { intros [<-|Hp] Hc; [destruct Hc|]. right. exact (IH true piece Hp Hc). }
    destruct (splitBackslashS false s) as [|l ls] eqn:E.
    + intros [<-|[]] [<-|[]]. now left.
    + intros [<-|Hp] Hc.
      * destruct Hc as [<-|Hc]; [now left|]. right.
        apply (IH false l); [rewrite E; now left|exact Hc].
      * right. apply (IH false piece); [rewrite E; now right|exact Hc].
Qed.

(** What [clean] leaves in a text. *)
Lemma clean_chars (text : jsstring) (c : ascii) :
  In c (clean text) -> keptByClean c = true \/ c = " "%char.
Proof.
  unfold clean. intros H. apply in_map_iff in H.
  destruct H as [x [Hx _]].
  destruct (keptByClean x) eqn:E; [left|right]; congruence.
Qed.

End RecallFacts.

Module RecallTheorems.
Import Js Num MemoryStore JsFacts MemoryFacts RecallFacts.
Local Open Scope string_scope.
Local Open Scope list_scope.
Local Open Scope nat_scope.

(** X1.  The keywords [extractKeywords] returns: at most 40, pairwise
    distinct, each one a token of the text with three characters or
    more that is not a stop word, and made of lower-case letters,
    digits, backslashes and blanks only. *)
Theorem extractKeywords_invariants :
  forall text : jsstring,
    length (extractKeywords text) <= 40 /\
    NoDup (extractKeywords text) /\
    Forall (fun k =>
              In k (tokenize text) /\
              3 <= length k /\
              ~ In k STOP_WORDS /\
              Forall (fun c => keptByClean c = true \/ c = " "%char) k)
           (extractKeywords text).
Proof.
  intros text. unfold extractKeywords. split; [|split].
  - rewrite length_firstn. apply Nat.le_min_l.
  - apply NoDup_firstn, dedup_NoDup.
  - apply Forall_forall. intros k Hk.
    apply In_firstn in Hk. apply dedup_In in Hk. destruct Hk as [Hk _].
    apply filter_In in Hk. destruct Hk as [Htok Hk].
    apply andb_true_iff in Hk. destruct Hk as [Hlen Hstop].
    split; [exact Htok|]. split; [now apply Nat.leb_le|]. split.
    + intros Hin. apply arrayIncludes_In in Hin.
      rewrite Hin in Hstop. discriminate.
    + apply Forall_forall. intros c Hc. apply (clean_chars text).
      unfold tokenize in Htok. apply filter_In in Htok.
      destruct Htok as [Htok _].
      exact (splitBackslashS_chars _ _ _ _ Htok Hc).
Qed.

(** X2.  What a recall returns: never more than [limit] entries, all
    of them taken from the store, scored at [MIN_SCORE] or more against
    the query's keywords, and inside the caller's scope: outside team
    mode, with a user id given, only that user's entries; in team mode,
    with a team id given, only that team's.  A query without keyword
    returns nothing. *)
Theorem queryMemoryEntries_scope_and_limit :
  forall (dateParse : jsstring -> option Z) (nowAt : nat -> Z)
         (entries : list entry) (query : jsstring) (limit : nat)
         (o : options),
    let found := queryMemoryEntries dateParse nowAt entries query limit o in
    length found <= limit /\
    (extractKeywords query = [] -> found = []) /\
    Forall (fun e =>
              In e entries /\
              fge (scoreEntry e (extractKeywords query) o) MIN_SCORE = true /\
              (qteamMode o = false -> truthyStr (quserId o) = true ->
               userId e = quserId o) /\
              (qteamMode o = true -> truthyStr (qteamId o) = true ->
               teamId e = qteamId o))
           found.
Proof.
  intros dateParse nowAt entries query limit o found. subst found.
  unfold queryMemoryEntries.
  destruct (length (extractKeywords query) =? 0) eqn:Hk.
  { split; [simpl; lia|]. split; [reflexivity|constructor]. }
  split; [|split].
  - rewrite length_map, length_firstn. apply Nat.le_min_l.
  - intros E. rewrite E in Hk. discriminate.
  - apply Forall_forall. intros e H.
    apply in_map_iff in H. destruct H as [[e' sc] [He H]].
    cbn [fst] in He. subst e'.
    apply In_firstn in H. apply sortByScore_In in H.
    apply filter_In in H. destruct H as [H Hsc]. cbn [snd] in Hsc.
    apply in_map_iff in H. destruct H as [e' [He H]].
    inversion He; subst e' sc. clear He.
    apply filterAt_In in H. destruct H as [Hin _].
    assert (Hsame : forall a b : option jsstring,
               sameStr a b = true -> a = b).
    { intros [a|] [b|] Hs; try discriminate Hs.
      apply eqs_true in Hs. now subst. }
    unfold filterEntriesForUser in Hin.
    split; [|split; [exact Hsc|split]].
    + destruct (qteamMode o); [destruct (truthyStr (qteamId o))|
                               destruct (negb (truthyStr (quserId o)))];
        try exact Hin; apply filter_In in Hin; tauto.
    + intros Hmode Huser. rewrite Hmode, Huser in Hin. cbn [negb] in Hin.
      apply filter_In in Hin. apply Hsame. tauto.
    + intros Hmode Hteam. rewrite Hmode, Hteam in Hin.
      apply filter_In in Hin. apply Hsame. tauto.
Qed.

End RecallTheorems.

(* ================================================================= *)
(** ** The response formatter: escaping and markup *)

Module HtmlFacts.
Import Js Formatter Html JsFacts.
Local Open Scope string_scope.
Local Open Scope list_scope.
Local Open Scope nat_scope.

Lemma escapeChar_plain (c : ascii) :
  special c = false -> escapeChar c = [c].
Proof.
  unfold special, escapeChar. cbn [existsb]. intros H.
  repeat (apply orb_false_iff in H; destruct H as [-> H]). reflexivity.
Qed.

Lemma special_cases (c : ascii) :
  special c = true ->
  c = "&"%char \/ c = "<"%char \/ c = ">"%char \/ c = quote \/ c = "'"%char.
Proof.
  destruct c as [[] [] [] [] [] [] [] []]; vm_compute; intros H;
    try discriminate H; tauto.
Qed.

Ltac special_char H :=
  apply special_cases in H;
  destruct H as [H|[H|[H|[H|H]]]]; rewrite H in *; clear H.

Lemma escapeChar_output (c x : ascii) :
  In x (escapeChar c) ->
  special x = false \/ (x = "&"%char /\ special c = true).
Proof.
  destruct (special c) eqn:E.
  - assert (E' := E). special_char E'; cbn; intros Hx;
      repeat (destruct Hx as [<-|Hx]; [tauto|]); destruct Hx.
  - rewrite (escapeChar_plain c E). intros [<-|[]]. now left.
Qed.

(** The codes of two characters never overlap: one is a prefix of the
    other only when the characters are the same. *)
Lemma escapeChar_prefix_free (c d : ascii) (u v : jsstring) :
  escapeChar c ++ u = escapeChar d ++ v -> c = d /\ u = v.
Proof.
  destruct (special c) eqn:Ec, (special d) eqn:Ed.
  - special_char Ec; special_char Ed; cbn; intros H;
      try discriminate H; (split; [reflexivity|]); now inversion H.
  - rewrite (escapeChar_plain d Ed).
    special_char Ec; cbn; intros H; inversion H; subst d;
      discriminate Ed.
  - rewrite (escapeChar_plain c Ec).
    special_char Ed; cbn; intros H; inversion H; subst c;
      discriminate Ec.
  - rewrite (escapeChar_plain c Ec), (escapeChar_plain d Ed). cbn.
    intros H. now inversion H.
Qed.

Lemma escapeChar_nonempty (c : ascii) : escapeChar c <> [].
Proof.
  destruct c as [[] [] [] [] [] [] [] []]; vm_compute; discriminate.
Qed.

(** *** Counting characters *)

Lemma countChar_app (c : ascii) (a b : jsstring) :
  countChar c (a ++ b) = countChar c a + countChar c b.
Proof. unfold countChar. now rewrite filter_app, length_app. Qed.

Lemma filter_none (A : Type) (f : A -> bool) (l : list A) :
  (forall x, In x l -> f x = false) -> filter f l = [].
Proof.
  induction l as [|x l IH]; intros H; cbn [filter]; [reflexivity|].
  rewrite (H x) by now left. apply IH. intros y Hy. apply H. now right.
Qed.

Lemma countChar_escapeHtml (c : ascii) (text : jsstring) :
  special c = true -> c <> "&"%char -> countChar c (escapeHtml text) = 0.
Proof.
  intros Hs Hc. unfold countChar.
  assert (H : filter (Ascii.eqb c) (escapeHtml text) = []);
    [|now rewrite H].
  apply filter_none.
  intros x Hx. apply Ascii.eqb_neq. intros <-.
  unfold escapeHtml in Hx. apply in_flat_map in Hx.
  destruct Hx as [y [_ Hx]].
  destruct (escapeChar_output y c Hx) as [H|[H _]]; congruence.
Qed.

Lemma countChar_concat_map (A : Type) (c : ascii) (f : A -> jsstring)
      (k : nat) (l : list A) :
  (forall x, In x l -> countChar c (f x) = k) ->
  countChar c (concat (map f l)) = k * length l.
Proof.
  induction l as [|x l IH]; intros H; cbn [map concat length].
  - now rewrite Nat.mul_0_r.
  - rewrite countChar_app, IH by (intros y Hy; apply H; now right).
    rewrite (H x) by now left. lia.
Qed.

End HtmlFacts.

Module HtmlTheorems.
Import Js Formatter Html JsFacts HtmlFacts.
Local Open Scope string_scope.
Local Open Scope list_scope.
Local Open Scope nat_scope.

(** X3.  [escapeHtml] leaves no angle bracket and no quote in its
    output, loses nothing (two different texts have different
    escapes), never shortens a text, and returns unchanged a text that
    holds none of the five characters it replaces. *)
Theorem escapeHtml_is_safe_and_faithful :
  forall a b : jsstring,
    Forall (fun x => x <> "<"%char /\ x <> ">"%char /\ x <> quote /\
                     x <> "'"%char)
           (escapeHtml a) /\
    (escapeHtml a = escapeHtml b -> a = b) /\
    length a <= length (escapeHtml a) /\
    (forallb (fun c => negb (special c)) a = true -> escapeHtml a = a).
Proof.
  intros a b. split; [|split; [|split]].
  - apply Forall_forall. intros x Hx. unfold escapeHtml in Hx.
    apply in_flat_map in Hx. destruct Hx as [y [_ Hx]].
    destruct (escapeChar_output y x Hx) as [H|[-> _]].
    + repeat split; intros ->; discriminate H.
    + repeat split; discriminate.
  - revert b. induction a as [|c a IH]; intros [|d b]; cbn [escapeHtml flat_map].
    + reflexivity.
    + intros H. symmetry in H. apply app_eq_nil in H.
      destruct H as [H _]. now apply escapeChar_nonempty in H.
    + intros H. apply app_eq_nil in H.
      destruct H as [H _]. now apply escapeChar_nonempty in H.
    + intros H. apply escapeChar_prefix_free in H. destruct H as [-> H].
      f_equal. now apply IH.
  - induction a as [|c a IH]; cbn [escapeHtml flat_map length]; [lia|].
    rewrite length_app. fold (escapeHtml a).
    pose proof (escapeChar_nonempty c) as Hc.
    destruct (escapeChar c); [congruence|]. cbn [length]. lia.
  - induction a as [|c a IH]; cbn [forallb escapeHtml flat_map];
      [reflexivity|].
    intros H. apply andb_true_iff in H. destruct H as [Hc Ha].
    apply negb_true_iff in Hc. rewrite (escapeChar_plain c Hc).
    cbn [app]. f_equal. now apply IH.
Qed.

(** X4.  The markup of a formatted list, table or paragraph is the
    formatter's own: whatever the items or cells hold, the output has
    exactly the angle brackets and double quotes of the tags written
    around them, two of each bracket per item, per cell and per row. *)
Theorem toHTML_markup_is_not_data :
  forall (numberToString : Num.f64 -> jsstring)
         (chartToHTML : jsstring -> jsstring)
         (headers items : list jsstring) (rows : list (list jsstring))
         (content : jsstring),
    let render := toHTML numberToString chartToHTML in
    (countChar "<" (render (ListOf items content)) = 2 + 2 * length items /\
     countChar ">" (render (ListOf items content)) = 2 + 2 * length items /\
     countChar quote (render (ListOf items content)) = 2)
    /\
    (countChar "<" (render (Table headers rows content))
     = 8 + 2 * length headers + 2 * length rows + 2 * cellCount rows /\
     countChar ">" (render (Table headers rows content))
     = 8 + 2 * length headers + 2 * length rows + 2 * cellCount rows /\
     countChar quote (render (Table headers rows content)) = 2)
    /\
    (countChar "<" (render (Text content)) = 2 /\
     countChar ">" (render (Text content)) = 2 /\
     countChar quote (render (Text content)) = 0).
Proof.
  intros numberToString chartToHTML headers items rows content render.
  subst render. cbn [toHTML].
  assert (Hcell : forall (c : ascii) (open close : string) (l : list jsstring),
             special c = true -> c <> "&"%char ->
             countChar c (concat (map (fun x => str open ++ escapeHtml x ++
                                                str close) l))
             = (countChar c (str open) + countChar c (str close)) * length l).
  { intros c open close l Hs Hc. apply countChar_concat_map.
    intros x _. rewrite !countChar_app, (countChar_escapeHtml c x Hs Hc).
    lia. }
  assert (Hrows : forall c : ascii,
             special c = true -> c <> "&"%char ->
             countChar c
               (concat
                  (map (fun row =>
                          str "<tr>" ++
                          concat (map (fun cell =>
                                         str "<td>" ++ escapeHtml cell ++
                                         str "</td>") row) ++
                          str "</tr>") rows))
             = (countChar c (str "<tr>") + countChar c (str "</tr>"))
               * length rows
               + (countChar c (str "<td>") + countChar c (str "</td>"))
                 * cellCount rows).
  { intros c Hs Hc. unfold cellCount.
    induction rows as [|row rows IH]; cbn [map concat length];
      [change (countChar c []) with 0; lia|].
    rewrite !countChar_app, IH, (Hcell c "<td>" "</td>" row Hs Hc).
    rewrite length_app. lia. }
  unfold listToHTML, tableToHTML.
  repeat split; rewrite ?countChar_app;
    rewrite ?Hcell, ?Hrows, ?countChar_escapeHtml
      by (reflexivity || discriminate);
    vm_compute countChar; lia.
Qed.

End HtmlTheorems.

(* ================================================================= *)
(** ** The response formatter: what the extractors return *)

Module ExtractorFacts.
Import Js Regex Formatter Html JsFacts FormatterFacts.
Local Open Scope string_scope.
Local Open Scope list_scope.
Local Open Scope nat_scope.

(** No piece of a split holds the separator. *)
Lemma splitOn_no_sep (sep : ascii) (s piece : jsstring) :
  In piece (splitOn sep s) -> ~ In sep piece.
Proof.
  revert piece. induction s as [|c s IH]; intros piece; cbn [splitOn].
  - intros [<-|[]] [].
  - destruct (Ascii.eqb_spec c sep) as [->|Hne].
    + intros [<-|H]; [intros []|now apply IH].
    + destruct (splitOn sep s) as [|l ls].
      * intros [<-|[]] [H|[]]. congruence.
      * intros [<-|H].
        -- intros [E|Hin]; [congruence|].
           apply (IH l); [now left|exact Hin].
        -- apply IH. now right.
Qed.

Lemma hasPipe_false (s : jsstring) : hasPipe s = false <-> ~ In "|"%char s.
Proof.
  unfold hasPipe. split.
  - intros H Hin.
    assert (existsb (Ascii.eqb "|") s = true).
    { apply existsb_exists. exists "|"%char. split; [exact Hin|reflexivity]. }
    congruence.
  - intros H. destruct (existsb (Ascii.eqb "|") s) eqn:E; [|reflexivity].
    apply existsb_exists in E. destruct E as [x [Hx E]].
    apply Ascii.eqb_eq in E. subst x. contradiction.
Qed.

Lemma tableRows_rows (ls : list jsstring) :
  Forall (fun row => 2 <= length row /\ Forall goodCell row) (tableRows ls).
Proof.
  induction ls as [|line ls IH]; cbn [tableRows]; [constructor|].
  destruct (hasPipe line); [|exact IH].
  destruct (1 <? length _) eqn:E; [|exact IH].
  constructor; [|exact IH]. split; [now apply Nat.ltb_lt in E|].
  apply Forall_forall. intros cell Hc.
  apply filter_In in Hc. destruct Hc as [Hc Hne].
  apply in_map_iff in Hc. destruct Hc as [piece [<- Hp]].
  split; [|split].
  - intros E'. rewrite E' in Hne. discriminate.
  - apply trim_idempotent.
  - apply hasPipe_false. intros Hin. apply trim_In in Hin.
    exact (splitOn_no_sep _ _ _ Hp Hin).
Qed.

(** *** Sorting by rank *)

(** Of two Numbers at most one is smaller than the other. *)
Lemma SFltb_asym (x y : spec_float) : SFltb x y = true -> SFltb y x = false.
Proof.
  unfold SFltb, SFcompare.
  destruct x as [sx|sx| |sx mx ex], y as [sy|sy| |sy my ey];
    try discriminate; try reflexivity;
    try (destruct sx; try discriminate; reflexivity);
    try (destruct sy; try discriminate; reflexivity);
    try (destruct sx, sy; try discriminate; reflexivity).
  change (Pos.compare_cont Eq mx my) with (mx ?= my)%positive.
  change (Pos.compare_cont Eq my mx) with (my ?= mx)%positive.
  rewrite (Z.compare_antisym ex ey), (Pos.compare_antisym mx my).
  destruct sx, sy; try discriminate; try reflexivity;
    destruct (ex ?= ey)%Z; cbn [CompOpp]; try discriminate; try reflexivity;
    destruct (mx ?= my)%positive; cbn [CompOpp]; try discriminate;
    reflexivity.
Qed.

Lemma rankSorted_cons (x : rankItem) (l : list rankItem) :
  rankSorted (x :: l) <->
  (forall y rest, l = y :: rest -> SFltb (rank y) (rank x) = false) /\
  rankSorted l.
Proof.
  cbn [rankSorted]. destruct l as [|y l']; split.
  - intros [_ H]. split; [intros ? ? E; discriminate E|exact H].
  - intros [_ H]. split; [exact I|exact H].
  - intros [H1 H2]. split; [|exact H2].
    intros ? ? E. inversion E; subst. exact H1.
  - intros [H1 H2]. split; [now apply (H1 y l')|exact H2].
Qed.

Lemma insertByRank_head (x : rankItem) (l : list rankItem) (z : rankItem) :
  (forall y rest, l = y :: rest -> SFltb (rank y) (rank z) = false) ->
  SFltb (rank x) (rank z) = false ->
  forall y rest, insertByRank x l = y :: rest ->
                 SFltb (rank y) (rank z) = false.
Proof.
  intros Hl Hx y rest. destruct l as [|h l']; cbn [insertByRank].
  - intros E. inversion E; subst. exact Hx.
  - destruct (SFltb (rank h) (rank x)); intros E; inversion E; subst.
    + now apply (Hl y l').
    + exact Hx.
Qed.

Lemma insertByRank_sorted (x : rankItem) (l : list rankItem) :
  rankSorted l -> rankSorted (insertByRank x l).
Proof.
  induction l as [|y l IH]; intros Hl.
  - cbn. tauto.
  - cbn [insertByRank]. destruct (SFltb (rank y) (rank x)) eqn:Hlt.
    + apply rankSorted_cons in Hl. destruct Hl as [Hy Hl].
      apply rankSorted_cons. split; [|now apply IH].
      apply insertByRank_head; [exact Hy|now apply SFltb_asym].
    + apply rankSorted_cons. split; [|exact Hl].
      intros ? ? E. inversion E; subst. exact Hlt.
Qed.

Lemma sortByRank_sorted (l : list rankItem) : rankSorted (sortByRank l).
Proof.
  induction l as [|x l IH]; [exact I|].
  apply insertByRank_sorted. exact IH.
Qed.

Lemma insertByRank_In (x y : rankItem) (l : list rankItem) :
  In y (insertByRank x l) <-> y = x \/ In y l.
Proof.
  induction l as [|h l IH]; cbn [insertByRank].
  - simpl. intuition congruence.
  - destruct (SFltb (rank h) (rank x)); simpl; rewrite ?IH;
      intuition congruence.
Qed.

Lemma insertByRank_length (x : rankItem) (l : list rankItem) :
  length (insertByRank x l) = S (length l).
Proof.
  induction l as [|h l IH]; cbn [insertByRank]; [reflexivity|].
  destruct (SFltb (rank h) (rank x)); cbn [length];
    [now rewrite IH|reflexivity].
Qed.

Lemma sortByRank_In (y : rankItem) (l : list rankItem) :
  In y (sortByRank l) <-> In y l.
Proof.
  induction l as [|x l IH]; [reflexivity|].
  cbn [sortByRank fold_right]. fold (sortByRank l).
  rewrite insertByRank_In, IH. simpl. intuition congruence.
Qed.

Lemma sortByRank_length (l : list rankItem) :
  length (sortByRank l) = length l.
Proof.
  induction l as [|x l IH]; [reflexivity|].
  cbn [sortByRank fold_right]. fold (sortByRank l).
  now rewrite insertByRank_length, IH.
Qed.

(** An item already in place stays first among the items of its rank:
    the sort is stable. *)
Lemma sortByRank_sorted_fixed (l : list rankItem) :
  rankSorted l -> sortByRank l = l.
Proof.
  induction l as [|x l IH]; [reflexivity|].
  intros H. apply rankSorted_cons in H. destruct H as [Hx Hl].
  cbn [sortByRank fold_right]. fold (sortByRank l). rewrite (IH Hl).
  destruct l as [|y l']; [reflexivity|].
  cbn [insertByRank]. now rewrite (Hx y l' eq_refl).
Qed.

End ExtractorFacts.

Module ExtractorTheorems.
Import Js Regex Formatter Html JsFacts FormatterFacts ExtractorFacts.
Local Open Scope string_scope.
Local Open Scope list_scope.
Local Open Scope nat_scope.

(** X5.  [extractAndFormatTable] returns either the text as it is, or a
    table whose header and rows all have two cells or more, every cell
    being non-empty, trimmed and free of pipes; a text without pipe
    always comes back as text. *)
Theorem extractAndFormatTable_shape :
  forall text : jsstring,
    (extractAndFormatTable text = Text text \/
     exists headers rows,
       extractAndFormatTable text = Table headers rows text /\
       Forall (fun row => 2 <= length row /\ Forall goodCell row)
              (headers :: rows)) /\
    (hasPipe text = false -> extractAndFormatTable text = Text text).
Proof.
  intros text. split; [|apply extractAndFormatTable_no_pipe].
  unfold extractAndFormatTable.
  pose proof (tableRows_rows (filter nonBlank (splitOn LF text))) as H.
  destruct (tableRows _) as [|headers rows]; [now left|].
  right. exists headers, rows. now split.
Qed.

Lemma proseLoop_ranks (text : jsstring) (countries : list string)
      (next : nat) :
  1 <= next <= 10 ->
  map rank (proseLoop text countries next)
  = countFrom next (length (proseLoop text countries next)) /\
  length (proseLoop text countries next) <= 11 - next.
Proof.
  unfold countFrom.
  revert next. induction countries as [|country rest IH]; intros next Hn;
    cbn [proseLoop].
  - cbn [map length seq]. split; [reflexivity|lia].
  - destruct (includes (str country) text); [|now apply IH].
    destruct (Nat.ltb_spec 10 (next + 1)) as [Hstop|Hgo].
    + cbn [map length rank seq]. split; [reflexivity|lia].
    + destruct (IH (next + 1) ltac:(lia)) as [H1 H2].
      cbn [map length rank seq].
      split; [|lia]. rewrite H1. now rewrite Nat.add_1_r.
Qed.

(** X6.  [extractAndFormatRanking] returns either the text as it is, or
    a ranking that holds at least one item, with the items in
    non-decreasing order of rank, the ranks being the Numbers that
    [parseInt] reads: no item is followed by one of a smaller rank.
    Items found already in that order are left in place.  The prose
    fallback yields at most ten items, ranked 1, 2, 3, ... *)
Theorem extractAndFormatRanking_shape :
  forall text : jsstring,
    (extractAndFormatRanking text = Text text \/
     exists items,
       extractAndFormatRanking text = Ranking items text /\
       items <> [] /\ rankSorted items) /\
    (forall items : list rankItem,
        rankSorted items -> sortByRank items = items) /\
    length (extractProseRankings text) <= 10 /\
    map rank (extractProseRankings text)
    = countFrom 1 (length (extractProseRankings text)).
Proof.
  intros text. split; [|split; [apply sortByRank_sorted_fixed|]].
  - unfold extractAndFormatRanking.
    set (rankings := if negb (length _ =? 0) then _ else _).
    destruct (0 <? length rankings) eqn:E; [|now left].
    right. exists (sortByRank rankings).
    split; [reflexivity|]. split; [|apply sortByRank_sorted].
    intros H. apply (f_equal (@length rankItem)) in H.
    rewrite sortByRank_length in H. cbn [length] in H.
    rewrite H in E. discriminate.
  - destruct (proseLoop_ranks text countryOrder 1 ltac:(lia)) as [H1 H2].
    unfold extractProseRankings. split; [lia|exact H1].
Qed.

(** Numerals beyond 2^53: the ranks 9007199254740993 and
    9007199254740992 read the same Number, so that their items tie and
    keep their order; and a numeral in [0x] is read in base 16. *)
Example ranks_beyond_53_bits_tie :
  parseInt (str "9007199254740993") = parseInt (str "9007199254740992") /\
  map name
      (sortByRank [MkItem (parseInt (str "9007199254740993")) (str "A") [];
                   MkItem (parseInt (str "9007199254740992")) (str "B") []])
  = [str "A"; str "B"] /\
  parseInt (str "0x1F") = Num.ofNat 31 /\
  parseInt (str "0xg") = Num.NaN.
Proof. vm_compute. repeat split; reflexivity. Qed.

(** X7.  Whatever [formatResponse] decides, the object it returns
    carries the text it was given in [content], untouched. *)
Theorem formatResponse_keeps_content :
  forall (parsesToChart : jsstring -> bool) (text : jsstring),
    contentOf (formatResponse parsesToChart text) = text.
Proof.
  intros parses text.
  assert (Hchart : contentOf (extractAndFormatChart parses text) = text).
  { unfold extractAndFormatChart.
    destruct (exec reChartBody text 0) as [[b st]|]; [|reflexivity].
    destruct (exec reBraces _ 0) as [[b' st']|]; [|reflexivity].
    now destruct (parses _). }
  unfold formatResponse.
  destruct (hasChartPattern text && _); [exact Hchart|].
  destruct (hasTablePattern text).
  { unfold extractAndFormatTable. now destruct (tableRows _). }
  destruct (hasRankingPattern text).
  { unfold extractAndFormatRanking. now destruct (0 <? _). }
  destruct (hasListPattern text); [|reflexivity].
  unfold extractAndFormatList. now destruct (0 <? _).
Qed.

End ExtractorTheorems.

(* ================================================================= *)
(** ** What the regular expressions accept *)

Module SpansFacts.
Import Js Regex Spans JsFacts RegexFacts.
Local Open Scope list_scope.
Local Open Scope nat_scope.

Lemma spans_spansIn (r : re) (pre seg post : jsstring) :
  spans r seg -> spansIn r pre seg post.
Proof. intros H cs. apply H. Qed.

Lemma spansIn_eps (pre post : jsstring) : spansIn Eps pre [] post.
Proof.
  intros cs. exists cs. cbn [run length]. rewrite Nat.add_0_r. now left.
Qed.

Lemma spans_eps : spans Eps [].
Proof. intros pre post. apply spansIn_eps. Qed.

Lemma spans_cls (p : ascii -> bool) (c : ascii) :
  p c = true -> spans (Cls p) [c].
Proof.
  intros Hp pre post cs. exists cs. cbn [run pos caps app length].
  rewrite charAt_middle, Hp. left. f_equal. lia.
Qed.

Lemma spansIn_cat (a b : re) (pre u v post : jsstring) :
  spansIn a pre u (v ++ post) -> spansIn b (pre ++ u) v post ->
  spansIn (Cat a b) pre (u ++ v) post.
Proof.
  intros Ha Hb cs.
  destruct (Ha cs) as [cs1 H1]. destruct (Hb cs1) as [cs2 H2].
  exists cs2. cbn [run]. apply in_flat_map.
  exists (MkSt (length pre + length u) cs1).
  rewrite <- app_assoc. split; [exact H1|].
  rewrite !length_app in *. rewrite <- !app_assoc in H2.
  now rewrite Nat.add_assoc.
Qed.

Lemma spans_cat (a b : re) (u v : jsstring) :
  spans a u -> spans b v -> spans (Cat a b) (u ++ v).
Proof.
  intros Ha Hb pre post. apply spansIn_cat; apply spans_spansIn; assumption.
Qed.

Lemma spansIn_alt_l (a b : re) (pre seg post : jsstring) :
  spansIn a pre seg post -> spansIn (Alt a b) pre seg post.
Proof.
  intros H cs. destruct (H cs) as [cs' H']. exists cs'.
  cbn [run]. apply in_or_app. now left.
Qed.

Lemma spansIn_alt_r (a b : re) (pre seg post : jsstring) :
  spansIn b pre seg post -> spansIn (Alt a b) pre seg post.
Proof.
  intros H cs. destruct (H cs) as [cs' H']. exists cs'.
  cbn [run]. apply in_or_app. now right.
Qed.

Lemma spans_alt_l (a b : re) (seg : jsstring) :
  spans a seg -> spans (Alt a b) seg.
Proof. intros H pre post. apply spansIn_alt_l, spans_spansIn, H. Qed.

Lemma spans_alt_r (a b : re) (seg : jsstring) :
  spans b seg -> spans (Alt a b) seg.
Proof. intros H pre post. apply spansIn_alt_r, spans_spansIn, H. Qed.

(** One branch of an alternation is enough. *)
Lemma spans_alt_In (rs : list re) (r : re) (seg : jsstring) :
  In r rs -> spans r seg -> spans (alt rs) seg.
Proof.
  induction rs as [|x rs IH]; intros Hin Hr; [destruct Hin|].
  destruct rs as [|y rs].
  - destruct Hin as [->|[]]. exact Hr.
  - change (alt (x :: y :: rs)) with (Alt x (alt (y :: rs))).
    destruct Hin as [->|Hin]; [now apply spans_alt_l|].
    apply spans_alt_r. now apply IH.
Qed.

Lemma spans_grp (n : nat) (a : re) (seg : jsstring) :
  spans a seg -> spans (Grp n a) seg.
Proof.
  intros H pre post cs. destruct (H pre post cs) as [cs' H'].
  eexists. cbn [run]. apply in_map_iff.
  exists (MkSt (length pre + length seg) cs'). split; [|exact H'].
  cbn [pos caps]. reflexivity.
Qed.

Lemma spans_opt_some (a : re) (seg : jsstring) :
  spans a seg -> spans (opt a) seg.
Proof. apply spans_alt_l. Qed.

Lemma spans_opt_none (a : re) : spans (opt a) [].
Proof. apply spans_alt_r, spans_eps. Qed.

(** *** Repetition *)

Lemma starIter_mono (body : mstate -> list mstate) (g : bool)
      (f f' : nat) (st0 st : mstate) :
  f <= f' -> In st (starIter body g f st0) -> In st (starIter body g f' st0).
Proof.
  revert f' st0. induction f as [|k IH]; intros f' st0 Hle Hin.
  - cbn [starIter] in Hin. destruct Hin as [<-|[]]. apply starIter_self.
  - destruct f' as [|k']; [lia|].
    cbn [starIter] in *.
    assert (Hmore :
               In st (flat_map (fun st' => if pos st0 <? pos st'
                                           then starIter body g k st'
                                           else []) (body st0)) ->
               In st (flat_map (fun st' => if pos st0 <? pos st'
                                           then starIter body g k' st'
                                           else []) (body st0))).
    { intros Hx. apply in_flat_map in Hx. destruct Hx as [st' [H1 H2]].
      apply in_flat_map. exists st'. split; [exact H1|].
      revert H2. destruct (pos st0 <? pos st'); intros H2; [|exact H2].
      apply IH; [lia|exact H2]. }
    destruct g.
    + apply in_app_or in Hin. apply in_or_app.
      destruct Hin as [Hin|Hin]; [left; now apply Hmore|now right].
    + destruct Hin as [<-|Hin]; [now left|right; now apply Hmore].
Qed.

Lemma starIter_step (body : mstate -> list mstate) (g : bool) (f : nat)
      (st0 st1 st2 : mstate) :
  In st1 (body st0) -> pos st0 < pos st1 ->
  In st2 (starIter body g f st1) ->
  In st2 (starIter body g (S f) st0).
Proof.
  intros H1 Hlt H2. cbn [starIter].
  assert (Hmore : In st2 (flat_map (fun st' => if pos st0 <? pos st'
                                               then starIter body g f st'
                                               else []) (body st0))).
  { apply in_flat_map. exists st1. split; [exact H1|].
    apply Nat.ltb_lt in Hlt. now rewrite Hlt. }
  destruct g; [apply in_or_app; now left|now right].
Qed.

Lemma spans_star_nil (g : bool) (a : re) : spans (Star g a) [].
Proof.
  intros pre post cs. exists cs. cbn [run length pos].
  rewrite Nat.add_0_r. apply starIter_self.
Qed.

Lemma spans_star_app (g : bool) (a : re) (u v : jsstring) :
  spans a u -> u <> [] -> spans (Star g a) v -> spans (Star g a) (u ++ v).
Proof.
  intros Ha Hne Hs pre post cs.
  destruct (Ha pre (v ++ post) cs) as [cs1 H1].
  destruct (Hs (pre ++ u) post cs1) as [cs2 H2].
  exists cs2. cbn [run pos] in *.
  rewrite <- !app_assoc in *. rewrite !length_app in *.
  assert (Hu : 0 < length u) by (destruct u; [congruence|simpl; lia]).
  replace (length pre + (length u + (length v + length post)) - length pre)
    with (S (length u + length v + length post - 1)) by lia.
  apply (starIter_step _ _ _ _ (MkSt (length pre + length u) cs1)).
  - exact H1.
  - cbn [pos]. lia.
  - rewrite Nat.add_assoc. eapply starIter_mono; [|exact H2]. lia.
Qed.

(** A repeated class takes any stretch of its characters. *)
Lemma spans_star_cls (g : bool) (p : ascii -> bool) (seg : jsstring) :
  forallb p seg = true -> spans (Star g (Cls p)) seg.
Proof.
  induction seg as [|c seg IH]; intros H; [apply spans_star_nil|].
  cbn [forallb] in H. apply andb_true_iff in H. destruct H as [Hc Hs].
  change (c :: seg) with ([c] ++ seg).
  apply spans_star_app; [now apply spans_cls|discriminate|now apply IH].
Qed.

Lemma spans_plus_cls (p : ascii -> bool) (seg : jsstring) :
  seg <> [] -> forallb p seg = true -> spans (plus (Cls p)) seg.
Proof.
  destruct seg as [|c seg]; [congruence|]. intros _ H.
  cbn [forallb] in H. apply andb_true_iff in H. destruct H as [Hc Hs].
  change (c :: seg) with ([c] ++ seg). unfold plus.
  apply spans_cat; [now apply spans_cls|now apply spans_star_cls].
Qed.

Lemma spans_lazyPlus_cls (p : ascii -> bool) (seg : jsstring) :
  seg <> [] -> forallb p seg = true -> spans (lazyPlus (Cls p)) seg.
Proof.
  destruct seg as [|c seg]; [congruence|]. intros _ H.
  cbn [forallb] in H. apply andb_true_iff in H. destruct H as [Hc Hs].
  change (c :: seg) with ([c] ++ seg). unfold lazyPlus.
  apply spans_cat; [now apply spans_cls|now apply spans_star_cls].
Qed.

(** *** Literals *)

Lemma spans_liti (name : string) (w : jsstring) :
  toLowerCase w = toLowerCase (str name) -> spans (liti name) w.
Proof.
  intros Hw pre post cs. exists cs. unfold liti.
  assert (Hlen : length w = length (str name)).
  { apply (f_equal (@length ascii)) in Hw.
    unfold toLowerCase in Hw. now rewrite !length_map in Hw. }
  destruct (str name) as [|c name'] eqn:E.
  - destruct w; [|discriminate]. cbn [map cat run length].
    rewrite Nat.add_0_r. now left.
  - rewrite (run_liti (c :: name') w pre post cs ltac:(discriminate) Hw).
    rewrite Hlen. now left.
Qed.

Lemma spans_lit (name : string) : spans (lit name) (str name).
Proof.
  intros pre post cs. exists cs. unfold lit.
  generalize (str name) as w. intros w. revert pre.
  induction w as [|c w IH]; intros pre.
  - cbn [map cat run length app]. rewrite Nat.add_0_r. now left.
  - destruct w as [|c2 w].
    + cbn [map cat run chr pos caps app length].
      rewrite charAt_middle, Ascii.eqb_refl. left. f_equal. lia.
    + change (cat (map chr (c :: c2 :: w)))
        with (Cat (chr c) (cat (map chr (c2 :: w)))).
      cbn [run]. apply in_flat_map.
      exists (MkSt (S (length pre)) cs). split.
      * cbn [run chr pos caps app]. rewrite charAt_middle, Ascii.eqb_refl.
        now left.
      * specialize (IH (pre ++ [c])).
        rewrite length_app in IH. cbn [length] in IH.
        rewrite <- app_assoc in IH. cbn [app] in IH.
        replace (length pre + 1) with (S (length pre)) in IH by lia.
        cbn [app length].
        replace (length pre + S (S (length w)))
          with (S (length pre) + length (c2 :: w)) by (cbn [length]; lia).
        exact IH.
Qed.

Lemma spans_litsi (names : list string) (name : string) (w : jsstring) :
  In name names -> toLowerCase w = toLowerCase (str name) ->
  spans (litsi names) w.
Proof.
  intros Hin Hw. unfold litsi.
  apply (spans_alt_In _ (liti name)); [now apply in_map|].
  now apply spans_liti.
Qed.

Lemma spans_lits (names : list string) (name : string) :
  In name names -> spans (lits names) (str name).
Proof.
  intros Hin. unfold lits.
  apply (spans_alt_In _ (lit name)); [now apply in_map|].
  apply spans_lit.
Qed.

(** *** From a stretch to a search *)

Lemma test_spansIn (r : re) (pre seg post : jsstring) :
  spansIn r pre seg post -> test r (pre ++ seg ++ post) = true.
Proof.
  intros H. apply test_true_iff. exists (length pre). split.
  - rewrite length_app. lia.
  - destruct (H []) as [cs' Hin]. intros E. rewrite E in Hin. destruct Hin.
Qed.

Lemma test_spans (r : re) (pre seg post : jsstring) :
  spans r seg -> test r (pre ++ seg ++ post) = true.
Proof. intros H. apply test_spansIn. now apply spans_spansIn. Qed.

End SpansFacts.

(* ================================================================= *)
(** ** The response formatter: the order of the detectors *)

Module DetectorTheorems.
Import Js Regex Formatter Html JsFacts FormatterFacts.
Local Open Scope string_scope.
Local Open Scope list_scope.
Local Open Scope nat_scope.

(** The table detector's second pattern accepts every line that reads
    number, full stop, blanks, word, anything, colon, anything,
    digits. *)
Lemma reStructured_numbered_value (ds sp nm rest1 rest2 dd : jsstring) :
  ds <> [] -> forallb isDigit ds = true ->
  sp <> [] -> forallb isSpace sp = true ->
  nm <> [] -> forallb isWordChar nm = true ->
  forallb (fun c => negb (isLineTerminator c)) rest1 = true ->
  forallb (fun c => negb (isLineTerminator c)) rest2 = true ->
  dd <> [] -> forallb isDigit dd = true ->
  Spans.spans reStructured
    (ds ++ ["."%char] ++ sp ++ nm ++ rest1 ++ [":"%char] ++ rest2 ++ dd).
Proof.
  intros Hds1 Hds2 Hsp1 Hsp2 Hnm1 Hnm2 Hr1 Hr2 Hdd1 Hdd2.
  unfold reStructured. cbn [cat].
  apply SpansFacts.spans_cat; [now apply SpansFacts.spans_plus_cls|].
  apply SpansFacts.spans_cat; [now apply SpansFacts.spans_cls|].
  apply SpansFacts.spans_cat; [now apply SpansFacts.spans_plus_cls|].
  apply SpansFacts.spans_cat; [now apply SpansFacts.spans_plus_cls|].
  apply SpansFacts.spans_cat; [now apply SpansFacts.spans_star_cls|].
  apply SpansFacts.spans_cat; [now apply SpansFacts.spans_cls|].
  apply SpansFacts.spans_cat; [now apply SpansFacts.spans_star_cls|].
  now apply SpansFacts.spans_plus_cls.
Qed.

(** X8.  The table detector comes before the ranking and list
    detectors and also fires on a line that reads number, full stop,
    blanks, word, colon, digits (as in "1. USA: 5000"); the table
    extractor reads pipe rows only.  So a text that holds such a line,
    no pipe and no chart marker is returned as plain text, whatever
    else it contains: the ranking and list extractors are not
    consulted. *)
Theorem formatResponse_numbered_values_are_text :
  forall (parsesToChart : jsstring -> bool)
         (pre post ds sp nm rest1 rest2 dd : jsstring),
    let line := ds ++ ["."%char] ++ sp ++ nm ++ rest1 ++ [":"%char] ++
                rest2 ++ dd in
    let text := pre ++ line ++ post in
    ds <> [] -> forallb isDigit ds = true ->
    sp <> [] -> forallb isSpace sp = true ->
    nm <> [] -> forallb isWordChar nm = true ->
    forallb (fun c => negb (isLineTerminator c)) rest1 = true ->
    forallb (fun c => negb (isLineTerminator c)) rest2 = true ->
    dd <> [] -> forallb isDigit dd = true ->
    hasChartPattern text = false ->
    hasPipe text = false ->
    hasTablePattern text = true /\
    formatResponse parsesToChart text = Text text.
Proof.
  intros parses pre post ds sp nm rest1 rest2 dd line text
         Hds1 Hds2 Hsp1 Hsp2 Hnm1 Hnm2 Hr1 Hr2 Hdd1 Hdd2 Hchart Hpipe.
  assert (Hstruct : test reStructured text = true).
  { apply SpansFacts.test_spans.
    now apply reStructured_numbered_value. }
  assert (Htable : hasTablePattern text = true).
  { unfold hasTablePattern. rewrite Hstruct. apply orb_true_r. }
  split; [exact Htable|].
  rewrite formatResponse_order by now rewrite Hchart.
  rewrite Htable. now apply extractAndFormatTable_no_pipe.
Qed.

(** X8 on a two-line ranking: the first line alone decides. *)
Lemma formatResponse_numbered_values_witness :
  hasTablePattern Samples.numberedRanking = true /\
  formatResponse Samples.noChart Samples.numberedRanking
  = Text Samples.numberedRanking.
Proof.
  apply (formatResponse_numbered_values_are_text
           Samples.noChart [] (LF :: str "2. Russia: 4000")
           (str "1") (str " ") (str "USA") [] (str " ") (str "5000"));
    try discriminate; reflexivity.
Defined.

End DetectorTheorems.

(* ================================================================= *)
(** ** Patterns between word boundaries *)

Module WordFacts.
Import Js Regex Spans Sandbox JsFacts RegexFacts SandboxFacts SpansFacts.
Local Open Scope list_scope.
Local Open Scope nat_scope.

Lemma startsInWord_app (seg post : jsstring) :
  seg <> [] -> startsInWord (seg ++ post) = startsInWord seg.
Proof. destruct seg; [congruence|reflexivity]. Qed.

Lemma endsInWord_app (pre seg : jsstring) :
  seg <> [] -> endsInWord (pre ++ seg) = endsInWord seg.
Proof.
  destruct seg as [|c seg] using rev_ind; [congruence|]. intros _.
  unfold endsInWord. rewrite app_assoc, !length_app. cbn [length].
  replace (length pre + length seg + 1) with (S (length (pre ++ seg)))
    by (rewrite length_app; lia).
  replace (length seg + 1) with (S (length seg)) by lia.
  cbn [prevChar].
  rewrite (nth_error_app2 (pre ++ seg)) by lia.
  rewrite (nth_error_app2 seg) by lia.
  now rewrite !Nat.sub_diag.
Qed.

Lemma atWb_start (pre seg post : jsstring) :
  seg <> [] ->
  atWb (pre ++ seg ++ post) (length pre)
  = xorb (endsInWord pre) (startsInWord seg).
Proof.
  intros Hne. unfold atWb. rewrite prevChar_end.
  replace (length pre) with (length pre + 0) at 1 by lia.
  rewrite charAt_prefix. fold (startsInWord (seg ++ post)).
  now rewrite startsInWord_app.
Qed.

Lemma atWb_end (pre seg post : jsstring) :
  seg <> [] ->
  atWb (pre ++ seg ++ post) (length pre + length seg)
  = xorb (endsInWord seg) (startsInWord post).
Proof.
  intros Hne. unfold atWb.
  rewrite <- length_app, app_assoc, prevChar_end.
  replace (length (pre ++ seg)) with (length (pre ++ seg) + 0) by lia.
  rewrite charAt_prefix. fold (startsInWord post).
  now rewrite endsInWord_app.
Qed.

(** [/\b r \b/] finds a stretch [r] accepts when the stretch starts and
    ends with a word character and its neighbours are not word
    characters. *)
Lemma test_between_boundaries (r : re) (pre seg post : jsstring) :
  spans r seg -> seg <> [] ->
  startsInWord seg = true -> endsInWord seg = true ->
  endsInWord pre = false -> startsInWord post = false ->
  test (cat [Wb; r; Wb]) (pre ++ seg ++ post) = true.
Proof.
  intros Hr Hne Hs1 Hs2 Hpre Hpost.
  apply test_true_iff. exists (length pre). split.
  { rewrite length_app. lia. }
  change (cat [Wb; r; Wb]) with (Cat Wb (Cat r Wb)).
  set (s := pre ++ seg ++ post).
  change (run s (Cat Wb (Cat r Wb)) (MkSt (length pre) []))
    with (flat_map (run s (Cat r Wb))
                   (if atWb s (length pre) then [MkSt (length pre) []]
                    else [])).
  assert (Hstart : atWb s (length pre) = true).
  { subst s. now rewrite (atWb_start pre seg post Hne), Hpre, Hs1. }
  rewrite Hstart. cbn [flat_map]. rewrite app_nil_r.
  change (run s (Cat r Wb) (MkSt (length pre) []))
    with (flat_map (run s Wb) (run s r (MkSt (length pre) []))).
  subst s.
  destruct (Hr pre post []) as [cs' Hin].
  intros E.
  assert (Hnone : In (MkSt (length pre + length seg) cs')
                     (flat_map (run (pre ++ seg ++ post) Wb)
                               (run (pre ++ seg ++ post) r
                                    (MkSt (length pre) [])))).
  { apply in_flat_map. eexists. split; [exact Hin|].
    cbn [run pos]. rewrite (atWb_end pre seg post Hne), Hs2, Hpost.
    now left. }
  rewrite E in Hnone. destruct Hnone.
Qed.

Lemma same_letters_nonempty (w : jsstring) (name : string) :
  toLowerCase w = toLowerCase (str name) -> str name <> [] -> w <> [].
Proof. intros H Hne ->. destruct (str name); [congruence|discriminate]. Qed.

End WordFacts.

(* ================================================================= *)
(** ** The streaming handler: the local fast path *)

Module FastPathFacts.
Import Js Regex ResponseCache MapLookup FastPath JsFacts.
Local Open Scope string_scope.
Local Open Scope list_scope.
Local Open Scope nat_scope.

Lemma startsWith_app (p s : jsstring) : startsWith p (p ++ s) = true.
Proof.
  induction p as [|c p IH]; [reflexivity|].
  cbn [app startsWith]. now rewrite Ascii.eqb_refl, IH.
Qed.

Lemma startsWith_nonempty (p s : jsstring) :
  p <> [] -> startsWith p s = true -> isEmpty s = false.
Proof. destruct p, s; simpl; congruence. Qed.

Lemma mapGet_mapSet_same (V : Type) (k : jsstring) (v : V) (m : jsmap V) :
  mapGet V k (mapSet k v m) = Some v.
Proof.
  induction m as [|[k' v'] m IH]; cbn [mapSet mapGet].
  - now rewrite eqs_refl.
  - destruct (eqs k' k) eqn:E; cbn [mapGet]; rewrite E; [reflexivity|exact IH].
Qed.

(** After [addMessage] the user's conversation is one message longer,
    unless that takes it beyond 15 messages: then the oldest one is
    gone. *)
Lemma conversationOf_addMessage (user r c : jsstring)
      (memory : jsmap (list message)) :
  length (conversationOf user (addMessage user r c memory))
  = if maxMemorySize <? S (length (conversationOf user memory))
    then length (conversationOf user memory)
    else S (length (conversationOf user memory)).
Proof.
  unfold addMessage.
  unfold conversationOf at 1. rewrite mapGet_mapSet_same.
  rewrite length_app. cbn [length]. rewrite Nat.add_1_r.
  destruct (maxMemorySize <? S (length (conversationOf user memory))).
  - destruct (conversationOf user memory) as [|m0 rest]; reflexivity
      || (cbn [app tl length]; rewrite length_app; cbn [length]; lia).
  - rewrite length_app. cbn [length]. lia.
Qed.

Section Solvers.
Variable solverFn : string -> jsstring -> option jsstring.

(** An answer of [tryLocalSolvers] is never empty. *)
Lemma firstAnswer_truthy (names : list string) (text answer solver : jsstring) :
  firstAnswer solverFn names text = Some (answer, solver) ->
  isEmpty answer = false.
Proof.
  induction names as [|name rest IH]; cbn [firstAnswer]; [discriminate|].
  destruct (solverFn name text) as [a|]; [|exact IH].
  destruct (isEmpty a) eqn:E; [exact IH|].
  intros H. inversion H; subst. exact E.
Qed.

End Solvers.

(** Every entry of the instant-conversation table opens with the lines
    of a local answer. *)
Lemma buildSmallTalkResponse_local (text : jsstring) :
  startsWith LOCAL_HEAD (buildSmallTalkResponse text) = true.
Proof.
  unfold buildSmallTalkResponse, buildGreetingResponse, local.
  repeat match goal with
         | |- context [if ?b then _ else _] => destruct b
         end; apply startsWith_app.
Qed.

Lemma buildInstantConversationResponse_local (text : jsstring) :
  startsWith LOCAL_HEAD (buildInstantConversationResponse text) = true.
Proof.
  unfold buildInstantConversationResponse, local.
  destruct (isSmallTalkPrompt _); [apply buildSmallTalkResponse_local|].
  repeat match goal with
         | |- context [if ?b then _ else _] => destruct b
         end; apply startsWith_app.
Qed.

(** A local response makes no generate call of its own and schedules
    one summary, for the memory as the two messages leave it. *)
Lemma sendLocalResponse_generations (user stored text model : jsstring) :
  generationsOf (sendLocalResponse user stored text model) = [].
Proof.
  unfold sendLocalResponse.
  destruct (isEmpty stored), (isEmpty text); reflexivity.
Qed.

Lemma sendLocalResponse_summaries (stringify : list message -> jsstring)
      (user stored text model : jsstring) (memory : jsmap (list message))
      (tracker : jsmap nat) :
  isEmpty text = false ->
  summariesOf stringify (sendLocalResponse user stored text model)
              memory tracker
  = match summarizeConversationIfNeeded
            stringify user
            (memoryAfter (sendLocalResponse user stored text model) memory)
            tracker with
    | Some call => [call]
    | None => []
    end.
Proof.
  intros Htext. unfold summariesOf.
  set (after := memoryAfter _ memory).
  unfold sendLocalResponse. rewrite Htext.
  destruct (isEmpty stored); cbn [app flat_map];
    destruct (summarizeConversationIfNeeded stringify user after tracker);
    reflexivity.
Qed.

(** With the user's message stored too, a conversation with room for
    two more messages has grown by two. *)
Lemma sendLocalResponse_memory (user stored text model : jsstring)
      (memory : jsmap (list message)) :
  isEmpty stored = false -> isEmpty text = false ->
  2 + length (conversationOf user memory) <= maxMemorySize ->
  length (conversationOf user
            (memoryAfter (sendLocalResponse user stored text model) memory))
  = 2 + length (conversationOf user memory).
Proof.
  intros Hs Ht Hroom. unfold sendLocalResponse. rewrite Hs, Ht.
  cbn [app memoryAfter fold_left].
  rewrite !conversationOf_addMessage.
  destruct (Nat.ltb_spec maxMemorySize
              (S (length (conversationOf user memory)))) as [H|H]; [lia|].
  destruct (Nat.ltb_spec maxMemorySize
              (S (S (length (conversationOf user memory))))) as [H'|H'];
    lia.
Qed.

(** With no summary made so far, a conversation of eight messages or
    more is summarized, by a generate call to llama3.2. *)
Lemma summarizeConversationIfNeeded_due
      (stringify : list message -> jsstring) (user : jsstring)
      (memory : jsmap (list message)) :
  isEmpty user = false ->
  SUMMARY_EVERY_MESSAGES <= length (conversationOf user memory) ->
  summarizeConversationIfNeeded stringify user memory []
  = Some (MkGeneration (str "llama3.2")
            (summaryPrompt stringify
               (sliceLast 10 (conversationOf user memory)))).
Proof.
  intros Hu Hlen. unfold summarizeConversationIfNeeded. rewrite Hu.
  cbn [mapGet]. rewrite Nat.sub_0_r.
  destruct (Nat.ltb_spec (length (conversationOf user memory))
                         SUMMARY_EVERY_MESSAGES); [lia|reflexivity].
Qed.

End FastPathFacts.

Module FastPathTheorems.
Import Js Regex ResponseCache MapLookup FastPath JsFacts FastPathFacts.
Local Open Scope string_scope.
Local Open Scope list_scope.
Local Open Scope nat_scope.


Section Dispatch.
Variable trySolveSimpleMath : jsstring -> option Num.f64.
Variable buildLocalMathResponse : jsstring -> Num.f64 -> jsstring.
Variable extractResultSection : jsstring -> jsstring.
Variable solverFn : string -> jsstring -> option jsstring.
Variable buildThinkingResultPrompt :
  jsstring -> jsstring -> jsstring -> jsstring.
Variable callOllamaGenerate : generation -> option jsstring.
Variable p : payload.
Variable memory : jsmap (list message).
Variables incoming0 incoming dispatched solverPrompt : jsstring.
Variable history : list message.

Hypothesis Hprompt : trimmedOr (prompt p) [] = incoming0.
Hypothesis Hgiven : isEmpty incoming0 = false.
Hypothesis Hhistory :
  (if 0 <? length (conversationHistory p) then conversationHistory p
   else sliceLast 6 (conversationOf (trimmedOr (userId p) (str "anonymous"))
                                    memory)) = history.
Hypothesis Hfollow :
  followUp trySolveSimpleMath buildLocalMathResponse extractResultSection
           incoming0 history = inr incoming.
Hypothesis Hdispatch :
  dispatchPrompts p incoming = (dispatched, solverPrompt).

(** The dispatch, once the prompts are known. *)
Lemma handle_dispatch :
  handle trySolveSimpleMath buildLocalMathResponse extractResultSection
         solverFn buildThinkingResultPrompt callOllamaGenerate p memory
  = let reply :=
      sendLocalResponse (trimmedOr (userId p) (str "anonymous"))
                        (trimmedOr (userPrompt p) incoming0) in
    match tryLocalSolvers solverFn solverPrompt with
    | Some (answer, solver) =>
        (reply answer (str "local-" ++ solver), Returned)
    | None =>
        if isTrivialMessage dispatched ||
           isInstantConversationPrompt dispatched
        then (reply (buildInstantConversationResponse dispatched)
                    (str "tiny-sprinter"), Returned)
        else if isSimpleQaFastPath dispatched
        then simpleQa buildThinkingResultPrompt callOllamaGenerate reply
                      history dispatched
        else ([], Continues dispatched)
    end.
Proof.
  unfold handle. rewrite Hprompt, Hgiven, Hhistory, Hfollow, Hdispatch.
  reflexivity.
Qed.

(** When the dispatch-time prompt passes the fast-path test the
    request is answered locally, by a solver or from the table, with a
    text that is not empty. *)
Lemma handle_answers_locally :
  isTrivialMessage dispatched || isInstantConversationPrompt dispatched
  = true ->
  exists text model,
    isEmpty text = false /\
    handle trySolveSimpleMath buildLocalMathResponse extractResultSection
           solverFn buildThinkingResultPrompt callOllamaGenerate p memory
    = (sendLocalResponse (trimmedOr (userId p) (str "anonymous"))
                         (trimmedOr (userPrompt p) incoming0) text model,
       Returned).
Proof.
  intros Hfast. rewrite handle_dispatch. cbv zeta.
  destruct (tryLocalSolvers solverFn solverPrompt) as [[answer solver]|] eqn:E.
  - exists answer, (str "local-" ++ solver). split; [|reflexivity].
    now apply (firstAnswer_truthy solverFn _ _ _ _ E).
  - rewrite Hfast. eexists _, _. split; [|reflexivity].
    apply (startsWith_nonempty LOCAL_HEAD); [discriminate|].
    apply buildInstantConversationResponse_local.
Qed.

End Dispatch.



End FastPathTheorems.

(* ================================================================= *)
(** ** The SQL tool *)

Module SqlFacts.
Import Js Regex ResponseCache MapLookup Sql JsFacts.
Local Open Scope string_scope.
Local Open Scope list_scope.
Local Open Scope nat_scope.

Lemma mapGet_written (V : Type) (k : jsstring) (v : V) (m : jsmap V) :
  mapGet V k (mapSet k v m) = Some v.
Proof.
  induction m as [|[k' v'] m IH]; cbn [mapSet mapGet].
  - now rewrite eqs_refl.
  - destruct (eqs k' k) eqn:E; cbn [mapGet]; rewrite E; [reflexivity|exact IH].
Qed.

(** What a read-only query is made of. *)
Lemma isReadOnlyQuery_true (q : jsstring) :
  isReadOnlyQuery q = true ->
  isEmpty (trim q) = false /\
  existsb (Ascii.eqb ";") (trim q) = false /\
  hasWriteKeywords (trim q) = false /\
  existsb (fun head => startsWith (str head) (toLowerCase (trim q)))
          ["select"; "with"; "pragma"; "explain"] = true.
Proof.
  unfold isReadOnlyQuery.
  destruct (isEmpty (trim q)); [discriminate|].
  destruct (existsb (Ascii.eqb ";") (trim q)); [discriminate|].
  destruct (hasWriteKeywords (trim q)); [discriminate|].
  intros H. repeat split. cbn [existsb]. now rewrite orb_false_r, !orb_assoc.
Qed.

Section Child.
Variable runPythonScript : jsstring -> jsstring -> jsstring + jsstring.

(** The steps of [runSqliteQuery] once the query and the path are
    there. *)
Lemma runSqliteQuery_guarded (a : sqlArgs) (tGet tSet : Z)
      (sqlCache : jsmap sqlEntry) :
  allowWrite a <> Some true ->
  isReadOnlyQuery (query a) = false ->
  executed (runSqliteQuery runPythonScript a tGet tSet sqlCache) = [] /\
  cacheAfter (runSqliteQuery runPythonScript a tGet tSet sqlCache) = sqlCache /\
  exists message,
    outcome (runSqliteQuery runPythonScript a tGet tSet sqlCache)
    = SqlThrows message.
Proof.
  intros Hallow Hro. unfold runSqliteQuery.
  assert (Ha : match allowWrite a with Some b => b | None => false end = false).
  { destruct (allowWrite a) as [[|]|]; [congruence|reflexivity|reflexivity]. }
  rewrite Ha, Hro. cbn [negb andb].
  destruct (isEmpty (query a) || isEmpty (trim (query a)));
    [repeat split; eexists; reflexivity|].
  destruct (dbPath a) as [db|]; [|repeat split; eexists; reflexivity].
  destruct (isEmpty db); repeat split; eexists; reflexivity.
Qed.

Lemma runSqliteQuery_executed (a : sqlArgs) (tGet tSet : Z)
      (sqlCache : jsmap sqlEntry) :
  executed (runSqliteQuery runPythonScript a tGet tSet sqlCache) = [] \/
  exists db,
    dbPath a = Some db /\
    executed (runSqliteQuery runPythonScript a tGet tSet sqlCache)
    = [(db, query a)].
Proof.
  unfold runSqliteQuery.
  destruct (isEmpty (query a) || isEmpty (trim (query a))); [now left|].
  destruct (dbPath a) as [db|]; [|now left].
  destruct (isEmpty db); [now left|].
  destruct (negb _ && negb _); [now left|].
  destruct (if negb _ then _ else _) as [hit cache1].
  destruct (truthyValue hit); [now left|].
  destruct (runPythonScript db (query a)); right; exists db; now split.
Qed.

End Child.

End SqlFacts.

Module SqlTheorems.
Import Js Regex ResponseCache MapLookup Sql JsFacts SqlFacts.
Local Open Scope string_scope.
Local Open Scope list_scope.
Local Open Scope nat_scope.

(** X11.  [runSqliteQuery] hands at most one query to sqlite, the one
    it was given, on the database it was given.  Unless [allowWrite]
    is true, a query that is not read-only is refused: nothing is
    executed and the cache is left as it was; so whatever is executed
    is a single statement without semicolon and without any of the
    eleven write keywords as a word, that starts with select, with,
    pragma or explain. *)
Theorem runSqliteQuery_read_only_guard :
  forall (runPythonScript : jsstring -> jsstring -> jsstring + jsstring)
         (a : sqlArgs) (tGet tSet : Z) (sqlCache : jsmap sqlEntry),
    let r := runSqliteQuery runPythonScript a tGet tSet sqlCache in
    (executed r = [] \/
     exists db, dbPath a = Some db /\ executed r = [(db, query a)]) /\
    (allowWrite a <> Some true ->
     isReadOnlyQuery (query a) = false ->
     executed r = [] /\ cacheAfter r = sqlCache /\
     exists message, outcome r = SqlThrows message) /\
    (allowWrite a <> Some true ->
     executed r <> [] ->
     existsb (Ascii.eqb ";") (trim (query a)) = false /\
     hasWriteKeywords (trim (query a)) = false /\
     existsb (fun head => startsWith (str head)
                                     (toLowerCase (trim (query a))))
             ["select"; "with"; "pragma"; "explain"] = true).
Proof.
  intros run a tGet tSet sqlCache r. subst r. split; [|split].
  - apply runSqliteQuery_executed.
  - apply runSqliteQuery_guarded.
  - intros Hallow Hexec.
    destruct (isReadOnlyQuery (query a)) eqn:Hro.
    + now apply isReadOnlyQuery_true in Hro.
    + destruct (runSqliteQuery_guarded run a tGet tSet sqlCache Hallow Hro)
        as [Hnone _]. congruence.
Qed.

(** X12.  A read-only query that has just been executed is answered
    from the cache for the next five minutes: the same call, made
    while the clock has not moved on by more than [SQL_CACHE_TTL_MS],
    returns the same output without executing anything and leaves the
    cache as it is. *)
Theorem runSqliteQuery_answers_from_cache :
  forall (runPythonScript : jsstring -> jsstring -> jsstring + jsstring)
         (a : sqlArgs) (t1 t2 t3 t4 : Z) (sqlCache : jsmap sqlEntry)
         (output : jsstring),
    let first := runSqliteQuery runPythonScript a t1 t2 sqlCache in
    allowWrite a <> Some true ->
    outcome first = SqlReturns output ->
    executed first <> [] ->
    (t3 - t2 <= SQL_CACHE_TTL_MS)%Z ->
    runSqliteQuery runPythonScript a t3 t4 (cacheAfter first)
    = MkSqlRun (SqlReturns output) (cacheAfter first) [].
Proof.
  intros run a t1 t2 t3 t4 sqlCache output first Hallow Hout Hexec Hfresh.
  subst first. revert Hout Hexec. unfold runSqliteQuery.
  assert (Ha : match allowWrite a with Some b => b | None => false end = false).
  { destruct (allowWrite a) as [[|]|]; [congruence|reflexivity|reflexivity]. }
  rewrite Ha. cbn [negb andb].
  destruct (isEmpty (query a) || isEmpty (trim (query a)));
    [intros _ H; now elim H|].
  destruct (dbPath a) as [db|]; [|intros _ H; now elim H].
  destruct (isEmpty db); [intros _ H; now elim H|].
  destruct (negb (isReadOnlyQuery (query a))); [intros _ H; now elim H|].
  destruct (getSqlCache (db ++ str "::" ++ query a) t1 sqlCache)
    as [hit cache1].
  destruct (truthyValue hit); [intros _ H; now elim H|].
  destruct (run db (query a)) as [stdout|message]; [|discriminate].
  cbn [outcome cacheAfter executed]. intros Hout _.
  inversion Hout as [Hvalue]. clear Hout.
  unfold getSqlCache, setSqlCache. rewrite mapGet_written.
  cbn [storedAt cached].
  destruct (Z.ltb_spec SQL_CACHE_TTL_MS (t3 - t2)) as [Hold|_]; [lia|].
  assert (Htruthy : truthyValue
                      (Some (if isEmpty stdout then str "[]" else stdout))
                    = Some (if isEmpty stdout then str "[]" else stdout)).
  { destruct stdout; reflexivity. }
  rewrite Htruthy. reflexivity.
Qed.

(** A count that sqlite answers once: the second call, a minute later,
    is served from the cache. *)
Lemma runSqliteQuery_cache_witness :
  let a := MkSqlArgs (str "select count(*) from users") (Some (str "app.db"))
                     None in
  let sqlite := fun _ _ : jsstring => inl (str "[[3]]") in
  runSqliteQuery sqlite a 60000 60000
                 (cacheAfter (runSqliteQuery sqlite a 0 0 []))
  = MkSqlRun (SqlReturns (str "[[3]]"))
             (cacheAfter (runSqliteQuery sqlite a 0 0 [])) [].
Proof.
  intros a sqlite.
  apply (runSqliteQuery_answers_from_cache sqlite a 0 0 60000 60000 []).
  - discriminate.
  - reflexivity.
  - discriminate.
  - vm_compute. discriminate.
Defined.

End SqlTheorems.
